(** * SolanaTrackerBot: a shallow embedding of the RPC transport, the
    signature discovery and fetch pipeline, the transaction normalizer and
    the notification formatter, with the properties checked against them.

    Layout: Python values and exceptions; [SolanaClient] (solana_client.py);
    [SolanaHelpers] (solana_helpers.py); [Monitoring] (monitoring.py);
    then the lemmas, in the same order. *)

From Stdlib Require Import ZArith QArith Qabs Qround String Ascii List Bool Lia.
From Stdlib Require Import DecimalString.
From stdpp Require Import base option list gmap strings.
Import ListNotations.

Local Open Scope string_scope.
Local Open Scope list_scope.
Local Open Scope Z_scope.
Set Warnings "-register-all".

(** ** Python values

    The values that [ujson.loads] produces.  A dict is kept as an
    association list in which the first binding of a key is the live one.
    A Python float is kept as the rational it denotes: rounding to binary64
    is not modelled. *)

Inductive json : Type :=
| JNull
| JBool (b : bool)
| JInt (z : Z)
| JFloat (q : Q)
| JStr (s : string)
| JList (l : list json)
| JDict (kv : list (string * json)).

(** The exceptions the modelled code can meet. [PyException] is a bare
    [Exception(msg)]; [ClientError] stands for whatever aiohttp raises
    (connection failure, timeout, [raise_for_status], a body that is not
    JSON). *)
Inductive exn : Type :=
| TypeError
| KeyError
| IndexError
| AttributeError
| ValueError
| OverflowError
| ClientError
| PyException (msg : string).

Inductive result (A : Type) : Type :=
| Ok (a : A)
| Raise (e : exn).
Arguments Ok {A} a.
Arguments Raise {A} e.

#[global] Instance result_ret : MRet result := @Ok.
#[global] Instance result_bind : MBind result :=
  λ A B f m, match m with Ok a => f a | Raise e => Raise e end.

(** [try: m except (e1, e2, ...): handler] *)
Definition try_except {A} (m : result A) (catches : exn → bool) (handler : exn → result A)
  : result A :=
  match m with
  | Ok a => Ok a
  | Raise e => if catches e then handler e else Raise e
  end.

(** [except Exception]: every exception of the model is an [Exception]. *)
Definition any_exception (e : exn) : bool := true.

(** *** Truthiness, lookup, iteration *)

Definition truthy (v : json) : bool :=
  match v with
  | JNull => false
  | JBool b => b
  | JInt z => negb (z =? 0)
  | JFloat q => negb (Qeq_bool q 0)
  | JStr s => negb (String.eqb s EmptyString)
  | JList l => match l with [] => false | _ :: _ => true end
  | JDict kv => match kv with [] => false | _ :: _ => true end
  end.

Definition isinstance_dict (v : json) : bool :=
  match v with JDict _ => true | _ => false end.

Fixpoint assoc (k : string) (kv : list (string * json)) : option json :=
  match kv with
  | [] => None
  | (k', v) :: kv' => if String.eqb k k' then Some v else assoc k kv'
  end.

(** [v == s] for a string literal or [str] variable [s]. *)
Definition eq_str (v : json) (s : string) : bool :=
  match v with JStr s' => String.eqb s' s | _ => false end.

(** [s in big] on two strings. *)
Definition substring_of (s big : string) : bool :=
  match String.index 0 s big with Some _ => true | None => false end.

(** [k in v] for a string [k]. *)
Definition py_contains (k : string) (v : json) : result bool :=
  match v with
  | JDict kv => Ok (match assoc k kv with Some _ => true | None => false end)
  | JList l => Ok (existsb (λ x, eq_str x k) l)
  | JStr s => Ok (substring_of k s)
  | _ => Raise TypeError
  end.

(** [v.get(k, default)] *)
Definition py_get (v : json) (k : string) (default : json) : result json :=
  match v with
  | JDict kv => Ok (match assoc k kv with Some x => x | None => default end)
  | _ => Raise AttributeError
  end.

(** [v[k]] for a string [k]. *)
Definition py_getitem (v : json) (k : string) : result json :=
  match v with
  | JDict kv => match assoc k kv with Some x => Ok x | None => Raise KeyError end
  | _ => Raise TypeError
  end.

(** The characters of a string, one string each. A string is taken byte
    by byte; the modelled code treats every character of a string alike. *)
Fixpoint chars (s : string) : list json :=
  match s with
  | EmptyString => []
  | String c s' => JStr (String c EmptyString) :: chars s'
  end.

(** [v[i]] for a non-negative integer [i]. *)
Definition py_index (v : json) (i : nat) : result json :=
  match v with
  | JList l => match nth_error l i with Some x => Ok x | None => Raise IndexError end
  | JStr s => match nth_error (chars s) i with Some x => Ok x | None => Raise IndexError end
  | JDict _ => Raise KeyError
  | _ => Raise TypeError
  end.

(** [for x in v]: the elements of a list, the characters of a string, the
    keys of a dict. *)
Definition py_iter (v : json) : result (list json) :=
  match v with
  | JList l => Ok l
  | JStr s => Ok (chars s)
  | JDict kv => Ok (map (λ p, JStr (fst p)) kv)
  | _ => Raise TypeError
  end.

(** The number a value denotes in arithmetic; [bool] is a subclass of
    [int]. *)
Definition py_num (v : json) : result Q :=
  match v with
  | JInt z => Ok (inject_Z z)
  | JFloat q => Ok q
  | JBool b => Ok (inject_Z (if b then 1 else 0))
  | _ => Raise TypeError
  end.

(** True division of two integers raises [OverflowError] when the quotient
    rounds past the largest binary64 value. *)
Definition float_overflow (q : Q) : bool :=
  Qle_bool (inject_Z (2 ^ 1024 - 2 ^ 970)) (Qabs q).

(** [v / d] for a non-zero integer literal [d]. *)
Definition py_truediv (v : json) (d : Z) : result Q :=
  match v with
  | JInt z =>
      let q := Qmake z (Z.to_pos d) in
      if float_overflow q then Raise OverflowError else Ok q
  | JBool b => Ok (Qmake (if b then 1 else 0) (Z.to_pos d))
  | JFloat q => Ok (q / inject_Z d)%Q
  | _ => Raise TypeError
  end.

(** [a or b] *)
Definition py_or (a b : json) : json := if truthy a then a else b.

(** The decimal digits of a non-negative integer. *)
Definition digits (z : Z) : string :=
  NilZero.string_of_uint (N.to_uint (Z.to_N z)).

(** A Python float: a finite value, an infinity or a NaN. *)
Inductive pyfloat : Type :=
| Finite (q : Q)
| Infinity (negative : bool)
| NaN.

(** What the interpreter and its libraries supply. *)
Class Runtime : Type := {
  (** [float(s)] on a string; [None] is [ValueError]. *)
  float_of_string : string → option pyfloat;
  (** [datetime.fromtimestamp(t).strftime('%Y-%m-%d %H:%M:%S')], in the
      time zone of the host; raises outside the platform's range. *)
  local_strftime : Q → result string;
  (** [ujson.dumps] *)
  ujson_dumps : json → string;
  (** [str(v)], as interpolated by an f-string, for a value that is not a
      string. *)
  py_repr : json → string;
}.

(** [f"{v}"] *)
Definition fstr `{Runtime} (v : json) : string :=
  match v with JStr s => s | _ => py_repr v end.

(** ** solana_client.py: the RPC transport *)

Module SolanaClient.

(** The mutable fields of [AsyncCustomSolanaClient] that [_make_request]
    reads and writes. [semaphore] is the number of free slots of
    [asyncio.Semaphore(50)]. *)
Record client : Type := {
  request_id : Z;
  semaphore : nat;
  transaction_cache : gmap string json;
}.

Definition init : client :=
  {| request_id := 1; semaphore := 50; transaction_cache := ∅ |}.

(** What one [session.post] can come to. *)
Inductive http_reply : Type :=
| Status429
| Status403
| Success (body : json)
| Failure.

(** What a call does to the outside: taking and giving back a slot of the
    semaphore, posting a payload, sleeping. *)
Inductive event : Type :=
| Acquire
| Release
| Post (id : Z) (method : string) (params : json)
| Sleep (seconds : Z).

(** A call that waits on the semaphore has not returned. *)
Inductive outcome : Type :=
| Done (r : result json)
| Waiting.

Definition set_request_id (c : client) (n : Z) : client :=
  {| request_id := n; semaphore := semaphore c;
     transaction_cache := transaction_cache c |}.

Definition set_semaphore (c : client) (n : nat) : client :=
  {| request_id := request_id c; semaphore := n;
     transaction_cache := transaction_cache c |}.

Definition cache_store (c : client) (k : string) (v : json) : client :=
  {| request_id := request_id c; semaphore := semaphore c;
     transaction_cache := <[k := v]> (transaction_cache c) |}.

Definition auth_failed : exn :=
  PyException "Authentication failed. Check your RPC URL and API key.".

Definition max_retries_reached : json :=
  JDict [("error", JStr "Max retries reached")].

Section Transport.
Context `{Runtime}.

Definition cache_key (method : string) (params : json) : string :=
  String.append method (String.append ":" (ujson_dumps params)).

(** The body of [for attempt in range(retry_count)], from [attempt] on,
    with [remaining = retry_count - attempt] rounds to go. [net k] is the
    reply to the post issued in round [k]. The rounds run here with no
    other call on the client in between; [Interleaving] below lets the
    calls of a client take turns at their awaits. *)
Fixpoint attempts (net : nat → http_reply) (method : string) (params : json)
    (retry_count remaining attempt : nat) (c : client)
  : result json * client * list event :=
  match remaining with
  | O => (Ok max_retries_reached, c, [])
  | S remaining' =>
      let post := Post (request_id c) method params in
      let c1 := set_request_id c (request_id c + 1) in
      let except (e : exn) :=
        if Nat.eqb (S attempt) retry_count
        then (Raise e, c1, [post])
        else
          let '(r, c2, tr) :=
            attempts net method params retry_count remaining' (S attempt) c1 in
          (r, c2, post :: Sleep (2 ^ Z.of_nat attempt) :: tr) in
      match net attempt with
      | Status429 =>
          let '(r, c2, tr) :=
            attempts net method params retry_count remaining' (S attempt) c1 in
          (r, c2, post :: Sleep (2 ^ Z.of_nat attempt) :: tr)
      | Status403 => except auth_failed
      | Failure => except ClientError
      | Success body =>
          let c2 :=
            if String.eqb method "getTransaction"
            then cache_store c1 (cache_key method params) body
            else c1 in
          (Ok body, c2, [post])
      end
  end.

Definition _make_request (net : nat → http_reply) (method : string)
    (params : json) (retry_count : nat) (c : client)
  : outcome * client * list event :=
  match semaphore c with
  | O => (Waiting, c, [])
  | S free =>
      let held := set_semaphore c free in
      let hit :=
        if String.eqb method "getTransaction"
        then transaction_cache c !! cache_key method params
        else None in
      match hit with
      | Some cached => (Done (Ok cached), set_semaphore held (S free), [Acquire; Release])
      | None =>
          let '(r, c', tr) :=
            attempts net method params retry_count retry_count 0 held in
          (Done r, set_semaphore c' (S free), Acquire :: tr ++ [Release])
      end
  end.

(** The [config] of [get_signatures_for_address]: the cursors are sent
    only when they are truthy. *)
Definition signatures_config (limit : json) (before until : option string) : json :=
  JDict
    ([("limit", limit)]
     ++ match before with
        | Some b => if String.eqb b EmptyString then [] else [("before", JStr b)]
        | None => []
        end
     ++ match until with
        | Some u => if String.eqb u EmptyString then [] else [("until", JStr u)]
        | None => []
        end).

Definition get_signatures_for_address (net : nat → http_reply) (address : string)
    (before until : option string) (limit : json) (c : client)
  : outcome * client * list event :=
  _make_request net "getSignaturesForAddress"
    (JList [JStr address; signatures_config limit before until]) 3 c.

Definition get_transaction_params (signature : string) (encoding : string) : json :=
  JList [JStr signature;
         JDict [("encoding", JStr encoding);
                ("maxSupportedTransactionVersion", JInt 0)]].

Definition get_transaction (net : nat → http_reply) (signature : string)
    (c : client) : outcome * client * list event :=
  _make_request net "getTransaction"
    (get_transaction_params signature "jsonParsed") 3 c.

End Transport.

(** The posts and the sleeps of a trace. *)
Definition is_post (e : event) : bool :=
  match e with Post _ _ _ => true | _ => false end.
Definition is_sleep (e : event) : bool :=
  match e with Sleep _ => true | _ => false end.
Definition is_acquire (e : event) : bool :=
  match e with Acquire => true | _ => false end.

End SolanaClient.

(** ** solana_helpers.py: discovery, fetch and normalization *)

Module SolanaHelpers.

(** An entry of a [getSignaturesForAddress] page. *)
Record SigInfo : Type := {
  signature : string;
  slot : Z;
  blockTime : option Z;
}.

(** The reply to [getSignaturesForAddress]: whether it has an ["error"]
    key, and its ["result"] when it has one that is not null. *)
Record sig_reply : Type := {
  has_error : bool;
  sig_result : option (list SigInfo);
}.

(** [client.get_signatures_for_address(address, limit=..., before=...)] as
    the helpers see it: the number of the call, the limit and the cursor
    give a reply or an exception. *)
Definition signatures_rpc : Type :=
  nat → option Z → option string → result sig_reply.

(** [client.get_transaction(signature)] as the helpers see it, for the
    task of the [i]-th descriptor at its [k]-th attempt. *)
Definition transaction_rpc : Type :=
  nat → string → nat → result json.

(** One row of the output. *)
Record TransferRecord : Type := {
  tr_type : json;
  tr_wallet_1 : json;
  tr_wallet_2 : json;
  tr_amount : json;
  tr_authority : json;
  tr_timestamp : string;
  tr_signature : string;
  tr_block_number : json;
  tr_link : string;
}.

(** *** [_fetch_transaction_with_retry] *)

Definition MAX_RETRIES : nat := 5.
Definition INITIAL_DELAY_SECONDS : Z := 1.

(** The rounds of [for attempt in range(MAX_RETRIES)] from [attempt] on;
    gives the value returned and the sleeps made, in order. *)
Fixpoint fetch_attempts (get_transaction : nat → result json)
    (remaining attempt : nat) (delay : Z) : json * list Z :=
  match remaining with
  | O => (JNull, [])
  | S remaining' =>
      match get_transaction attempt with
      | Ok response => (response, [])
      | Raise _ =>
          if Nat.ltb attempt (MAX_RETRIES - 1)
          then
            let '(r, sleeps) :=
              fetch_attempts get_transaction remaining' (S attempt) (delay * 2) in
            (r, delay :: sleeps)
          else fetch_attempts get_transaction remaining' (S attempt) delay
      end
  end.

Definition _fetch_transaction_with_retry (get_transaction : nat → result json)
  : json * list Z :=
  fetch_attempts get_transaction MAX_RETRIES 0 INITIAL_DELAY_SECONDS.

(** [tx_tasks = [... for sig in signatures]] followed by
    [asyncio.gather] over them: one result per task, in the order of the
    tasks. *)
Definition gather_transactions (rpc : transaction_rpc) (signatures : list SigInfo)
  : list (json * list Z) :=
  imap (λ i sig, _fetch_transaction_with_retry (rpc i (signature sig))) signatures.

(** [zip(signatures, tx_responses)] *)
Definition fetch_batch (rpc : transaction_rpc) (signatures : list SigInfo)
  : list (SigInfo * json) :=
  zip signatures (gather_transactions rpc signatures).*1.

(** *** [_parse_transaction_details] *)

Section Normalizer.
Context `{Runtime}.

Definition transfer_types : list string := ["transfer"; "transferChecked"].

Definition solscan_link (signature : string) : string :=
  String.append "https://solscan.io/tx/" signature.

Definition amount_of (info : json) : result json :=
  has_lamports ← py_contains "lamports" info;
  if has_lamports : bool then
    lamports ← py_get info "lamports" (JInt 0);
    q ← py_truediv lamports 1000000000;
    Ok (JFloat q)
  else
    has_token_amount ← py_contains "tokenAmount" info;
    if has_token_amount : bool then
      token_amount ← py_get info "tokenAmount" (JDict []);
      ui_string ← py_get token_amount "uiAmountString" JNull;
      if truthy ui_string then Ok ui_string
      else
        token_amount' ← py_get info "tokenAmount" (JDict []);
        py_get token_amount' "uiAmount" JNull
    else
      has_amount ← py_contains "amount" info;
      if has_amount : bool then py_get info "amount" JNull
      else Ok (JStr "N/A").

(** The body of [for instruction in instructions]: [None] where the
    source says [continue]. *)
Definition instruction_step (timestamp : string) (slot : json)
    (signature : string) (instruction : json) : result (option TransferRecord) :=
  if negb (isinstance_dict instruction) then Ok None else
  parsed_info ← py_get instruction "parsed" (JDict []);
  if negb (isinstance_dict parsed_info) || negb (truthy parsed_info) then Ok None else
  tx_type ← py_get parsed_info "type" JNull;
  if negb (existsb (eq_str tx_type) transfer_types) then Ok None else
  info ← py_get parsed_info "info" (JDict []);
  wallet_1 ← py_get info "source" JNull;
  wallet_2 ← py_get info "destination" JNull;
  authority ← py_get info "authority" JNull;
  if negb (truthy wallet_1) || negb (truthy wallet_2) then Ok None else
  amount ← amount_of info;
  Ok (Some {| tr_type := tx_type;
              tr_wallet_1 := wallet_1;
              tr_wallet_2 := wallet_2;
              tr_amount := amount;
              tr_authority := authority;
              tr_timestamp := timestamp;
              tr_signature := signature;
              tr_block_number := slot;
              tr_link := solscan_link signature |}).

Fixpoint instruction_loop (timestamp : string) (slot : json)
    (signature : string) (instructions : list json)
  : result (list TransferRecord) :=
  match instructions with
  | [] => Ok []
  | instruction :: rest =>
      r ← instruction_step timestamp slot signature instruction;
      rs ← instruction_loop timestamp slot signature rest;
      Ok (match r with Some rec => rec :: rs | None => rs end)
  end.

(** [not tx_response or "result" not in tx_response or not
    tx_response["result"]] *)
Definition no_result (tx_response : json) : result bool :=
  if negb (truthy tx_response) then Ok true else
  present ← py_contains "result" tx_response;
  if negb present then Ok true else
  r ← py_getitem tx_response "result";
  Ok (negb (truthy r)).

(** [datetime.fromtimestamp(block_time).strftime(...) if block_time else ''] *)
Definition timestamp_of (block_time : json) : result string :=
  if truthy block_time then
    t ← py_num block_time;
    local_strftime t
  else Ok EmptyString.

Definition _parse_transaction_details (tx_response : json) (sig_info : SigInfo)
  : result (list TransferRecord) :=
  skip ← no_result tx_response;
  if skip : bool then Ok [] else
  tx_result ← py_getitem tx_response "result";
  let signature := signature sig_info in
  block_time ← py_get tx_result "blockTime" JNull;
  timestamp ← timestamp_of block_time;
  slot ← py_get tx_result "slot" (JStr EmptyString);
  transaction_field ← py_get tx_result "transaction" JNull;
  if negb (isinstance_dict transaction_field) then Ok [] else
  message ← py_get transaction_field "message" (JDict []);
  if negb (isinstance_dict message) then Ok [] else
  instructions ← py_get message "instructions" (JList []);
  items ← py_iter instructions;
  instruction_loop timestamp slot signature items.

(** [for sig_info, tx_response in zip(...): parsed_data.extend(...)], as
    [fetch_and_parse_new_transactions] uses it: an exception discards the
    rows. *)
Fixpoint parse_all (pairs : list (SigInfo * json)) : result (list TransferRecord) :=
  match pairs with
  | [] => Ok []
  | (sig_info, tx_response) :: rest =>
      rows ← _parse_transaction_details tx_response sig_info;
      rows' ← parse_all rest;
      Ok (rows ++ rows')
  end.

(** The same loop under the [try] of [fetch_and_parse_transactions]: the
    rows appended before an exception are what is returned. *)
Fixpoint parse_until_error (pairs : list (SigInfo * json)) : list TransferRecord :=
  match pairs with
  | [] => []
  | (sig_info, tx_response) :: rest =>
      match _parse_transaction_details tx_response sig_info with
      | Ok rows => rows ++ parse_until_error rest
      | Raise _ => []
      end
  end.

End Normalizer.

(** *** Signature discovery *)

(** [block_time and ...]: a confirmation time that is present and not 0. *)
Definition time_truthy (t : option Z) : bool :=
  match t with Some z => negb (Z.eqb z 0) | None => false end.

(** [start_block or end_block], [end_block and ...]: a bound that is given
    and not 0. *)
Definition bound_truthy (b : option Z) : bool :=
  match b with Some z => negb (Z.eqb z 0) | None => false end.

Definition bound_value (b : option Z) : Z :=
  match b with Some z => z | None => 0 end.

Definition time_value (t : option Z) : Z :=
  match t with Some z => z | None => 0 end.

(** ["error" in response or not response.get("result")] *)
Definition reply_stops (response : sig_reply) : bool :=
  has_error response ||
  match sig_result response with
  | Some (_ :: _) => false
  | _ => true
  end.

Definition reply_batch (response : sig_reply) : list SigInfo :=
  match sig_result response with Some batch => batch | None => [] end.

(** [block_time and start_ts <= block_time <= end_ts] *)
Definition in_date_range (start_ts end_ts : Z) (sig_info : SigInfo) : bool :=
  time_truthy (blockTime sig_info) &&
  (Z.leb start_ts (time_value (blockTime sig_info)) &&
   Z.leb (time_value (blockTime sig_info)) end_ts).

Definition PAGE : nat := 1000.

(** [while fetched_count < 20000: ...] of the date-range mode. Every round
    that goes on adds a full page to [fetched_count], so the loop ends
    within 20 rounds; [None] is a loop that has not ended when [fuel] rounds
    are over. *)
Fixpoint date_range_loop (rpc : signatures_rpc) (start_ts end_ts : Z)
    (fuel call : nat) (before_sig : option string) (fetched_count : Z)
    (signatures : list SigInfo) : option (result (list SigInfo)) :=
  if negb (Z.ltb fetched_count 20000) then Some (Ok signatures) else
  match fuel with
  | O => None
  | S fuel' =>
      match rpc call (Some 1000) before_sig with
      | Raise e => Some (Raise e)
      | Ok response =>
          if reply_stops response then Some (Ok signatures) else
          let batch := reply_batch response in
          match last batch with
          | None => Some (Ok signatures)
          | Some oldest =>
              let signatures' :=
                signatures ++ List.filter (in_date_range start_ts end_ts) batch in
              let last_sig_time := blockTime oldest in
              if time_truthy last_sig_time && Z.ltb (time_value last_sig_time) start_ts
              then Some (Ok signatures')
              else if Nat.ltb (length batch) PAGE then Some (Ok signatures')
              else
                date_range_loop rpc start_ts end_ts fuel' (S call)
                  (Some (signature oldest))
                  (fetched_count + Z.of_nat (length batch)) signatures'
          end
      end
  end.

(** The [for sig_info in batch] of the block-range mode: the descriptors
    appended, and [stop_fetching]. *)
Fixpoint block_range_batch (start_block end_block : option Z)
    (batch : list SigInfo) : list SigInfo * bool :=
  match batch with
  | [] => ([], false)
  | sig_info :: rest =>
      if bound_truthy end_block && Z.gtb (slot sig_info) (bound_value end_block)
      then block_range_batch start_block end_block rest
      else if bound_truthy start_block && Z.ltb (slot sig_info) (bound_value start_block)
      then ([], true)
      else
        let '(kept, stop_fetching) := block_range_batch start_block end_block rest in
        (sig_info :: kept, stop_fetching)
  end.

(** [while fetched_count < 5000: ...] of the block-range mode. *)
Fixpoint block_range_loop (rpc : signatures_rpc) (start_block end_block : option Z)
    (fuel call : nat) (before_sig : option string) (fetched_count : Z)
    (signatures : list SigInfo) : option (result (list SigInfo)) :=
  if negb (Z.ltb fetched_count 5000) then Some (Ok signatures) else
  match fuel with
  | O => None
  | S fuel' =>
      match rpc call (Some 1000) before_sig with
      | Raise e => Some (Raise e)
      | Ok response =>
          if reply_stops response then Some (Ok signatures) else
          let batch := reply_batch response in
          let '(kept, stop_fetching) := block_range_batch start_block end_block batch in
          let signatures' := signatures ++ kept in
          if stop_fetching || Nat.ltb (length batch) PAGE then Some (Ok signatures')
          else
            match last batch with
            | None => Some (Raise IndexError)
            | Some oldest =>
                block_range_loop rpc start_block end_block fuel' (S call)
                  (Some (signature oldest))
                  (fetched_count + Z.of_nat (length batch)) signatures'
            end
      end
  end.

(** The three selection modes of [fetch_and_parse_transactions]. *)
Inductive mode : Type :=
| DateRange (start_ts end_ts : Z)
| BlockRange
| CountLimited.

(** [if start_date and end_date: ... elif start_block or end_block: ...
    else: ...]. A date is given as [int(date.timestamp())]; a [datetime] is
    never falsy. *)
Definition select_mode (start_block end_block start_date end_date : option Z) : mode :=
  match start_date, end_date with
  | Some start_ts, Some end_ts => DateRange start_ts end_ts
  | _, _ =>
      if bound_truthy start_block || bound_truthy end_block
      then BlockRange else CountLimited
  end.

(** The first half of [fetch_and_parse_transactions]: the list
    [signatures]. In the count-limited mode the source returns [[]] at once
    on an error or an empty result, which is what an empty list of
    signatures comes to. *)
Definition discover_signatures (rpc : signatures_rpc) (limit : option Z)
    (start_block end_block start_date end_date : option Z)
  : option (result (list SigInfo)) :=
  match select_mode start_block end_block start_date end_date with
  | DateRange start_ts end_ts =>
      date_range_loop rpc start_ts end_ts 20 0 None 0 []
  | BlockRange =>
      block_range_loop rpc start_block end_block 5 0 None 0 []
  | CountLimited =>
      match rpc O limit None with
      | Raise e => Some (Raise e)
      | Ok signatures_response =>
          if reply_stops signatures_response then Some (Ok [])
          else Some (Ok (reply_batch signatures_response))
      end
  end.

Section Pipeline.
Context `{Runtime}.

(** [fetch_and_parse_transactions]: an exception anywhere under the [try]
    is logged and [parsed_data], as filled so far, is returned. *)
Definition fetch_and_parse_transactions (rpc : signatures_rpc)
    (tx_rpc : transaction_rpc) (limit : option Z)
    (start_block end_block start_date end_date : option Z)
  : option (list TransferRecord) :=
  match discover_signatures rpc limit start_block end_block start_date end_date with
  | None => None
  | Some (Raise _) => Some []
  | Some (Ok signatures) => Some (parse_until_error (fetch_batch tx_rpc signatures))
  end.

(** *** The incremental scan *)

(** [not newest_signature] *)
Definition marker_truthy (m : option string) : bool :=
  match m with Some s => negb (String.eqb s EmptyString) | None => false end.

(** [sig_info["signature"] == last_signature] *)
Definition is_marker (last_signature : option string) (sig_info : SigInfo) : bool :=
  match last_signature with
  | Some s => String.eqb (signature sig_info) s
  | None => false
  end.

(** The [for sig_info in batch] of the incremental scan: the descriptors
    appended, and [found_last_sig]. *)
Fixpoint until_marker (last_signature : option string) (batch : list SigInfo)
  : list SigInfo * bool :=
  match batch with
  | [] => ([], false)
  | sig_info :: rest =>
      if is_marker last_signature sig_info then ([], true)
      else
        let '(new, found) := until_marker last_signature rest in
        (sig_info :: new, found)
  end.

(** [for _ in range(10): ...]: gives [new_signatures_info] and
    [newest_signature]. *)
Fixpoint since_marker_loop (rpc : signatures_rpc) (last_signature : option string)
    (pages call : nat) (before_sig newest_signature : option string)
    (new_signatures_info : list SigInfo)
  : result (list SigInfo * option string) :=
  match pages with
  | O => Ok (new_signatures_info, newest_signature)
  | S pages' =>
      response ← rpc call (Some 1000) before_sig;
      if reply_stops response then Ok (new_signatures_info, newest_signature) else
      let batch := reply_batch response in
      first ← match head batch with Some s => Ok s | None => Raise IndexError end;
      let newest_signature' :=
        if negb (marker_truthy newest_signature)
        then Some (signature first) else newest_signature in
      let '(new, found_last_sig) := until_marker last_signature batch in
      let new_signatures_info' := new_signatures_info ++ new in
      if found_last_sig || Nat.ltb (length batch) PAGE
      then Ok (new_signatures_info', newest_signature')
      else
        oldest ← match last batch with Some s => Ok s | None => Raise IndexError end;
        since_marker_loop rpc last_signature pages' (S call)
          (Some (signature oldest)) newest_signature' new_signatures_info'
  end.

Definition since_marker_scan (rpc : signatures_rpc) (last_signature : option string)
  : result (list SigInfo * option string) :=
  since_marker_loop rpc last_signature 10 0 None None [].

Definition fetch_and_parse_new_transactions (rpc : signatures_rpc)
    (tx_rpc : transaction_rpc) (last_signature : option string)
  : list TransferRecord * option string :=
  let body :=
    '(new_signatures_info, newest_signature) ← since_marker_scan rpc last_signature;
    match new_signatures_info with
    | [] => Ok ([], last_signature)
    | _ :: _ =>
        parsed_data ← parse_all (fetch_batch tx_rpc new_signatures_info);
        Ok (parsed_data, newest_signature)
    end in
  match body with
  | Ok r => r
  | Raise _ => ([], last_signature)
  end.

End Pipeline.

(** *** A provider that serves a fixed history

    [getSignaturesForAddress] over a history held newest first: the page
    after the cursor, at most [limit] long (1000 when no limit is sent).
    [get_signatures_for_address] sends the cursor only [if before:]. *)

Fixpoint after_cursor (cursor : string) (history : list SigInfo) : list SigInfo :=
  match history with
  | [] => []
  | s :: rest =>
      if String.eqb (signature s) cursor then rest else after_cursor cursor rest
  end.

Definition history_page (history : list SigInfo) (limit : option Z)
    (before : option string) : list SigInfo :=
  let n := match limit with Some z => Z.to_nat z | None => PAGE end in
  take n (if marker_truthy before
          then after_cursor (default EmptyString before) history
          else history).

Definition history_rpc (history : list SigInfo) : signatures_rpc :=
  λ _ limit before,
    Ok {| has_error := false;
          sig_result := Some (history_page history limit before) |}.

End SolanaHelpers.

(** ** monitoring.py: the notification formatter *)

Module Monitoring.

(** *** Float arithmetic and formatting *)

Definition fsub (a b : pyfloat) : pyfloat :=
  match a, b with
  | NaN, _ | _, NaN => NaN
  | Finite x, Finite y => Finite (x - y)%Q
  | Infinity n, Finite _ => Infinity n
  | Finite _, Infinity n => Infinity (negb n)
  | Infinity n, Infinity m => if Bool.eqb n m then NaN else Infinity n
  end.

Definition fabs (a : pyfloat) : pyfloat :=
  match a with
  | Finite q => Finite (Qabs q)
  | Infinity _ => Infinity false
  | NaN => NaN
  end.

(** [a > 0] *)
Definition fpositive (a : pyfloat) : bool :=
  match a with
  | Finite q => Z.ltb 0 (Qnum q)
  | Infinity n => negb n
  | NaN => false
  end.

(** [float(v)] *)
Definition py_float `{Runtime} (v : json) : result pyfloat :=
  match v with
  | JStr s => match float_of_string s with Some f => Ok f | None => Raise ValueError end
  | JInt z =>
      if float_overflow (inject_Z z) then Raise OverflowError
      else Ok (Finite (inject_Z z))
  | JFloat q => Ok (Finite q)
  | JBool b => Ok (Finite (inject_Z (if b then 1 else 0)))
  | _ => Raise TypeError
  end.

(** The nearest integer to a non-negative rational, ties to even. *)
Definition round_half_even (q : Q) : Z :=
  let n := Qnum q in
  let d := Z.pos (Qden q) in
  let fl := n / d in
  let r := n mod d in
  if Z.ltb (2 * r) d then fl
  else if Z.ltb d (2 * r) then fl + 1
  else if Z.even fl then fl else fl + 1.

Fixpoint zeros (n : nat) : string :=
  match n with O => EmptyString | S n' => String "0" (zeros n') end.

Definition pad6 (s : string) : string :=
  String.append (zeros (6 - String.length s)) s.

(** Commas between groups of three digits, from the right. *)
Fixpoint group_thousands (s : string) : string :=
  match s with
  | EmptyString => EmptyString
  | String c rest =>
      String c
        (if Nat.eqb (Nat.modulo (String.length rest) 3) 0 && negb (Nat.eqb (String.length rest) 0)
         then String "," (group_thousands rest)
         else group_thousands rest)
  end.

(** [f"{a:.6f}"] and, with [comma], [f"{a:,.6f}"], for [a] not negative:
    the six decimals of the exact value, ties to even. The program formats
    the binary64 number next to that value, so the two can differ in the
    last digit where the exact value lies halfway between two of them. *)
Definition format_6f (comma : bool) (a : pyfloat) : string :=
  match a with
  | Finite q =>
      let n := round_half_even (q * inject_Z 1000000)%Q in
      let whole := digits (n / 1000000) in
      String.append (if comma then group_thousands whole else whole)
        (String.append "." (pad6 (digits (n mod 1000000))))
  | Infinity _ => "inf"
  | NaN => "nan"
  end.

(** *** The text of the message *)

Definition label_received : string := "üü¢ –ü–æ–ª—É—á–µ–Ω–æ".
Definition label_sent : string := "üî¥ –û—Ç–ø—Ä–∞–≤–ª–µ–Ω–æ".
Definition header_text : string := "üîî **–ù–æ–≤–∞—è —Ç—Ä–∞–Ω–∑–∞–∫—Ü–∏—è** –¥–ª—è –∫–æ—à–µ–ª—å–∫–∞".
(** [helpers.escape_markdown(..., version=2)] of a text that has none of
    the escaped characters. *)
Definition escaped_text : string := "–ü–æ—Å–º–æ—Ç—Ä–µ—Ç—å –Ω–∞ Solscan".

Definition newline : string := String (ascii_of_nat 10) EmptyString.

Fixpoint join (sep : string) (lines : list string) : string :=
  match lines with
  | [] => EmptyString
  | [l] => l
  | l :: rest => String.append l (String.append sep (join sep rest))
  end.

Fixpoint concat_strings (parts : list string) : string :=
  match parts with
  | [] => EmptyString
  | p :: rest => String.append p (concat_strings rest)
  end.

(** [s[:n]] and [s[-n:]]; an address is ASCII, so bytes are characters. *)
Definition prefix (n : nat) (s : string) : string := String.substring 0 n s.
Definition suffix (n : nat) (s : string) : string :=
  String.substring (String.length s - n) n s.

Definition direction (received : bool) : string :=
  if received then label_received else label_sent.

(** *** The native balance change *)

(** [a - b] on numbers. *)
Definition py_sub (a b : json) : result json :=
  match a, b with
  | (JInt _ | JBool _), (JInt _ | JBool _) =>
      x ← py_num a; y ← py_num b; Ok (JInt (Qnum x - Qnum y))
  | _, _ =>
      x ← py_num a; y ← py_num b; Ok (JFloat (x - y)%Q)
  end.

(** [next((i for i, acc in enumerate(account_keys) if acc == wallet_address), -1)];
    [None] is [-1]. *)
Fixpoint index_of (wallet_address : string) (account_keys : list json) : option nat :=
  match account_keys with
  | [] => None
  | acc :: rest =>
      if eq_str acc wallet_address then Some O
      else option_map S (index_of wallet_address rest)
  end.

Definition caught_by_balance_handler (e : exn) : bool :=
  match e with KeyError | IndexError | TypeError => true | _ => false end.

(** The [try] block that sets [sol_change], which starts at 0. *)
Definition sol_change_of (tx_result meta : json) (wallet_address : string) : result Q :=
  try_except
    (message ← py_get tx_result "message" (JDict []);
     account_keys ← py_get message "accountKeys" (JList []);
     keys ← py_iter account_keys;
     match index_of wallet_address keys with
     | None => Ok 0%Q
     | Some addr_idx =>
         pre_balances ← py_getitem meta "preBalances";
         pre_sol ← py_index pre_balances addr_idx;
         post_balances ← py_getitem meta "postBalances";
         post_sol ← py_index post_balances addr_idx;
         difference ← py_sub post_sol pre_sol;
         py_truediv difference 1000000000
     end)
    caught_by_balance_handler
    (λ _, Ok 0%Q).

(** *** The token balance changes *)

Definition hashable (v : json) : bool :=
  match v with JList _ | JDict _ => false | _ => true end.

(** Equality of two dict keys: numbers by value, strings by content. *)
Definition key_eqb (a b : json) : bool :=
  match a, b with
  | JNull, JNull => true
  | JStr s, JStr t => String.eqb s t
  | (JBool _ | JInt _ | JFloat _), (JBool _ | JInt _ | JFloat _) =>
      match py_num a, py_num b with
      | Ok x, Ok y => Qeq_bool x y
      | _, _ => false
      end
  | _, _ => false
  end.

(** A dict with keys of any hashable kind, in insertion order. *)
Definition pydict : Type := list (json * json).

Fixpoint dict_lookup (k : json) (d : pydict) : option json :=
  match d with
  | [] => None
  | (k', v) :: d' => if key_eqb k k' then Some v else dict_lookup k d'
  end.

Fixpoint dict_set (k v : json) (d : pydict) : pydict :=
  match d with
  | [] => [(k, v)]
  | (k', v') :: d' =>
      if key_eqb k k' then (k', v) :: d' else (k', v') :: dict_set k v d'
  end.

(** [{b['mint']: b for b in balances if b.get('owner') == wallet_address}],
    the entries taken in order into [d]. *)
Fixpoint owned_by_mint (wallet_address : string) (balances : list json)
    (d : pydict) : result pydict :=
  match balances with
  | [] => Ok d
  | b :: rest =>
      owner ← py_get b "owner" JNull;
      if eq_str owner wallet_address then
        mint ← py_getitem b "mint";
        if hashable mint
        then owned_by_mint wallet_address rest (dict_set mint b d)
        else Raise TypeError
      else owned_by_mint wallet_address rest d
  end.

Definition token_balances_of (meta : json) (field : string)
    (wallet_address : string) : result pydict :=
  balances ← py_get meta field (JList []);
  entries ← py_iter balances;
  owned_by_mint wallet_address entries [].

(** [set(pre.keys()) | set(post.keys())]. A set has no order of its own:
    the keys are taken here as they were inserted, those of [pre] first. *)
Fixpoint add_keys (keys : list json) (seen : list json) : list json :=
  match keys with
  | [] => seen
  | k :: rest =>
      if existsb (key_eqb k) seen then add_keys rest seen
      else add_keys rest (seen ++ [k])
  end.

Definition all_mints_of (pre post : pydict) : list json :=
  add_keys (map fst post) (add_keys (map fst pre) []).

Section Formatter.
Context `{Runtime}.

(** [float(d.get(mint, {}).get('uiTokenAmount', {}).get('uiAmountString', '0'))] *)
Definition ui_amount (d : pydict) (mint : json) : result pyfloat :=
  let entry := match dict_lookup mint d with Some b => b | None => JDict [] end in
  ui_token_amount ← py_get entry "uiTokenAmount" (JDict []);
  ui_amount_string ← py_get ui_token_amount "uiAmountString" (JStr "0");
  py_float ui_amount_string.

(** The body of [for mint in all_mints], over the mints in order. *)
Fixpoint token_changes_of (pre post : pydict) (mints : list json)
  : result (list (json * pyfloat)) :=
  match mints with
  | [] => Ok []
  | mint :: rest =>
      pre_amount ← ui_amount pre mint;
      post_amount ← ui_amount post mint;
      let change := fsub post_amount pre_amount in
      changes ← token_changes_of pre post rest;
      Ok (if fpositive (fabs change) then (mint, change) :: changes else changes)
  end.

Definition sol_line (sol_change : Q) : string :=
  concat_strings
    [direction (fpositive (Finite sol_change)); " `";
     format_6f false (fabs (Finite sol_change)); "` **SOL**"].

(** [prices.get(tc['mint'], {}).get('symbol', tc['mint'][:6]+"...")] *)
Definition symbol_of (prices : json) (mint : json) : result json :=
  entry ← match mint with
          | JStr m => py_get prices m (JDict [])
          | _ => py_get prices EmptyString (JDict []);; Ok (JDict [])
          end;
  if isinstance_dict entry then
    match mint with
    | JStr m => py_get entry "symbol" (JStr (String.append (prefix 6 m) "..."))
    | _ => Raise TypeError
    end
  else Raise AttributeError.

Definition token_line (prices : json) (tc : json * pyfloat) : result string :=
  symbol ← symbol_of prices (fst tc);
  Ok (concat_strings
        [direction (fpositive (snd tc)); " `";
         format_6f true (fabs (snd tc)); "` **"; fstr symbol; "**"]).

Fixpoint token_lines (prices : json) (token_changes : list (json * pyfloat))
  : result (list string) :=
  match token_changes with
  | [] => Ok []
  | tc :: rest =>
      l ← token_line prices tc;
      ls ← token_lines prices rest;
      Ok (l :: ls)
  end.

(** [not tx_result or not meta or meta.get("err")] *)
Definition failed_or_malformed (tx_result meta : json) : result bool :=
  if negb (truthy tx_result) then Ok true
  else if negb (truthy meta) then Ok true
  else err ← py_get meta "err" JNull; Ok (truthy err).

(** [format_transaction_notification]. The call to
    [get_token_accounts_by_owner] sits in a [try] that swallows every
    exception and its result is not read again, so it leaves no mark on the
    value returned. [get_token_prices] is the price lookup. *)
Definition format_transaction_notification
    (get_token_prices : list json → result json)
    (tx_info : json) (wallet_address : string) : result string :=
  signature ← py_getitem tx_info "signature";
  let link := String.append "https://solscan.io/tx/" (fstr signature) in
  tx_result ← py_get tx_info "transaction" (JDict []);
  meta ← py_get tx_info "meta" (JDict []);
  stop ← failed_or_malformed tx_result meta;
  if stop : bool then Ok EmptyString else
  sol_change ← sol_change_of tx_result meta wallet_address;
  pre_token_balances ← token_balances_of meta "preTokenBalances" wallet_address;
  post_token_balances ← token_balances_of meta "postTokenBalances" wallet_address;
  let all_mints := all_mints_of pre_token_balances post_token_balances in
  token_changes ← token_changes_of pre_token_balances post_token_balances all_mints;
  let sol_lines :=
    if fpositive (fabs (Finite sol_change)) then [sol_line sol_change] else [] in
  tok_lines ← match token_changes with
              | [] => Ok []
              | _ :: _ =>
                  prices ← get_token_prices (map fst token_changes);
                  token_lines prices token_changes
              end;
  let lines := sol_lines ++ tok_lines in
  match lines with
  | [] => Ok EmptyString
  | _ :: _ =>
      let header :=
        concat_strings [header_text; " `"; prefix 4 wallet_address; "...";
                        suffix 4 wallet_address; "`"] in
      let tx_link := concat_strings ["["; escaped_text; "]("; link; ")"] in
      Ok (concat_strings [header; newline; newline; join newline lines;
                          newline; newline; tx_link])
  end.

End Formatter.

End Monitoring.

(** ** A runtime to run the model on

    Stand-ins for the library functions, enough to evaluate the model on
    fixtures: a serializer without escapes, decimal literals without
    exponent, and seconds since the epoch in place of a calendar date. *)

Module Sample.

Definition quote : string := String (ascii_of_nat 34) EmptyString.

Fixpoint dumps (v : json) : string :=
  match v with
  | JNull => "null"
  | JBool b => if b then "true" else "false"
  | JInt z => if Z.ltb z 0 then String.append "-" (digits (- z)) else digits z
  | JFloat q =>
      String.append (if Z.ltb (Qnum q) 0 then "-" else EmptyString)
        (String.append (digits (Z.abs (Qnum q)))
           (String.append "/" (digits (Z.pos (Qden q)))))
  | JStr s => String.append quote (String.append s quote)
  | JList l =>
      String.append "["
        (String.append
           ((fix items (l : list json) : string :=
               match l with
               | [] => EmptyString
               | x :: rest => String.append (dumps x) (String.append "," (items rest))
               end) l) "]")
  | JDict kv =>
      String.append "{"
        (String.append
           ((fix items (kv : list (string * json)) : string :=
               match kv with
               | [] => EmptyString
               | (k, x) :: rest =>
                   String.append quote
                     (String.append k
                        (String.append quote
                           (String.append ":"
                              (String.append (dumps x)
                                 (String.append "," (items rest))))))
               end) kv) "}")
  end.

Definition digit_of (c : ascii) : option Z :=
  let n := nat_of_ascii c in
  if Nat.leb 48 n && Nat.leb n 57 then Some (Z.of_nat (n - 48)) else None.

Fixpoint decimal (s : string) (num : Z) (den : positive) (frac seen : bool)
  : option Q :=
  match s with
  | EmptyString => if seen then Some (Qmake num den) else None
  | String c rest =>
      if Ascii.eqb c "."
      then if frac then None else decimal rest num den true seen
      else
        match digit_of c with
        | None => None
        | Some d =>
            decimal rest (10 * num + d) (if frac then (10 * den)%positive else den)
              frac true
        end
  end.

Definition parse_float (s : string) : option pyfloat :=
  match s with
  | String "-" rest => option_map (λ q, Finite (- q)%Q) (decimal rest 0 1 false false)
  | _ => option_map Finite (decimal s 0 1 false false)
  end.

Definition strftime (t : Q) : result string :=
  if Qle_bool 0 t && Qle_bool t (inject_Z 253402300799)
  then Ok (String.append "epoch+" (digits (Qfloor t)))
  else Raise OverflowError.

Definition runtime : Runtime :=
  {| float_of_string := parse_float;
     local_strftime := strftime;
     ujson_dumps := dumps;
     py_repr := dumps |}.

End Sample.

(** ** Statements under test

    Properties worded as the specification words them, to be compared with
    what the model does. *)

Module Claims.

Section Transport.
Import SolanaClient.
Context `{Runtime}.

(** A cached [getTransaction] lookup gives the cached value, posts nothing,
    leaves the request-id counter alone and takes no slot of the
    semaphore. *)
Definition cached_lookup_takes_no_slot (net : nat → http_reply) (params : json)
    (retry_count : nat) (c : client) (cached : json) : Prop :=
  ∃ c' tr,
    _make_request net "getTransaction" params retry_count c
      = (Done (Ok cached), c', tr)
    ∧ request_id c' = request_id c
    ∧ (∀ e, e ∈ tr → is_post e = false)
    ∧ (∀ e, e ∈ tr → is_acquire e = false).

End Transport.

(** The declared type of an instruction: the ["type"] of its ["parsed"]
    dict, when it has one. *)
Definition declared_type (instruction : json) : option json :=
  match instruction with
  | JDict kv =>
      match assoc "parsed" kv with
      | Some (JDict parsed) => assoc "type" parsed
      | _ => None
      end
  | _ => None
  end.

(** An instruction whose declared type is exactly [transfer] or
    [transferChecked]. *)
Definition is_transfer (instruction : json) : bool :=
  match declared_type instruction with
  | Some t => eq_str t "transfer" || eq_str t "transferChecked"
  | None => false
  end.

(** A field of a dict, null when absent or when the value is no dict. *)
Definition field (k : string) (v : json) : json :=
  match v with
  | JDict kv => match assoc k kv with Some x => x | None => JNull end
  | _ => JNull
  end.


(** The instructions that the loop of the normalizer goes through, for a
    response whose result, transaction and message are dicts: none when
    the message has no ["instructions"], else the items of that value when
    it can be iterated. *)
Definition instructions_of (tx_response : json) : option (list json) :=
  match field "message" (field "transaction" (field "result" tx_response)) with
  | JDict message =>
      match assoc "instructions" message with
      | None => Some []
      | Some instructions =>
          match py_iter instructions with
          | Ok items => Some items
          | Raise _ => None
          end
      end
  | _ => None
  end.

(** An instruction that lacks a source or a destination: its
    ["parsed"]["info"] is a dict, or absent, and one of the two fields is
    absent, null or empty. *)
Definition lacks_an_address (instruction : json) : Prop :=
  ∃ kv parsed,
    instruction = JDict kv
    ∧ assoc "parsed" kv = Some (JDict parsed)
    ∧ (assoc "info" parsed = None ∨ ∃ info, assoc "info" parsed = Some (JDict info))
    ∧ (truthy (field "source" (field "info" (JDict parsed))) = false
       ∨ truthy (field "destination" (field "info" (JDict parsed))) = false).

Section Formatter.
Import Monitoring.
Context `{Runtime}.

(** The message that a native change alone gives: the header, the line,
    the link. *)
Definition sol_message (wallet_address : string) (signature : json)
    (line : string) : string :=
  concat_strings
    [concat_strings [header_text; " `"; prefix 4 wallet_address; "...";
                     suffix 4 wallet_address; "`"];
     newline; newline; line; newline; newline;
     concat_strings ["["; escaped_text; "](";
                     String.append "https://solscan.io/tx/" (fstr signature); ")"]].

(** The balance that a list running parallel to the account keys holds
    for an address: the one at the place of the first key equal to it. *)
Fixpoint balance_of (wallet_address : string) (account_keys balances : list json)
  : option json :=
  match account_keys, balances with
  | key :: keys, balance :: rest =>
      if eq_str key wallet_address then Some balance
      else balance_of wallet_address keys rest
  | _, _ => None
  end.


(** The entries of a token-balance list of the meta: none when the meta
    has no such list. *)
Definition token_entries (meta : json) (k : string) : option (list json) :=
  match meta with
  | JDict kv =>
      match assoc k kv with
      | None => Some []
      | Some (JList entries) => Some entries
      | Some _ => None
      end
  | _ => None
  end.

(** An entry of a token-balance list that names the address as owner. *)
Definition owned_by (wallet_address : string) (entry : json) : bool :=
  eq_str (field "owner" entry) wallet_address.

(** The amount of an entry as the provider writes it: the
    ["uiAmountString"] of its ["uiTokenAmount"], ["0"] when either is
    absent. *)
Definition amount_string (entry : json) : option json :=
  match entry with
  | JDict kv =>
      match assoc "uiTokenAmount" kv with
      | None => Some (JStr "0")
      | Some (JDict ui) =>
          Some (match assoc "uiAmountString" ui with
                | Some s => s
                | None => JStr "0"
                end)
      | Some _ => None
      end
  | _ => None
  end.

(** The token balances of the address in a list: the mint and the amount
    of each entry it owns, in the order of the list. *)
Definition owned_balances (wallet_address : string) (entries : list json)
  : list (json * option json) :=
  map (λ entry, (field "mint" entry, amount_string entry))
    (List.filter (owned_by wallet_address) entries).

(** An entry is a dict; one owned by the address names its mint by a
    string and has an amount that reads as a float. *)
Definition well_formed_entry (wallet_address : string) (entry : json) : Prop :=
  isinstance_dict entry = true
  ∧ (owned_by wallet_address entry = true →
     (∃ mint, field "mint" entry = JStr mint)
     ∧ ∃ s a, amount_string entry = Some s ∧ py_float s = Ok a).

(** Two dicts of balances with the same mints in the same order and the
    same amount for each. *)
Definition same_balances (d d' : pydict) : Prop :=
  Forall2 (λ x y, x.1 = y.1 ∧ amount_string x.2 = amount_string y.2) d d'.

(** A dict of balances keyed by texts, each value an entry with an amount
    that reads. *)
Definition readable (d : pydict) : Prop :=
  Forall (λ x, (∃ mint, x.1 = JStr mint)
               ∧ ∃ s a, amount_string x.2 = Some s ∧ py_float s = Ok a) d.

End Formatter.

Section Discovery.
Import SolanaHelpers.

(** A descriptor whose confirmation time lies in [[start_ts, end_ts]]. *)
Definition confirmed_within (start_ts end_ts : Z) (sig_info : SigInfo) : bool :=
  match blockTime sig_info with
  | Some t => Z.leb start_ts t && Z.leb t end_ts
  | None => false
  end.

(** [b] is not confirmed after [a], as far as their times are known. *)
Definition not_newer (a b : SigInfo) : bool :=
  match blockTime a, blockTime b with
  | Some ta, Some tb => Z.leb tb ta
  | _, _ => true
  end.

(** A history held newest first. *)
Fixpoint newest_first (history : list SigInfo) : bool :=
  match history with
  | [] => true
  | a :: rest => forallb (not_newer a) rest && newest_first rest
  end.

(** Signatures that are non-empty and pairwise distinct, so that a
    signature is a cursor into the history. *)
Fixpoint distinct_signatures (history : list SigInfo) : bool :=
  match history with
  | [] => true
  | a :: rest =>
      negb (String.eqb (signature a) EmptyString)
      && forallb (λ b, negb (String.eqb (signature b) (signature a))) rest
      && distinct_signatures rest
  end.

(** The cursor that [scanned], the part of the history already served,
    leaves behind. *)
Definition cursor_at (scanned : list SigInfo) (before : option string) : Prop :=
  match before with
  | None => scanned = []
  | Some sig => ∃ init oldest, scanned = init ++ [oldest] ∧ sig = signature oldest
  end.

(** No confirmation time is 0. *)
Definition no_zero_time (history : list SigInfo) : bool :=
  forallb (λ s, match blockTime s with Some 0 => false | _ => true end) history.

(** Date-range discovery over a served history gives exactly the
    descriptors confirmed within the range. *)
Definition date_range_exact (history : list SigInfo) (start_ts end_ts : Z) : Prop :=
  discover_signatures (history_rpc history) (Some 100) None None
    (Some start_ts) (Some end_ts)
  = Some (Ok (List.filter (confirmed_within start_ts end_ts) history)).

(** A descriptor confirmed before [start_ts]. *)
Definition predates (start_ts : Z) (sig_info : SigInfo) : bool :=
  match blockTime sig_info with
  | Some t => Z.ltb t start_ts
  | None => false
  end.

(** The pages that the date-range scan asks for when [rest] of the
    history is still to come and [budget] pages are left before the cap:
    it asks for a page and stops when the page is empty, when its oldest
    descriptor predates [start_ts] or when it is shorter than 1000;
    otherwise it goes on with what follows the page. *)
Fixpoint pages_asked (budget : nat) (start_ts : Z) (rest : list SigInfo) : nat :=
  match budget with
  | O => O
  | S budget' =>
      match last (take PAGE rest) with
      | None => 1
      | Some oldest =>
          if predates start_ts oldest || Nat.ltb (length (take PAGE rest)) PAGE
          then 1
          else S (pages_asked budget' start_ts (drop PAGE rest))
      end
  end.

(** A provider that serves the history for its first [n] requests and
    answers as [after] from then on. *)
Definition served_until (n : nat) (history : list SigInfo) (after : signatures_rpc)
  : signatures_rpc :=
  λ call limit before,
    if Nat.ltb call n then history_rpc history call limit before
    else after call limit before.

(** A descriptor within the bounds that count: a bound that is absent or 0
    does not. *)
Definition within_bounds (start_block end_block : option Z) (s : SigInfo) : Prop :=
  (bound_truthy end_block = true → slot s ≤ bound_value end_block)
  ∧ (bound_truthy start_block = true → bound_value start_block ≤ slot s).

(** The incremental scan finds nothing new: the newest signature of the
    first page is the marker, the history is empty, the first page comes
    back as an error, an exception ends the scan, or, in general, the scan
    ends with no signature collected. *)
Inductive nothing_new (rpc : signatures_rpc) (last_signature : option string) : Prop :=
| first_is_marker reply s rest :
    rpc O (Some 1000) None = Ok reply →
    has_error reply = false →
    sig_result reply = Some (s :: rest) →
    last_signature = Some (signature s) →
    nothing_new rpc last_signature
| history_is_empty reply :
    rpc O (Some 1000) None = Ok reply →
    sig_result reply = None ∨ sig_result reply = Some [] →
    nothing_new rpc last_signature
| first_page_errors reply :
    rpc O (Some 1000) None = Ok reply →
    has_error reply = true →
    nothing_new rpc last_signature
| scan_raises e :
    since_marker_scan rpc last_signature = Raise e →
    nothing_new rpc last_signature
| nothing_collected newest :
    since_marker_scan rpc last_signature = Ok ([], newest) →
    nothing_new rpc last_signature.

End Discovery.

End Claims.

(** ** Fixtures *)

Module Fixtures.
Import SolanaClient SolanaHelpers.

(** A client whose cache holds the reply for one signature. *)
Definition cached_params : json := get_transaction_params "sig1" "jsonParsed".
Definition cached_reply : json := JDict [("result", JStr "cached_data")].
Definition warm_client : client :=
  cache_store init (cache_key (H := Sample.runtime) "getTransaction" cached_params)
    cached_reply.

(** Ten descriptors, of which the third, the sixth and the eighth never
    fetch. *)
Definition descriptor (n : Z) : SigInfo :=
  {| signature := String.append "sig" (digits n); slot := 100 - n;
     blockTime := Some (1700000000 - n) |}.

Definition ten_descriptors : list SigInfo :=
  map descriptor [0; 1; 2; 3; 4; 5; 6; 7; 8; 9].

Definition body_of (signature : string) : json :=
  JDict [("result", JDict [("slot", JInt 1); ("id", JStr signature)])].

Definition flaky_rpc : transaction_rpc :=
  λ i signature attempt,
    if Nat.eqb i 2 || Nat.eqb i 5 || Nat.eqb i 7
    then Raise ClientError
    else Ok (body_of signature).

(** A history of [n] descriptors, newest first, one second and one slot
    apart, the oldest confirmed at [1700000001] in slot 1. *)
Fixpoint history_from (count : nat) (k : Z) (t : Z) : list SigInfo :=
  match count with
  | O => []
  | S count' =>
      {| signature := String.append "sig" (digits k);
         slot := t;
         blockTime := Some (1700000000 + t) |}
        :: history_from count' (k + 1) (t - 1)
  end.

Definition history_of (n : Z) : list SigInfo :=
  history_from (Z.to_nat n) 0 n.

(** One descriptor, confirmed at the epoch. *)
Definition epoch_history : list SigInfo :=
  [{| signature := "genesis"; slot := 0; blockTime := Some 0 |}].

(** The fixture of the tests of the normalizer. *)
Definition SAMPLE_SIG_INFO : SigInfo :=
  {| signature := "dummy_sig_123"; slot := 12345678; blockTime := Some 1672531200 |}.

Definition unsupported_instruction : json :=
  JDict [("parsed", JDict [("type", JStr "unsupported_type"); ("info", JDict [])])].

Definition transfer_checked_instruction : json :=
  JDict [("parsed",
          JDict [("type", JStr "transferChecked");
                 ("info",
                  JDict [("source", JStr "SourceWallet");
                         ("destination", JStr "DestinationWallet");
                         ("authority", JStr "AuthorityWallet");
                         ("tokenAmount", JDict [("uiAmountString", JStr "123.45")])])]);
         ("program", JStr "spl-token")].

(** A transfer that names no destination. *)
Definition one_sided_instruction : json :=
  JDict [("parsed",
          JDict [("type", JStr "transfer");
                 ("info", JDict [("source", JStr "SourceWallet");
                                 ("lamports", JInt 5000)])])].

Definition response_with (instructions : list json) : json :=
  JDict [("jsonrpc", JStr "2.0");
         ("result",
          JDict [("blockTime", JInt 1672531200);
                 ("slot", JInt 12345678);
                 ("transaction",
                  JDict [("message", JDict [("instructions", JList instructions)])])]);
         ("id", JInt 1)].

Definition SAMPLE_TX_RESPONSE : json :=
  response_with [transfer_checked_instruction; unsupported_instruction].








Definition sample_row : TransferRecord :=
  {| tr_type := JStr "transferChecked";
     tr_wallet_1 := JStr "SourceWallet";
     tr_wallet_2 := JStr "DestinationWallet";
     tr_amount := JStr "123.45";
     tr_authority := JStr "AuthorityWallet";
     tr_timestamp := "epoch+1672531200";
     tr_signature := "dummy_sig_123";
     tr_block_number := JInt 12345678;
     tr_link := "https://solscan.io/tx/dummy_sig_123" |}.

(** The fixtures of the tests of the formatter. *)
Definition sol_meta : json :=
  JDict [("err", JNull);
         ("preBalances", JList [JInt 10000000000; JInt 5000000000]);
         ("postBalances", JList [JInt 9000000000; JInt 6000000000]);
         ("preTokenBalances", JList []);
         ("postTokenBalances", JList [])].

Definition sol_transaction : json :=
  JDict [("message",
          JDict [("accountKeys", JList [JStr "my_wallet"; JStr "other_wallet"])])].

Definition sol_tx_fields : list (string * json) :=
  [("meta", sol_meta); ("transaction", sol_transaction);
   ("signature", JStr "sol_sig_123")].

Definition SAMPLE_TX_INFO_SOL : json := JDict sol_tx_fields.

Definition token_balance (owner amount : string) : json :=
  JDict [("mint", JStr "USDC_mint"); ("owner", JStr owner);
         ("uiTokenAmount", JDict [("uiAmountString", JStr amount)])].

Definition token_tx_info (pre post : list json) : json :=
  JDict [("meta",
          JDict [("err", JNull);
                 ("preBalances", JList [JInt 10000000000]);
                 ("postBalances", JList [JInt 10000000000]);
                 ("preTokenBalances", JList pre);
                 ("postTokenBalances", JList post)]);
         ("transaction",
          JDict [("message", JDict [("accountKeys", JList [JStr "my_wallet"])])]);
         ("signature", JStr "token_sig_456")].

Definition SAMPLE_TX_INFO_TOKEN : json :=
  token_tx_info [token_balance "my_wallet" "100.0"] [token_balance "my_wallet" "50.0"].

(** The balance of the wallet stays at 100 while that of another owner
    goes from 7 to 9. *)
Definition tx_no_change : json :=
  token_tx_info
    [token_balance "my_wallet" "100.0"; token_balance "other_wallet" "7.0"]
    [token_balance "my_wallet" "100.0"; token_balance "other_wallet" "9.0"].

(** A transaction in which the wallet is the second account. *)
Definition second_account_tx (pre post pre_tokens post_tokens : list json)
  : list (string * json) :=
  [("meta",
    JDict [("err", JNull);
           ("preBalances", JList pre);
           ("postBalances", JList post);
           ("preTokenBalances", JList pre_tokens);
           ("postTokenBalances", JList post_tokens)]);
   ("transaction",
    JDict [("message",
            JDict [("accountKeys", JList [JStr "other_wallet"; JStr "my_wallet"])])]);
   ("signature", JStr "sig_789")].


(** The wallet, second account, goes from 10,000,000,000 lamports to
    9,000,000,000; the tokens of the first account change. *)
Definition second_account_outflow : list (string * json) :=
  second_account_tx
    [JInt 5000000000; JInt 10000000000] [JInt 6000000000; JInt 9000000000]
    [token_balance "other_wallet" "7.0"] [token_balance "other_wallet" "9.0"].

Definition no_prices : list json → result json := λ _, Ok (JDict []).
Definition usdc_prices : list json → result json :=
  λ _, Ok (JDict [("USDC_mint", JDict [("symbol", JStr "USDC")])]).

End Fixtures.

(** ** More of the transport: what a trace holds *)

Module TransportTrace.
Import SolanaClient.

(** The request ids of the posts of a trace, in order. *)
Fixpoint post_ids (tr : list event) : list Z :=
  match tr with
  | [] => []
  | Post id _ _ :: tr' => id :: post_ids tr'
  | _ :: tr' => post_ids tr'
  end.

(** The sleeps of a trace, in order. *)
Fixpoint sleeps (tr : list event) : list Z :=
  match tr with
  | [] => []
  | Sleep s :: tr' => s :: sleeps tr'
  | _ :: tr' => sleeps tr'
  end.

(** Events that touch the semaphore. *)
Definition is_slot_event (e : event) : bool :=
  match e with Acquire | Release => true | _ => false end.

(** The backoff of rounds [attempt], [attempt + 1], ...: 1, 2, 4, ... *)
Fixpoint backoff (attempt count : nat) : list Z :=
  match count with
  | O => []
  | S count' => 2 ^ Z.of_nat attempt :: backoff (S attempt) count'
  end.

(** A call that finds no entry in the cache: any method but
    [getTransaction], or a key that is absent. *)
Definition cache_miss `{Runtime} (method : string) (params : json) (c : client) : Prop :=
  String.eqb method "getTransaction" = false
  ∨ transaction_cache c !! cache_key method params = None.

(** A network that answers 429 twice and then succeeds, and one that
    answers 429, a failure and 403. *)
Definition success_body : json := JDict [("result", JStr "success after retry")].

Definition limited_twice : nat → http_reply :=
  λ j, if Nat.ltb j 2 then Status429 else Success success_body.

Definition never_succeeds : nat → http_reply :=
  λ j, match j with O => Status429 | 1%nat => Failure | _ => Status403 end.

Definition account_params : json :=
  JList [JStr "pubkey"; JDict [("encoding", JStr "jsonParsed")]].

End TransportTrace.

(** ** solana_client.py: the constructor *)

Module ClientInit.

Definition DEFAULT_RPC : string := "https://api.mainnet-beta.solana.com".

(** [c.lower()] on an ASCII letter; other bytes stay. The test that uses
    it looks for the ASCII word [alchemy], which no character outside ASCII
    lowers into. *)
Definition lower_ascii (c : ascii) : ascii :=
  let n := nat_of_ascii c in
  if Nat.leb 65 n && Nat.leb n 90 then ascii_of_nat (n + 32) else c.

Fixpoint lower (s : string) : string :=
  match s with
  | EmptyString => EmptyString
  | String c rest => String (lower_ascii c) (lower rest)
  end.

(** [s.split(sep)] for a one-character separator. *)
Fixpoint split (sep : ascii) (s : string) : list string :=
  match s with
  | EmptyString => [EmptyString]
  | String c rest =>
      if Ascii.eqb c sep then EmptyString :: split sep rest
      else
        match split sep rest with
        | [] => [String c EmptyString]
        | segment :: segments => String c segment :: segments
        end
  end.

(** [rpc_url.split('/')[-1]] *)
Definition api_key_of (rpc_url : string) : string :=
  match last (split "/" rpc_url) with
  | Some segment => segment
  | None => EmptyString
  end.

(** [if not rpc_url: rpc_url = ...] *)
Definition rpc_url_of (rpc_url : string) : string :=
  if String.eqb rpc_url EmptyString then DEFAULT_RPC else rpc_url.

Definition base_headers : list (string * string) :=
  [("Content-Type", "application/json"); ("Accept", "application/json")].

(** [self.headers] after [__init__]. The [quiknode] branch adds nothing. *)
Definition headers_of (rpc_url : string) : list (string * string) :=
  let rpc_url := rpc_url_of rpc_url in
  if substring_of "alchemy" (lower rpc_url)
  then
    base_headers
      ++ [("User-Agent", "Mozilla/5.0");
          ("Origin", "https://solana.com");
          ("Referer", "https://solana.com/");
          ("Authorization", String.append "Bearer " (api_key_of rpc_url))]
  else base_headers.

Fixpoint header (name : string) (headers : list (string * string)) : option string :=
  match headers with
  | [] => None
  | (k, v) :: rest => if String.eqb name k then Some v else header name rest
  end.

(** A string that has the character [c]. *)
Fixpoint has_char (c : ascii) (s : string) : bool :=
  match s with
  | EmptyString => false
  | String a rest => Ascii.eqb a c || has_char c rest
  end.

(** A string that is empty or ends in [c]. *)
Fixpoint empty_or_ends_in (c : ascii) (s : string) : bool :=
  match s with
  | EmptyString => true
  | String a EmptyString => Ascii.eqb a c
  | String _ rest => empty_or_ends_in c rest
  end.

End ClientInit.

(** ** monitoring.py: the address of the stream *)

Module MonitorUrl.

(** [s.replace(old, new)] for a non-empty [old]: the occurrences of [old]
    are taken from the left and do not overlap. [skip] counts the
    characters of an occurrence still to pass over. *)
Fixpoint replace_from (old new : string) (skip : nat) (s : string) : string :=
  match s with
  | EmptyString => EmptyString
  | String c rest =>
      match skip with
      | S skip' => replace_from old new skip' rest
      | O =>
          if String.prefix old s
          then String.append new (replace_from old new (String.length old - 1) rest)
          else String c (replace_from old new 0 rest)
      end
  end.

Definition replace (old new s : string) : string := replace_from old new 0 s.

(** [ws_url = rpc_url.replace("https", "wss").replace("http", "ws")] *)
Definition ws_url_of (rpc_url : string) : string :=
  replace "http" "ws" (replace "https" "wss" rpc_url).

(** [old] occurs somewhere in [s]. *)
Fixpoint occurs (old s : string) : bool :=
  String.prefix old s
  || match s with
     | EmptyString => false
     | String _ rest => occurs old rest
     end.

End MonitorUrl.

(** ** solana_helpers.py: the price lookup *)

Module Prices.

(** What one [client.get] of the price API comes to: a response that
    [raise_for_status] lets through, with its decoded body; a response for
    which it raises [HTTPStatusError], with its status code; or any other
    exception (connection, timeout, a body that does not decode). *)
Inductive price_reply : Type :=
| Good (data : json)
| BadStatus (status_code : Z)
| Broken.

Definition PRICE_MAX_RETRIES : nat := 3.
Definition PLACEHOLDER_KEY : string := "YOUR_API_KEY_HERE".

(** What the [try] block makes of a decoded body: a price entry, [None]
    for a valid "not found", or an exception. *)
Definition price_of_data (data : json) : result (option json) :=
  success ← py_get data "success" JNull;
  if truthy success then
    present ← py_contains "data" data;
    if present : bool then
      inner ← py_get data "data" JNull;
      if truthy inner then
        inner' ← py_getitem data "data";
        price_value ← py_get inner' "value" JNull;
        match price_value with
        | JNull => Ok None
        | _ => Ok (Some (JDict [("value", price_value)]))
        end
      else Ok None
    else Ok None
  else Ok None.

(** The rounds of [for attempt in range(MAX_RETRIES)] in
    [_fetch_one_price] from [attempt] on: the price entry or [None], the
    number of requests made and the sleeps, in order. *)
Fixpoint price_attempts (reply : nat → price_reply) (remaining attempt : nat)
    (delay : Z) : option json * nat * list Z :=
  match remaining with
  | O => (None, O, [])
  | S remaining' =>
      let retry :=
        if Nat.ltb attempt (PRICE_MAX_RETRIES - 1)
        then
          let '(p, requests, slept) :=
            price_attempts reply remaining' (S attempt) (delay * 2) in
          (p, S requests, delay :: slept)
        else
          let '(p, requests, slept) :=
            price_attempts reply remaining' (S attempt) delay in
          (p, S requests, slept) in
      match reply attempt with
      | Good data =>
          match price_of_data data with
          | Ok price_info => (price_info, 1%nat, [])
          | Raise _ => retry
          end
      | BadStatus status_code =>
          if Z.eqb status_code 404 then (None, 1%nat, []) else retry
      | Broken => retry
      end
  end.

Definition _fetch_one_price (reply : nat → price_reply) : option json * nat * list Z :=
  price_attempts reply PRICE_MAX_RETRIES 0 1.

(** [not api_key or api_key == "YOUR_API_KEY_HERE"] *)
Definition key_missing (api_key : option string) : bool :=
  match api_key with
  | None => true
  | Some k => String.eqb k EmptyString || String.eqb k PLACEHOLDER_KEY
  end.

(** [for address, price_info in results: if price_info:
    formatted_prices[address] = price_info] *)
Fixpoint formatted_prices (results : list (string * (option json * nat * list Z)))
  : list (string * json) :=
  match results with
  | [] => []
  | (address, (price_info, _, _)) :: rest =>
      match price_info with
      | Some p =>
          if truthy p then (address, p) :: formatted_prices rest
          else formatted_prices rest
      | None => formatted_prices rest
      end
  end.

(** [get_token_prices]: the dict returned, and for every address looked up
    the number of requests made and the sleeps. [replies address] are the
    replies to the requests for [address]. [list(set(...))] has no order of
    its own; the addresses are taken here in the order of [remove_dups].
    The semaphore of ten slots bounds how many lookups run at a time and
    has no part in what they return. *)
Definition get_token_prices (replies : string → nat → price_reply)
    (token_addresses : list string) (api_key : option string)
  : list (string * json) * list (string * nat * list Z) :=
  match token_addresses with
  | [] => ([], [])
  | _ :: _ =>
      if key_missing api_key then ([], [])
      else
        let unique_addresses := remove_dups token_addresses in
        let results :=
          map (λ address, (address, _fetch_one_price (replies address)))
            unique_addresses in
        (formatted_prices results,
         map (λ '(address, (_, requests, slept)), (address, requests, slept)) results)
  end.

(** A reply after which [_fetch_one_price] goes on to the next round. *)
Definition retried (r : price_reply) : bool :=
  match r with
  | Good data => match price_of_data data with Ok _ => false | Raise _ => true end
  | BadStatus status_code => negb (Z.eqb status_code 404)
  | Broken => true
  end.

(** The first of the three rounds whose reply is not retried. *)
Definition first_final (reply : nat → price_reply) : option nat :=
  if negb (retried (reply 0%nat)) then Some 0%nat
  else if negb (retried (reply 1%nat)) then Some 1%nat
  else if negb (retried (reply 2%nat)) then Some 2%nat
  else None.

(** What a reply that ends the rounds gives. *)
Definition final_price (r : price_reply) : option json :=
  match r with
  | Good data => match price_of_data data with Ok p => p | Raise _ => None end
  | _ => None
  end.

(** Replies for the fixtures: a price for [USDC], an unknown token, a
    server that is down. *)
Definition price_body (v : json) : json :=
  JDict [("success", JBool true); ("data", JDict [("value", v)])].

Definition sample_replies : string → nat → price_reply :=
  λ address attempt,
    if String.eqb address "USDC" then
      match attempt with
      | O => BadStatus 503
      | _ => Good (price_body (JFloat (Qmake 1501 10)))
      end
    else if String.eqb address "UNKNOWN" then
      match attempt with
      | O => Broken
      | _ => BadStatus 404
      end
    else BadStatus 500.

End Prices.

(** ** solana_helpers.py: token details *)

Module TokenDetails.

(** The first [if] of [get_token_details]: the entries it adds to
    [details]. Once [supply_value.get] has worked for ["supply"] it works
    for ["decimals"], so the two entries come together or not at all. *)
Definition supply_entries (supply_res : json) : result (list (string * json)) :=
  if truthy supply_res then
    r ← py_get supply_res "result" JNull;
    if truthy r then
      r' ← py_getitem supply_res "result";
      supply_value ← py_getitem r' "value";
      amount ← py_get supply_value "amount" JNull;
      supply ← py_get supply_value "uiAmountString" amount;
      decimals ← py_get supply_value "decimals" JNull;
      Ok [("supply", supply); ("decimals", decimals)]
    else Ok []
  else Ok [].

(** The second [if]: the entries for the authorities. *)
Definition authority_entries (info_res : json) : result (list (string * json)) :=
  if truthy info_res then
    r ← py_get info_res "result" JNull;
    if truthy r then
      r' ← py_getitem info_res "result";
      value ← py_get r' "value" JNull;
      if truthy value then
        r'' ← py_getitem info_res "result";
        value' ← py_getitem r'' "value";
        data ← py_get value' "data" (JDict []);
        parsed_data ← py_get data "parsed" (JDict []);
        if truthy parsed_data then
          type ← py_get parsed_data "type" JNull;
          if eq_str type "mint" then
            parsed_info ← py_get parsed_data "info" (JDict []);
            mint_authority ← py_get parsed_info "mintAuthority" JNull;
            freeze ← py_get parsed_info "freezeAuthority" JNull;
            if truthy freeze then
              freeze' ← py_get parsed_info "freezeAuthority" JNull;
              Ok [("mint_authority", mint_authority); ("freeze_authority", freeze')]
            else Ok [("mint_authority", mint_authority)]
          else Ok []
        else Ok []
      else Ok []
    else Ok []
  else Ok [].

(** [get_token_details], given what [get_token_supply] and
    [get_account_info] come to. An exception anywhere under the [try] is
    logged and [details], as filled so far, is returned; the second request
    is made only if nothing has raised before it. *)
Definition get_token_details (supply_res info_res : result json)
  : list (string * json) :=
  match supply_res with
  | Raise _ => []
  | Ok supply =>
      match supply_entries supply with
      | Raise _ => []
      | Ok details =>
          match info_res with
          | Raise _ => details
          | Ok info =>
              match authority_entries info with
              | Raise _ => details
              | Ok more => details ++ more
              end
          end
      end
  end.

(** The fixtures of the tests, and an account whose data is not parsed. *)
Definition supply_reply : json :=
  JDict [("result",
          JDict [("value", JDict [("uiAmountString", JStr "1000000");
                                  ("decimals", JInt 6)])])].

Definition mint_reply : json :=
  JDict [("result",
          JDict [("value",
                  JDict [("data",
                          JDict [("parsed",
                                  JDict [("type", JStr "mint");
                                         ("info",
                                          JDict [("mintAuthority", JStr "AuthAddress");
                                                 ("freezeAuthority",
                                                  JStr "FreezeAddress")])])])])])].

Definition raw_account_reply : json :=
  JDict [("result",
          JDict [("value", JDict [("data", JList [JStr "AAAA"; JStr "base64"])])])].

End TokenDetails.

(** ** solana_helpers.py: histories and replies for the scans *)

Module Scan.
Import SolanaHelpers.

(** A history whose slots do not grow from one descriptor to the next, as
    a provider that serves the newest transaction first holds it. *)
Fixpoint slots_descending (history : list SigInfo) : bool :=
  match history with
  | [] => true
  | a :: rest =>
      forallb (λ b, Z.leb (slot b) (slot a)) rest && slots_descending rest
  end.

(** A descriptor between the bounds that count. *)
Definition in_block_range (start_block end_block : option Z) (s : SigInfo) : bool :=
  (negb (bound_truthy end_block) || Z.leb (slot s) (bound_value end_block))
  && (negb (bound_truthy start_block) || Z.leb (bound_value start_block) (slot s)).

(** The signature of the newest descriptor of a history. *)
Definition newest_of (history : list SigInfo) : option string :=
  option_map signature (head history).

(** A descriptor that carries the marker. *)
Definition carries (last_signature : option string) (s : SigInfo) : Prop :=
  last_signature = Some (signature s).

(** A reply whose confirmation time is no number:
    [datetime.fromtimestamp] raises on it. *)
Definition unreadable_time_response : json :=
  JDict [("jsonrpc", JStr "2.0");
         ("result", JDict [("blockTime", JStr "soon"); ("slot", JInt 7)]);
         ("id", JInt 1)].

Definition transfer_reply : json :=
  Fixtures.response_with [Fixtures.transfer_checked_instruction].

(** A provider whose reply for the second descriptor cannot be read. *)
Definition one_unreadable : transaction_rpc :=
  λ i _ _, if Nat.eqb i 1 then Ok unreadable_time_response else Ok transfer_reply.

(** A provider that never delivers the second descriptor. *)
Definition one_unfetched : transaction_rpc :=
  λ i _ _, if Nat.eqb i 1 then Raise ClientError else Ok transfer_reply.

(** The row of [transfer_reply] for the descriptor of a signature. *)
Definition row_for (signature : string) : TransferRecord :=
  {| tr_type := JStr "transferChecked";
     tr_wallet_1 := JStr "SourceWallet";
     tr_wallet_2 := JStr "DestinationWallet";
     tr_amount := JStr "123.45";
     tr_authority := JStr "AuthorityWallet";
     tr_timestamp := "epoch+1672531200";
     tr_signature := signature;
     tr_block_number := JInt 12345678;
     tr_link := String.append "https://solscan.io/tx/" signature |}.

End Scan.

(** ** Calls by position and keyword *)

Module Calls.

(** A parameter of a [def]: its name and its default, if it has one. The
    functions at hand take no variadic parameter. *)
Record parameter : Type := {
  p_name : string;
  p_default : option json;
}.

Definition required (name : string) : parameter :=
  {| p_name := name; p_default := None |}.

Definition optional (name : string) (default : json) : parameter :=
  {| p_name := name; p_default := Some default |}.

(** The positional arguments fill the parameters in order; one more than
    there are parameters is a [TypeError]. Gives the bindings and the
    parameters left. *)
Fixpoint bind_positional (parameters : list parameter) (args : list json)
  : result (list (string * json) * list parameter) :=
  match args, parameters with
  | [], _ => Ok ([], parameters)
  | _ :: _, [] => Raise TypeError
  | a :: args', p :: parameters' =>
      '(bound, rest) ← bind_positional parameters' args';
      Ok ((p_name p, a) :: bound, rest)
  end.

(** The parameters left take their keyword, else their default; one with
    neither is a [TypeError]. *)
Fixpoint bind_remaining (rest : list parameter) (kwargs : list (string * json))
  : result (list (string * json)) :=
  match rest with
  | [] => Ok []
  | p :: rest' =>
      v ← match assoc (p_name p) kwargs with
          | Some v => Ok v
          | None =>
              match p_default p with
              | Some d => Ok d
              | None => Raise TypeError
              end
          end;
      more ← bind_remaining rest' kwargs;
      Ok ((p_name p, v) :: more)
  end.

(** A call of [f] with positional and keyword arguments, up to the body of
    [f]: a keyword that names no parameter, or one already filled by
    position, is a [TypeError]. *)
Definition bind_arguments (parameters : list parameter) (args : list json)
    (kwargs : list (string * json)) : result (list (string * json)) :=
  '(bound, rest) ← bind_positional parameters args;
  if forallb (λ k, existsb (λ p, String.eqb (p_name p) k) rest) (map fst kwargs)
  then
    more ← bind_remaining rest kwargs;
    Ok (bound ++ more)
  else Raise TypeError.

(** [async def get_token_prices(token_addresses, api_key)] of
    solana_helpers.py *)
Definition get_token_prices_parameters : list parameter :=
  [required "token_addresses"; required "api_key"].

(** [async def get_transaction(self, signature, encoding="jsonParsed")] of
    solana_client.py, [self] being bound by the attribute lookup *)
Definition get_transaction_parameters : list parameter :=
  [required "signature"; optional "encoding" (JStr "jsonParsed")].

End Calls.

(** ** monitoring.py: the monitoring task *)

Module MonitorTask.
Import Calls Monitoring.

(** [get_token_prices([tc['mint'] for tc in token_changes])] as
    [format_transaction_notification] calls the function it imports from
    solana_helpers.py: the arguments are bound to its parameters, then its
    body, [body], runs. *)
Definition get_token_prices_as_called (body : list (string * json) → result json)
    (token_addresses : list json) : result json :=
  bound ← bind_arguments get_token_prices_parameters [JList token_addresses] [];
  body bound.

(** What ends a coroutine early: [asyncio.CancelledError], which is no
    [Exception], or an exception of the value layer. *)
Inductive raised : Type :=
| CancelledError
| Exception (e : exn).

(** How a run of the task stands: ended by an exception, or still going
    when the rounds it was given are over. *)
Inductive halt : Type :=
| Raised (r : raised)
| Unfinished.

(** What the task does that can be seen from outside, in order: it enters
    and leaves the [async with] of a client, calls a method of the client,
    sleeps, sends a message to the chat. *)
Inductive event : Type :=
| Entered
| Exited
| Called (method : string) (args : list json)
| Slept (seconds : Z)
| Sent (chat_id : Z) (text : string).

(** The class of the client: the names an instance answers to, and the
    parameters of its [get_transaction]. *)
Record client_class : Type := {
  attributes : list string;
  transaction_parameters : list parameter;
}.

(** The class of solana_client.py: the attributes set by [__init__] and
    the methods, the special ones apart. *)
Definition AsyncCustomSolanaClient : client_class :=
  {| attributes :=
       ["rpc_url"; "headers"; "request_id"; "session"; "timeout"; "semaphore";
        "transaction_cache"; "_make_request"; "get_signatures_for_address";
        "get_transaction"; "get_token_accounts_by_owner"; "get_token_supply";
        "get_account_info"];
     transaction_parameters := get_transaction_parameters |}.

(** What lies outside the task, asked by the number of events so far: what
    a call of a method that exists comes to, and whether leaving the
    client, a sleep or a send is cut short. *)
Record world : Type := {
  method_result : nat → string → list json → raised + json;
  exit_result : nat → option raised;
  sleep_result : nat → option raised;
  send_result : nat → option raised;
}.

(** A step of the task: from the events so far to a value or a halt, and
    the events after it. *)
Definition task (A : Type) : Type := list event → (halt + A) * list event.

#[global] Instance task_ret : MRet task := λ A a tr, (inr a, tr).
#[global] Instance task_bind : MBind task :=
  λ A B f m tr,
    match m tr with
    | (inr a, tr') => f a tr'
    | (inl h, tr') => (inl h, tr')
    end.

Definition raise {A} (e : exn) : task A := λ tr, (inl (Raised (Exception e)), tr).

Definition lift {A} (r : result A) : task A :=
  match r with
  | Ok a => mret a
  | Raise e => raise e
  end.

Definition ended (r : option raised) : halt + () :=
  match r with
  | Some x => inl (Raised x)
  | None => inr ()
  end.

(** What the pending [break], exception or nothing comes to once the
    [finally] is through. *)
Inductive pending : Type :=
| Break
| Propagate (r : raised)
| Continue.

Section Task.
Context `{Runtime}.
Variables (cls : client_class) (w : world)
          (prices_body : list (string * json) → result json)
          (chat_id : Z) (address rpc_url : string).

Definition has_attribute (name : string) : bool :=
  existsb (String.eqb name) (attributes cls).

(** [client.method(args)] *)
Definition call (method : string) (args : list json) : task json :=
  if has_attribute method then
    λ tr,
      (match method_result w (length tr) method args with
       | inl r => inl (Raised r)
       | inr v => inr v
       end, tr ++ [Called method args])
  else raise AttributeError.

(** [await asyncio.sleep(seconds)] *)
Definition sleep (seconds : Z) : task () :=
  λ tr, (ended (sleep_result w (length tr)), tr ++ [Slept seconds]).

(** [await application.bot.send_message(chat_id, text, ...)] *)
Definition send_message (text : string) : task () :=
  λ tr, (ended (send_result w (length tr)), tr ++ [Sent chat_id text]).

(** [client.get_transaction(signature, max_supported_transaction_version=0)] *)
Definition get_transaction (signature : json) : task json :=
  if has_attribute "get_transaction" then
    bound ← lift (bind_arguments (transaction_parameters cls) [signature]
                    [("max_supported_transaction_version", JInt 0)]);
    call "get_transaction" (map snd bound)
  else raise AttributeError.

(** [message and 'params' in message and 'result' in message['params']] *)
Definition wanted (message : json) : result bool :=
  if truthy message then
    has_params ← py_contains "params" message;
    if has_params : bool then
      params ← py_getitem message "params";
      py_contains "result" params
    else Ok false
  else Ok false.

(** [tx_info_res and tx_info_res.get('result')] *)
Definition fetched (tx_info_res : json) : result bool :=
  if truthy tx_info_res then
    r ← py_get tx_info_res "result" JNull;
    Ok (truthy r)
  else Ok false.

(** The body of the inner [while True], after [ws_recv]. *)
Definition on_message (message : json) : task () :=
  go ← lift (wanted message);
  if go : bool then
    signature ← lift (params ← py_getitem message "params";
                      result ← py_getitem params "result";
                      value ← py_getitem result "value";
                      py_getitem value "signature");
    sleep 2;;
    tx_info_res ← get_transaction signature;
    ok ← lift (fetched tx_info_res);
    if ok : bool then
      tx_info ← lift (py_getitem tx_info_res "result");
      notification_msg ←
        lift (format_transaction_notification
                (get_token_prices_as_called prices_body) tx_info address);
      if negb (String.eqb notification_msg EmptyString)
      then send_message notification_msg
      else mret ()
    else mret ()
  else mret ().

(** The inner [while True]: [messages] rounds of it. *)
Fixpoint receive (messages : nat) : task () :=
  match messages with
  | O => λ tr, (inl Unfinished, tr)
  | S messages' =>
      message ← call "ws_recv" [];
      on_message message;;
      receive messages'
  end.

(** The [async with] under the [try]. Building the client and entering
    it are taken not to raise; [__aexit__] closes the session and lets the
    exception through. *)
Definition connection (messages : nat) : task () :=
  λ tr,
    let '(r, tr') :=
      (call "ws_connect" [JStr (MonitorUrl.ws_url_of rpc_url)];;
       call "logs_subscribe" [JStr address];;
       receive messages) (tr ++ [Entered]) in
    match r with
    | inl Unfinished => (inl Unfinished, tr')
    | _ =>
        (match exit_result w (length tr') with
         | Some x => inl (Raised x)
         | None => r
         end, tr' ++ [Exited])
    end.

(** The [finally]: ['client' in locals()] holds once the [async with] has
    bound [client]. *)
Definition finally : task () :=
  connected ← call "ws_is_connected" [];
  if truthy connected then call "ws_close" [];; mret () else mret ().

(** The outer [while True]: [rounds] rounds of it. *)
Fixpoint reconnect (rounds messages : nat) : task () :=
  match rounds with
  | O => λ tr, (inl Unfinished, tr)
  | S rounds' =>
      λ tr,
        match connection messages tr with
        | (inl Unfinished, tr1) => (inl Unfinished, tr1)
        | (r, tr1) =>
            let '(after, tr2) :=
              match r with
              | inl (Raised CancelledError) => (Break, tr1)
              | inl (Raised (Exception _)) =>
                  match sleep 10 tr1 with
                  | (inl (Raised x), tr2) => (Propagate x, tr2)
                  | (_, tr2) => (Continue, tr2)
                  end
              | _ => (Continue, tr1)
              end in
            match finally tr2 with
            | (inl h, tr3) => (inl h, tr3)
            | (inr _, tr3) =>
                match after with
                | Break => (inr (), tr3)
                | Propagate x => (inl (Raised x), tr3)
                | Continue => reconnect rounds' messages tr3
                end
            end
        end
  end.

Definition start_monitoring_task (rounds messages : nat) : (halt + ()) * list event :=
  reconnect rounds messages [].

End Task.

Definition is_sent (e : event) : bool :=
  match e with Sent _ _ => true | _ => false end.

(** A step that adds no [Sent] to the events. *)
Definition sends_nothing {A} (m : task A) : Prop :=
  ∀ tr, Forall (λ e, is_sent e = false) tr →
        Forall (λ e, is_sent e = false) (m tr).2.

(** A world in which every call succeeds with null and nothing is cut
    short. *)
Definition quiet : world :=
  {| method_result := λ _ _ _, inr JNull;
     exit_result := λ _, None;
     sleep_result := λ _, None;
     send_result := λ _, None |}.

(** A class that has the websocket methods besides those of the repository,
    and a world that delivers a log notification for a transaction that
    moves one SOL out of the wallet. *)
Definition with_websocket : client_class :=
  {| attributes :=
       attributes AsyncCustomSolanaClient
       ++ ["ws_connect"; "logs_subscribe"; "ws_recv"; "ws_is_connected"; "ws_close"];
     transaction_parameters := get_transaction_parameters |}.

Definition log_notification : json :=
  JDict [("params",
          JDict [("result",
                  JDict [("value", JDict [("signature", JStr "sol_sig_123")])])])].

Definition delivering : world :=
  {| method_result := λ _ method _,
       if String.eqb method "ws_recv" then inr log_notification
       else if String.eqb method "get_transaction"
       then inr (JDict [("result", Fixtures.SAMPLE_TX_INFO_SOL)])
       else if String.eqb method "ws_is_connected" then inr (JBool true)
       else inr JNull;
     exit_result := λ _, None;
     sleep_result := λ _, None;
     send_result := λ _, None |}.

(** The same class, were its [get_transaction] to take the keyword. *)
Definition with_keyword : client_class :=
  {| attributes := attributes with_websocket;
     transaction_parameters :=
       get_transaction_parameters
       ++ [optional "max_supported_transaction_version" JNull] |}.

End MonitorTask.

(** ** bot_commands.py: long messages *)

Module LongMessage.

Definition MAX_LENGTH : nat := 4096.

Section Text.
(** A text is the list of its characters, whatever a character is; [len]
    counts them. *)
Context {char : Type} `{EqDecision char}.
Variable newline : char.

(** [text.split('\n')]: never empty, the last piece is what follows the
    last newline. *)
Fixpoint split_lines (text : list char) : list (list char) :=
  match text with
  | [] => [[]]
  | c :: rest =>
      if decide (c = newline) then [] :: split_lines rest
      else
        match split_lines rest with
        | line :: lines => (c :: line) :: lines
        | [] => [[c]]
        end
  end.

(** [line + "\n"] *)
Definition with_newline (line : list char) : list char := line ++ [newline].

(** [for line in lines: ...] and the [if message_part:] after it, from
    [message_part] on: the texts handed to [send_message], in order, each
    call taken to return. *)
Fixpoint send_lines (lines : list (list char)) (message_part : list char)
  : list (list char) :=
  match lines with
  | [] =>
      match message_part with
      | [] => []
      | _ :: _ => [message_part]
      end
  | line :: rest =>
      if Nat.ltb MAX_LENGTH (length message_part + length line + 1)
      then message_part :: send_lines rest (line ++ [newline])
      else send_lines rest (message_part ++ line ++ [newline])
  end.

(** [send_long_message]: the texts it sends to the chat, in order. *)
Definition send_long_message (text : list char) : list (list char) :=
  if Nat.leb (length text) MAX_LENGTH then [text]
  else send_lines (split_lines text) [].

End Text.

(** Texts of code points: a hundred lines of fifty letters, and one line
    of five thousand. *)
Definition LF : nat := 10.
Definition hundred_lines : list nat :=
  concat (replicate 100 (replicate 50 97%nat ++ [LF])).
Definition one_long_line : list nat := replicate 5000 97%nat.

End LongMessage.

(** ** solana_client.py: calls that share a client

    The calls of [asyncio.gather] on one client take turns: a call runs
    from one [await] to the next without another call in between, and any
    call that is not waiting may run next. [attempts] above runs the rounds
    of one call with no other call in between; here the calls alternate. *)

Module Interleaving.
Import SolanaClient.

(** Where a call of [_make_request] stands between two steps: before the
    semaphore, waiting for the reply to the post of a round, in the sleep
    after a round, or returned. *)
Inductive stage : Type :=
| Queued
| Posted (attempt : nat)
| Sleeping (attempt : nat)
| Returned (r : result json).

(** A call: its arguments, the replies that the network has for the posts
    of its rounds, and where it stands. *)
Record call : Type := {
  method : string;
  params : json;
  retry_count : nat;
  net : nat → http_reply;
  stage_of : stage;
}.

Definition at_stage (k : call) (s : stage) : call :=
  {| method := method k; params := params k; retry_count := retry_count k;
     net := net k; stage_of := s |}.

Definition queued (method : string) (params : json) (retry_count : nat)
    (net : nat → http_reply) : call :=
  {| method := method; params := params; retry_count := retry_count;
     net := net; stage_of := Queued |}.

(** Leaving [async with self.semaphore]. *)
Definition give_back (c : client) : client := set_semaphore c (S (semaphore c)).

Section Steps.
Context `{Runtime}.

(** The top of round [attempt]: the payload takes the counter and the
    counter goes up, with no [await] between the two, and the call waits for
    the reply; when the rounds are over the call returns. *)
Definition begin_round (k : call) (attempt : nat) (c : client)
  : call * client * list event :=
  if Nat.ltb attempt (retry_count k)
  then (at_stage k (Posted attempt),
        set_request_id c (request_id c + 1),
        [Post (request_id c) (method k) (params k)])
  else (at_stage k (Returned (Ok max_retries_reached)), give_back c, [Release]).

(** One step of a call: from where it stands to its next [await], or to
    its return. A call that finds no free slot, or that has returned, stays
    where it is. *)
Definition resume (k : call) (c : client) : call * client * list event :=
  match stage_of k with
  | Queued =>
      match semaphore c with
      | O => (k, c, [])
      | S free =>
          let held := set_semaphore c free in
          let hit :=
            if String.eqb (method k) "getTransaction"
            then transaction_cache c !! cache_key (method k) (params k)
            else None in
          match hit with
          | Some cached =>
              (at_stage k (Returned (Ok cached)), give_back held, [Acquire; Release])
          | None =>
              let '(k', c', tr) := begin_round k 0 held in
              (k', c', Acquire :: tr)
          end
      end
  | Posted attempt =>
      let except (e : exn) :=
        if Nat.eqb (S attempt) (retry_count k)
        then (at_stage k (Returned (Raise e)), give_back c, [Release])
        else (at_stage k (Sleeping attempt), c, [Sleep (2 ^ Z.of_nat attempt)]) in
      match net k attempt with
      | Status429 => (at_stage k (Sleeping attempt), c, [Sleep (2 ^ Z.of_nat attempt)])
      | Status403 => except auth_failed
      | Failure => except ClientError
      | Success body =>
          let c' :=
            if String.eqb (method k) "getTransaction"
            then cache_store c (cache_key (method k) (params k)) body
            else c in
          (at_stage k (Returned (Ok body)), give_back c', [Release])
      end
  | Sleeping attempt => begin_round k (S attempt) c
  | Returned _ => (k, c, [])
  end.

(** The calls run in the order of [schedule], which names the call that
    takes each step; a name that is no call is passed over. Gives the
    calls, the client and the events of all calls in the order in which
    they happened. *)
Fixpoint run (schedule : list nat) (calls : list call) (c : client)
  : list call * client * list event :=
  match schedule with
  | [] => (calls, c, [])
  | i :: rest =>
      match calls !! i with
      | None => run rest calls c
      | Some k =>
          let '(k', c', tr) := resume k c in
          let '(calls', c'', tr') := run rest (<[i := k']> calls) c' in
          (calls', c'', tr ++ tr')
      end
  end.

(** A call that takes [n] steps with no other call in between. *)
Fixpoint alone (n : nat) (k : call) (c : client) : call * client * list event :=
  match n with
  | O => (k, c, [])
  | S n' =>
      let '(k', c', tr) := resume k c in
      let '(k'', c'', tr') := alone n' k' c' in
      (k'', c'', tr ++ tr')
  end.


End Steps.


(** Two [getTransaction] calls for one signature whose posts are answered
    with different bodies, and a call that is limited once. *)
Definition first_body : json := JDict [("result", JStr "first")].
Definition second_body : json := JDict [("result", JStr "second")].

Definition two_lookups : list call :=
  [queued "getTransaction" Fixtures.cached_params 3 (λ _, Success first_body);
   queued "getTransaction" Fixtures.cached_params 3 (λ _, Success second_body)].

Definition limited_and_plain : list call :=
  [queued "getAccountInfo" TransportTrace.account_params 3
     (λ j, if Nat.eqb j 0 then Status429 else Success first_body);
   queued "getTokenSupply" (JList [JStr "mint"]) 3 (λ _, Success second_body)].

End Interleaving.

(** * Properties *)

(** ** The transport *)

Module SolanaClientFacts.
Import SolanaClient Fixtures.

Section Transport.
Context `{Runtime}.

(** A round answered by 403 that is not the last one sleeps and goes on to
    the next round. *)
Lemma attempts_403_goes_on net method params retry_count remaining attempt c :
  net attempt = Status403 →
  S attempt ≠ retry_count →
  attempts net method params retry_count (S remaining) attempt c =
    let '(r, c2, tr) :=
      attempts net method params retry_count remaining (S attempt)
        (set_request_id c (request_id c + 1)) in
    (r, c2, Post (request_id c) method params :: Sleep (2 ^ Z.of_nat attempt) :: tr).
Proof.
  intros Hnet Hlast. cbn [attempts]. rewrite Hnet.
  destruct (Nat.eqb_spec (S attempt) retry_count) as [Heq | _]; [contradiction | reflexivity].
Qed.

(** A round answered by 403 that is the last one raises. *)
Lemma attempts_403_last net method params retry_count remaining attempt c :
  net attempt = Status403 →
  S attempt = retry_count →
  attempts net method params retry_count (S remaining) attempt c =
    (Raise auth_failed, set_request_id c (request_id c + 1),
     [Post (request_id c) method params]).
Proof.
  intros Hnet Hlast. cbn [attempts]. rewrite Hnet.
  destruct (Nat.eqb_spec (S attempt) retry_count) as [_ | Hne]; [reflexivity | contradiction].
Qed.

(** With two rounds or more, a 403 to the first post is followed by a
    sleep of one second and a second post. *)
Lemma make_request_403_second_post net method params retry_count c free :
  semaphore c = S free →
  String.eqb method "getTransaction" = false →
  net O = Status403 →
  (2 ≤ retry_count)%nat →
  ∃ r c' tr,
    _make_request net method params retry_count c =
      (Done r, c',
       Acquire :: Post (request_id c) method params :: Sleep 1
         :: Post (request_id c + 1) method params :: tr).
Proof.
  intros Hsem Hmethod Hnet Hcount.
  destruct retry_count as [| [| n]]; [lia | lia |].
  unfold _make_request. rewrite Hsem, Hmethod.
  rewrite attempts_403_goes_on by (auto; lia).
  cbn [request_id set_semaphore set_request_id].
  destruct (attempts net method params (S (S n)) (S n) 1
              (set_request_id (set_semaphore c free) (request_id c + 1)))
    as [[r c2] tr] eqn:Hrest.
  assert (∃ tr', tr = Post (request_id c + 1) method params :: tr') as [tr' ->].
  { revert Hrest. cbn [attempts request_id set_request_id set_semaphore].
    destruct (net 1%nat); cbn [Nat.eqb];
      repeat match goal with
             | |- context [if ?b then _ else _] => destruct b
             | |- context [let '(_, _) := ?x in _] => destruct x as [[? ?] ?]
             end;
      intros [= <- <- <-]; eauto. }
  eexists _, _, _. cbn. reflexivity.
Qed.

(** What a cache hit does once a slot is free. *)
Lemma cache_hit_run net params retry_count c free cached :
  semaphore c = S free →
  transaction_cache c !! cache_key "getTransaction" params = Some cached →
  _make_request net "getTransaction" params retry_count c =
    (Done (Ok cached), c, [Acquire; Release]).
Proof.
  intros Hsem Hhit. unfold _make_request. rewrite Hsem. cbn [String.eqb].
  simpl. rewrite Hhit.
  destruct c as [rid sem cache]. cbn in Hsem. subst sem. reflexivity.
Qed.

(** With no slot free the call waits, cache hit or not. *)
Lemma no_slot_waits net method params retry_count c :
  semaphore c = O →
  _make_request net method params retry_count c = (Waiting, c, []).
Proof. intros Hsem. unfold _make_request. now rewrite Hsem. Qed.

(** C2, as amended: a [getTransaction] call whose key is in the cache
    first takes a slot of the semaphore, and waits while none is free; with
    the slot in hand it returns the cached value, posts nothing, leaves the
    request-id counter and the cache as they were, and gives the slot
    back. *)
Theorem cached_lookup_holds_a_slot net params retry_count c cached :
  transaction_cache c !! cache_key "getTransaction" params = Some cached →
  _make_request net "getTransaction" params retry_count c =
    match semaphore c with
    | O => (Waiting, c, [])
    | S _ => (Done (Ok cached), c, [Acquire; Release])
    end.
Proof.
  intros Hhit. destruct (semaphore c) as [| free] eqn:Hsem.
  - now apply no_slot_waits.
  - now apply cache_hit_run with free.
Qed.

(** C1, where the code departs from the claim: three posts answered by 403
    under the default [retry_count] of 3. The first two are each followed
    by a backoff sleep (1 and 2 seconds); only the third raises the
    authentication failure. *)
Theorem auth_failure_is_retried :
  _make_request (λ _, Status403) "getAccountInfo" (JList [JStr "pubkey"]) 3 init =
    (Done (Raise auth_failed),
     set_request_id init 4,
     [Acquire;
      Post 1 "getAccountInfo" (JList [JStr "pubkey"]); Sleep 1;
      Post 2 "getAccountInfo" (JList [JStr "pubkey"]); Sleep 2;
      Post 3 "getAccountInfo" (JList [JStr "pubkey"]);
      Release]).
Proof. reflexivity. Qed.

End Transport.

Lemma cached_lookup_holds_a_slot_witness :
  transaction_cache warm_client
    !! cache_key (H := Sample.runtime) "getTransaction" cached_params
    = Some cached_reply
  ∧ _make_request (H := Sample.runtime) (λ _, Failure) "getTransaction"
      cached_params 3 warm_client
    = (Done (Ok cached_reply), warm_client, [Acquire; Release]).
Proof.
  split.
  - vm_compute. reflexivity.
  - apply (cached_lookup_holds_a_slot (H := Sample.runtime)
             (λ _, Failure) cached_params 3 warm_client cached_reply).
    vm_compute. reflexivity.
Defined.

(** C2, as worded, fails on the warm client: the trace of the cached
    lookup has an [Acquire]. *)
Lemma cached_lookup_takes_a_slot :
  ¬ Claims.cached_lookup_takes_no_slot (H := Sample.runtime)
      (λ _, Failure) cached_params 3 warm_client cached_reply.
Proof.
  intros (c' & tr & Hrun & _ & _ & Hacquire).
  rewrite (cache_hit_run (H := Sample.runtime) _ _ _ warm_client 49 cached_reply)
    in Hrun by (vm_compute; reflexivity).
  injection Hrun as _ <-.
  specialize (Hacquire Acquire ltac:(constructor)). discriminate.
Qed.

End SolanaClientFacts.

(** ** The concurrent fetcher *)

Module FetcherFacts.
Import SolanaHelpers Fixtures.

(** Five failures in a row: null, after sleeps of 1, 2, 4 and 8 seconds. *)
Lemma fetch_with_retry_exhausted (get_transaction : nat → result json) :
  (∀ k, (k < MAX_RETRIES)%nat → ∃ e, get_transaction k = Raise e) →
  _fetch_transaction_with_retry get_transaction = (JNull, [1; 2; 4; 8]).
Proof.
  intros Hfail. unfold _fetch_transaction_with_retry, MAX_RETRIES in *.
  destruct (Hfail 0%nat ltac:(lia)) as [e0 H0].
  destruct (Hfail 1%nat ltac:(lia)) as [e1 H1].
  destruct (Hfail 2%nat ltac:(lia)) as [e2 H2].
  destruct (Hfail 3%nat ltac:(lia)) as [e3 H3].
  destruct (Hfail 4%nat ltac:(lia)) as [e4 H4].
  cbn. rewrite H0; cbn. rewrite H1; cbn. rewrite H2; cbn. rewrite H3; cbn.
  rewrite H4; cbn. reflexivity.
Qed.

(** The first round that succeeds gives the value of the call; the sleeps
    before it are the first of 1, 2, 4, 8. *)
Lemma fetch_with_retry_succeeds (get_transaction : nat → result json) k body :
  (k < MAX_RETRIES)%nat →
  (∀ j, (j < k)%nat → ∃ e, get_transaction j = Raise e) →
  get_transaction k = Ok body →
  _fetch_transaction_with_retry get_transaction = (body, take k [1; 2; 4; 8]).
Proof.
  unfold _fetch_transaction_with_retry, MAX_RETRIES.
  intros Hk Hfail Hok.
  assert (H0 := Hfail 0%nat). assert (H1 := Hfail 1%nat).
  assert (H2 := Hfail 2%nat). assert (H3 := Hfail 3%nat).
  destruct k as [| [| [| [| [| k]]]]]; [| | | | | lia]; cbn.
  - now rewrite Hok.
  - destruct H0 as [? ->]; [lia |]; cbn. now rewrite Hok.
  - destruct H0 as [? ->]; [lia |]; cbn. destruct H1 as [? ->]; [lia |]; cbn.
    now rewrite Hok.
  - destruct H0 as [? ->]; [lia |]; cbn. destruct H1 as [? ->]; [lia |]; cbn.
    destruct H2 as [? ->]; [lia |]; cbn. now rewrite Hok.
  - destruct H0 as [? ->]; [lia |]; cbn. destruct H1 as [? ->]; [lia |]; cbn.
    destruct H2 as [? ->]; [lia |]; cbn. destruct H3 as [? ->]; [lia |]; cbn.
    now rewrite Hok.
Qed.

(** The retry loop always comes to a value: it never raises. *)
Lemma fetch_with_retry_total (get_transaction : nat → result json) :
  ∃ r sleeps, _fetch_transaction_with_retry get_transaction = (r, sleeps)
              ∧ (length sleeps ≤ 4)%nat.
Proof.
  unfold _fetch_transaction_with_retry, MAX_RETRIES. cbn.
  repeat match goal with
         | |- context [match get_transaction ?k with _ => _ end] =>
             destruct (get_transaction k); cbn
         end;
    eexists _, _; (split; [reflexivity | cbn; lia]).
Qed.

Lemma gather_length rpc signatures :
  length (gather_transactions rpc signatures) = length signatures.
Proof. unfold gather_transactions. apply length_imap. Qed.

Lemma gather_lookup rpc signatures i sig :
  signatures !! i = Some sig →
  gather_transactions rpc signatures !! i =
    Some (_fetch_transaction_with_retry (rpc i (signature sig))).
Proof.
  intros Hi. unfold gather_transactions. rewrite list_lookup_imap, Hi. reflexivity.
Qed.

Lemma fetch_batch_lookup rpc signatures i sig :
  signatures !! i = Some sig →
  fetch_batch rpc signatures !! i =
    Some (sig, fst (_fetch_transaction_with_retry (rpc i (signature sig)))).
Proof.
  intros Hi. unfold fetch_batch.
  rewrite lookup_zip_with, Hi. cbn.
  rewrite list_lookup_fmap, (gather_lookup _ _ _ _ Hi). reflexivity.
Qed.

(** C4: the batch has one pair per descriptor, in the order of the
    descriptors; a descriptor whose five attempts all fail is paired with
    null after sleeps of 1, 2, 4 and 8 seconds, and one whose attempt [k]
    is the first to succeed is paired with the body that attempt gave. *)
Theorem fetch_batch_one_pair_each rpc signatures :
  length (fetch_batch rpc signatures) = length signatures
  ∧ (fetch_batch rpc signatures).*1 = signatures
  ∧ ∀ i sig, signatures !! i = Some sig →
      ((∀ k, (k < MAX_RETRIES)%nat → ∃ e, rpc i (signature sig) k = Raise e) →
       fetch_batch rpc signatures !! i = Some (sig, JNull)
       ∧ gather_transactions rpc signatures !! i = Some (JNull, [1; 2; 4; 8]))
      ∧ (∀ k body,
           (k < MAX_RETRIES)%nat →
           (∀ j, (j < k)%nat → ∃ e, rpc i (signature sig) j = Raise e) →
           rpc i (signature sig) k = Ok body →
           fetch_batch rpc signatures !! i = Some (sig, body)).
Proof.
  split; [| split].
  - unfold fetch_batch. rewrite length_zip_with, length_fmap, gather_length. lia.
  - unfold fetch_batch. apply fst_zip. rewrite length_fmap, gather_length. lia.
  - intros i sig Hi. split.
    + intros Hfail.
      rewrite (fetch_batch_lookup _ _ _ _ Hi), (gather_lookup _ _ _ _ Hi).
      now rewrite (fetch_with_retry_exhausted _ Hfail).
    + intros k body Hk Hfail Hok.
      rewrite (fetch_batch_lookup _ _ _ _ Hi).
      now rewrite (fetch_with_retry_succeeds _ k body Hk Hfail Hok).
Qed.

Lemma fetch_batch_one_pair_each_witness :
  ten_descriptors !! 5%nat = Some (descriptor 5)
  ∧ (∀ k, (k < MAX_RETRIES)%nat →
       ∃ e, flaky_rpc 5%nat (signature (descriptor 5)) k = Raise e)
  ∧ fetch_batch flaky_rpc ten_descriptors !! 5%nat = Some (descriptor 5, JNull)
  ∧ gather_transactions flaky_rpc ten_descriptors !! 5%nat = Some (JNull, [1; 2; 4; 8]).
Proof.
  assert (Hi : ten_descriptors !! 5%nat = Some (descriptor 5)) by reflexivity.
  assert (Hfail : ∀ k, (k < MAX_RETRIES)%nat →
            ∃ e, flaky_rpc 5%nat (signature (descriptor 5)) k = Raise e).
  { intros k _. exists ClientError. reflexivity. }
  split; [exact Hi | split; [exact Hfail |]].
  exact (proj1 (proj2 (proj2 (fetch_batch_one_pair_each flaky_rpc ten_descriptors))
                 5%nat (descriptor 5) Hi) Hfail).
Defined.

(** Ten descriptors with three that never fetch: ten pairs in the order of
    the descriptors, seven with a body and three with null. *)
Example ten_descriptors_three_failures :
  fetch_batch flaky_rpc ten_descriptors =
    map (λ n, (descriptor n,
               if Z.eqb n 2 || Z.eqb n 5 || Z.eqb n 7 then JNull
               else body_of (signature (descriptor n))))
      [0; 1; 2; 3; 4; 5; 6; 7; 8; 9].
Proof. vm_compute. reflexivity. Qed.

End FetcherFacts.

(** ** The normalizer *)

Module NormalizerFacts.
Import SolanaHelpers Claims Fixtures.

Section Normalizer.
Context `{Runtime}.

Lemma not_transfer_skipped timestamp slot signature instruction :
  is_transfer instruction = false →
  instruction_step timestamp slot signature instruction = Ok None.
Proof.
  unfold is_transfer, declared_type, instruction_step.
  destruct instruction as [| | | | | | kv]; try reflexivity.
  cbn [isinstance_dict negb py_get mbind result_bind].
  destruct (assoc "parsed" kv) as [[| | | | | | parsed] |]; try reflexivity.
  destruct parsed as [| entry parsed]; [reflexivity |].
  cbn [isinstance_dict truthy negb orb py_get mbind result_bind].
  destruct (assoc "type" (entry :: parsed)) as [t |].
  - unfold transfer_types. cbn [existsb]. rewrite orb_false_r.
    intros ->. reflexivity.
  - reflexivity.
Qed.











End Normalizer.





(** The instruction of the fixtures that names no destination lacks an
    address in the sense above. *)
Example one_sided_lacks_an_address : lacks_an_address one_sided_instruction.
Proof.
  eexists _, _. split; [reflexivity |]. split; [reflexivity |].
  split; [right; eexists; reflexivity |]. right. reflexivity.
Qed.

End NormalizerFacts.

(** ** Signature discovery *)

Module DiscoveryFacts.
Import SolanaHelpers Claims Fixtures.

(** *** Histories and cursors *)

Lemma filter_none {A} (p : A → bool) (l : list A) :
  Forall (λ x, p x = false) l → List.filter p l = [].
Proof.
  induction 1 as [| x l Hx _ IH]; [reflexivity |].
  cbn [List.filter]. now rewrite Hx.
Qed.

Lemma filter_agree {A} (p q : A → bool) (l : list A) :
  Forall (λ x, p x = q x) l → List.filter p l = List.filter q l.
Proof.
  induction 1 as [| x l Hx _ IH]; [reflexivity |].
  cbn [List.filter]. now rewrite Hx, IH.
Qed.

(** Where no confirmation time is 0 the test of the code is the test of
    the claim. *)
Lemma in_date_range_confirmed start_ts end_ts sig_info :
  blockTime sig_info ≠ Some 0 →
  in_date_range start_ts end_ts sig_info = confirmed_within start_ts end_ts sig_info.
Proof.
  unfold in_date_range, confirmed_within, time_truthy, time_value.
  destruct (blockTime sig_info) as [t |]; [| reflexivity].
  intros Hnz. destruct (Z.eqb_spec t 0) as [-> | _]; [now destruct Hnz | reflexivity].
Qed.

Lemma distinct_signatures_suffix l1 l2 :
  distinct_signatures (l1 ++ l2) = true → distinct_signatures l2 = true.
Proof.
  induction l1 as [| x l1 IH]; [trivial |].
  cbn [app distinct_signatures]. intros H.
  apply andb_true_iff in H as [_ H]. auto.
Qed.

Lemma distinct_signatures_head a l :
  distinct_signatures (a :: l) = true →
  String.eqb (signature a) EmptyString = false.
Proof.
  cbn [distinct_signatures]. intros H.
  apply andb_true_iff in H as [H _]. apply andb_true_iff in H as [H _].
  now apply negb_true_iff in H.
Qed.

(** In a history of distinct signatures the cursor of a descriptor leads
    to what follows that descriptor. *)
Lemma after_cursor_split l1 a l2 :
  distinct_signatures (l1 ++ a :: l2) = true →
  after_cursor (signature a) (l1 ++ a :: l2) = l2.
Proof.
  induction l1 as [| x l1 IH]; cbn [app after_cursor].
  - intros _. now rewrite String.eqb_refl.
  - intros H. cbn [distinct_signatures] in H.
    apply andb_true_iff in H as [H Hrest]. apply andb_true_iff in H as [_ H].
    rewrite forallb_app in H. apply andb_true_iff in H as [_ H].
    cbn [forallb] in H. apply andb_true_iff in H as [H _].
    apply negb_true_iff in H. rewrite String.eqb_sym, H. auto.
Qed.

Lemma newest_first_suffix l1 l2 :
  newest_first (l1 ++ l2) = true → newest_first l2 = true.
Proof.
  induction l1 as [| x l1 IH]; [trivial |].
  cbn [app newest_first]. intros H.
  apply andb_true_iff in H as [_ H]. auto.
Qed.

Lemma newest_first_split l1 a l2 :
  newest_first (l1 ++ a :: l2) = true →
  Forall (λ b, not_newer a b = true) l2.
Proof.
  intros H. apply newest_first_suffix in H. cbn [newest_first] in H.
  apply andb_true_iff in H as [H _].
  apply Forall_forall. intros b Hb.
  rewrite forallb_forall in H. apply H. now apply list_elem_of_In.
Qed.

Lemma history_page_served history scanned rest before :
  distinct_signatures history = true →
  history = scanned ++ rest →
  cursor_at scanned before →
  history_page history (Some 1000) before = take PAGE rest.
Proof.
  intros Hd -> Hcursor. unfold history_page.
  change (Z.to_nat 1000) with PAGE.
  destruct before as [sig |]; cbn [cursor_at] in Hcursor.
  - destruct Hcursor as (init & oldest & -> & ->).
    rewrite <- app_assoc in *. cbn [app] in *.
    cbn [marker_truthy from_option id].
    rewrite (distinct_signatures_head oldest rest)
      by (eapply distinct_signatures_suffix, Hd).
    cbn [negb]. now rewrite after_cursor_split.
  - subst scanned. reflexivity.
Qed.

(** *** The date-range loop *)

Lemma date_range_loop_capped rpc start_ts end_ts fuel call before fetched acc :
  20000 ≤ fetched →
  date_range_loop rpc start_ts end_ts fuel call before fetched acc = Some (Ok acc).
Proof.
  intros Hcap. destruct fuel; cbn [date_range_loop];
    destruct (Z.ltb_spec fetched 20000); (lia || reflexivity).
Qed.

Lemma date_range_loop_step history start_ts end_ts fuel call before fetched acc
    page oldest :
  fetched < 20000 →
  history_page history (Some 1000) before = page →
  last page = Some oldest →
  date_range_loop (history_rpc history) start_ts end_ts (S fuel) call before
    fetched acc =
  if time_truthy (blockTime oldest) && Z.ltb (time_value (blockTime oldest)) start_ts
  then Some (Ok (acc ++ List.filter (in_date_range start_ts end_ts) page))
  else if Nat.ltb (length page) PAGE
  then Some (Ok (acc ++ List.filter (in_date_range start_ts end_ts) page))
  else date_range_loop (history_rpc history) start_ts end_ts fuel (S call)
         (Some (signature oldest)) (fetched + Z.of_nat (length page))
         (acc ++ List.filter (in_date_range start_ts end_ts) page).
Proof.
  intros Hcap Hpage Hlast. cbn [date_range_loop].
  destruct (Z.ltb_spec fetched 20000); [| lia]. cbn [negb].
  unfold history_rpc.
  cbn [reply_stops reply_batch has_error sig_result orb].
  rewrite Hpage. destruct page as [| p page]; [discriminate |].
  now rewrite Hlast.
Qed.

Lemma date_range_loop_empty_page history start_ts end_ts fuel call before fetched acc :
  fetched < 20000 →
  history_page history (Some 1000) before = [] →
  date_range_loop (history_rpc history) start_ts end_ts (S fuel) call before
    fetched acc = Some (Ok acc).
Proof.
  intros Hcap Hpage. cbn [date_range_loop].
  destruct (Z.ltb_spec fetched 20000); [| lia]. cbn [negb].
  unfold history_rpc.
  cbn [reply_stops reply_batch has_error sig_result orb].
  now rewrite Hpage.
Qed.

(** What lies behind a descriptor that predates [start_ts] is outside the
    range. *)
Lemma older_than_start_excluded start_ts end_ts oldest rest :
  time_truthy (blockTime oldest) && Z.ltb (time_value (blockTime oldest)) start_ts = true →
  Forall (λ b, not_newer oldest b = true) rest →
  List.filter (confirmed_within start_ts end_ts) rest = [].
Proof.
  intros Hold Hnewer. apply filter_none.
  eapply Forall_impl; [exact Hnewer |]. cbn beta. intros b Hb.
  apply andb_true_iff in Hold as [Hpresent Hbefore].
  unfold not_newer in Hb. unfold confirmed_within.
  unfold time_truthy, time_value in *.
  destruct (blockTime oldest) as [to |]; [| discriminate].
  destruct (blockTime b) as [tb |]; [| reflexivity].
  apply Z.ltb_lt in Hbefore. apply Z.leb_le in Hb.
  destruct (Z.leb_spec start_ts tb); [lia | reflexivity].
Qed.

Lemma take_plus {A} (n m : nat) (l : list A) :
  take (n + m) l = take n l ++ take m (drop n l).
Proof.
  revert l. induction n as [| n IH]; intros l; [reflexivity |].
  destruct l as [| x l]; cbn [Nat.add take drop app].
  - now destruct m.
  - now rewrite IH.
Qed.

Section Served.
Variables (history : list SigInfo) (start_ts end_ts : Z).
Hypothesis distinct : distinct_signatures history = true.
Hypothesis sorted : newest_first history = true.
Hypothesis timed : Forall (λ s, blockTime s ≠ Some 0) history.

(** The loop, resumed with [fuel] rounds left before the cap and
    [scanned] served so far, appends the descriptors within the range among
    the next [fuel] pages of the rest. *)
Lemma date_range_loop_served fuel :
  ∀ scanned rest call before acc,
    (fuel ≤ 20)%nat →
    history = scanned ++ rest →
    cursor_at scanned before →
    length scanned = ((20 - fuel) * PAGE)%nat →
    date_range_loop (history_rpc history) start_ts end_ts fuel call before
      (Z.of_nat (length scanned)) acc
    = Some (Ok (acc ++ List.filter (confirmed_within start_ts end_ts)
                         (take (fuel * PAGE) rest))).
Proof.
  induction fuel as [| fuel IH];
    intros scanned rest call before acc Hfuel Hsplit Hcursor Hscanned.
  - rewrite date_range_loop_capped by (rewrite Hscanned; unfold PAGE; lia).
    change (0 * PAGE)%nat with 0%nat. rewrite take_0.
    cbn [List.filter]. now rewrite app_nil_r.
  - assert (Hbelow : Z.of_nat (length scanned) < 20000)
      by (rewrite Hscanned; unfold PAGE; lia).
    pose proof (history_page_served _ _ _ _ distinct Hsplit Hcursor) as Hpage.
    assert (Htimed : Forall (λ s, blockTime s ≠ Some 0) rest).
    { rewrite Hsplit in timed. now apply Forall_app in timed as [_ ?]. }
    replace (S fuel * PAGE)%nat with (PAGE + fuel * PAGE)%nat by lia.
    rewrite take_plus, List.filter_app.
    destruct (last (take PAGE rest)) as [oldest |] eqn:Hlast.
    2:{ apply last_None in Hlast.
        rewrite (date_range_loop_empty_page _ _ _ _ _ _ _ _ Hbelow)
          by now rewrite Hpage.
        assert (rest = []) as ->; [destruct rest; [reflexivity | discriminate] |].
        rewrite drop_nil, !take_nil. cbn [List.filter]. now rewrite !app_nil_r. }
    rewrite (date_range_loop_step _ _ _ _ _ _ _ _ _ oldest Hbelow Hpage Hlast).
    apply last_Some in Hlast as [init Hinit].
    assert (Hrest : rest = init ++ oldest :: drop PAGE rest).
    { rewrite <- (take_drop PAGE rest) at 1. rewrite Hinit, <- app_assoc.
      reflexivity. }
    assert (Hpagefilter :
      List.filter (in_date_range start_ts end_ts) (take PAGE rest)
      = List.filter (confirmed_within start_ts end_ts) (take PAGE rest)).
    { apply filter_agree.
      rewrite <- (take_drop PAGE rest) in Htimed.
      apply Forall_app in Htimed as [Htimed _].
      eapply Forall_impl; [exact Htimed |]. cbn beta.
      intros. now apply in_date_range_confirmed. }
    rewrite Hpagefilter.
    destruct (time_truthy (blockTime oldest)
              && Z.ltb (time_value (blockTime oldest)) start_ts) eqn:Hold.
    { rewrite (older_than_start_excluded _ _ oldest
                 (take (fuel * PAGE) (drop PAGE rest)) Hold).
      - now rewrite app_nil_r.
      - apply Forall_take. apply (newest_first_split (scanned ++ init)).
        rewrite <- app_assoc, <- Hrest, <- Hsplit. exact sorted. }
    destruct (Nat.ltb_spec (length (take PAGE rest)) PAGE) as [Hshort | Hfull].
    { rewrite length_take in Hshort.
      rewrite (drop_ge rest PAGE) by lia. rewrite take_nil.
      cbn [List.filter]. now rewrite app_nil_r. }
    assert (Hlen : length (take PAGE rest) = PAGE).
    { rewrite length_take in *. lia. }
    replace (Z.of_nat (length scanned) + Z.of_nat (length (take PAGE rest)))
      with (Z.of_nat (length (scanned ++ take PAGE rest)))
      by (rewrite length_app; lia).
    rewrite (IH (scanned ++ take PAGE rest) (drop PAGE rest)).
    + now rewrite app_assoc.
    + lia.
    + rewrite <- app_assoc, take_drop. exact Hsplit.
    + cbn [cursor_at]. exists (scanned ++ init), oldest.
      split; [| reflexivity]. rewrite Hinit. now rewrite app_assoc.
    + rewrite length_app, Hlen, Hscanned. unfold PAGE. lia.
Qed.

End Served.

(** *** The requests of the date-range loop *)

Lemma date_range_loop_step_at rpc start_ts end_ts fuel call before fetched acc
    page oldest :
  fetched < 20000 →
  rpc call (Some 1000) before
    = Ok {| has_error := false; sig_result := Some page |} →
  last page = Some oldest →
  date_range_loop rpc start_ts end_ts (S fuel) call before fetched acc =
  if time_truthy (blockTime oldest) && Z.ltb (time_value (blockTime oldest)) start_ts
  then Some (Ok (acc ++ List.filter (in_date_range start_ts end_ts) page))
  else if Nat.ltb (length page) PAGE
  then Some (Ok (acc ++ List.filter (in_date_range start_ts end_ts) page))
  else date_range_loop rpc start_ts end_ts fuel (S call)
         (Some (signature oldest)) (fetched + Z.of_nat (length page))
         (acc ++ List.filter (in_date_range start_ts end_ts) page).
Proof.
  intros Hcap Hreply Hlast. cbn [date_range_loop].
  destruct (Z.ltb_spec fetched 20000); [| lia]. cbn [negb].
  rewrite Hreply.
  cbn [reply_stops reply_batch has_error sig_result orb].
  destruct page as [| p page]; [discriminate |].
  now rewrite Hlast.
Qed.

Lemma date_range_loop_empty_at rpc start_ts end_ts fuel call before fetched acc :
  fetched < 20000 →
  rpc call (Some 1000) before = Ok {| has_error := false; sig_result := Some [] |} →
  date_range_loop rpc start_ts end_ts (S fuel) call before fetched acc
    = Some (Ok acc).
Proof.
  intros Hcap Hreply. cbn [date_range_loop].
  destruct (Z.ltb_spec fetched 20000); [| lia]. cbn [negb].
  now rewrite Hreply.
Qed.

Lemma date_range_loop_raises rpc start_ts end_ts fuel call before fetched acc e :
  fetched < 20000 →
  rpc call (Some 1000) before = Raise e →
  date_range_loop rpc start_ts end_ts (S fuel) call before fetched acc
    = Some (Raise e).
Proof.
  intros Hcap Hreply. cbn [date_range_loop].
  destruct (Z.ltb_spec fetched 20000); [| lia]. cbn [negb].
  now rewrite Hreply.
Qed.

(** The test of the loop on the oldest descriptor of a page, for a
    confirmation time that is not 0. *)
Lemma predates_as_tested start_ts sig_info :
  blockTime sig_info ≠ Some 0 →
  time_truthy (blockTime sig_info)
  && Z.ltb (time_value (blockTime sig_info)) start_ts
  = predates start_ts sig_info.
Proof.
  unfold predates, time_truthy, time_value.
  destruct (blockTime sig_info) as [t |]; [| reflexivity].
  intros Hzero. destruct (Z.eqb_spec t 0) as [-> | _]; [congruence | reflexivity].
Qed.

Lemma pages_asked_positive budget start_ts rest :
  (1 ≤ pages_asked (S budget) start_ts rest)%nat.
Proof.
  cbn [pages_asked]. destruct (last (take PAGE rest)); [| lia].
  destruct (_ || _); lia.
Qed.

Lemma pages_asked_bounded budget start_ts rest :
  (pages_asked budget start_ts rest ≤ budget)%nat.
Proof.
  revert rest. induction budget as [| budget IH]; intros rest; cbn [pages_asked];
    [lia |].
  destruct (last (take PAGE rest)); [| lia].
  destruct (_ || _); [lia |]. specialize (IH (drop PAGE rest)). lia.
Qed.

Lemma served_until_serves n history after call before :
  (call < n)%nat →
  served_until n history after call (Some 1000) before
  = Ok {| has_error := false;
          sig_result := Some (history_page history (Some 1000) before) |}.
Proof.
  intros Hcall. unfold served_until.
  now destruct (Nat.ltb_spec call n); [| lia].
Qed.

Section Asked.
Variables (history : list SigInfo) (start_ts end_ts : Z).
Hypothesis distinct : distinct_signatures history = true.
Hypothesis sorted : newest_first history = true.
Hypothesis timed : Forall (λ s, blockTime s ≠ Some 0) history.

(** The oldest descriptor of the next page is one of the history. *)
Lemma oldest_is_timed scanned rest oldest :
  history = scanned ++ rest →
  last (take PAGE rest) = Some oldest →
  blockTime oldest ≠ Some 0.
Proof.
  intros Hsplit Hlast. rewrite Forall_forall in timed. apply timed.
  rewrite Hsplit. apply elem_of_app. right.
  apply last_Some in Hlast as [init Hinit].
  rewrite <- (take_drop PAGE rest), Hinit.
  apply elem_of_app. left. apply elem_of_app. right. constructor.
Qed.

(** The loop asks for no more than [pages_asked] pages: what the provider
    would answer to a later request does not show in the result. *)
Lemma date_range_loop_asked fuel :
  ∀ scanned rest call before acc after,
    (fuel ≤ 20)%nat →
    history = scanned ++ rest →
    cursor_at scanned before →
    length scanned = ((20 - fuel) * PAGE)%nat →
    date_range_loop
      (served_until (call + pages_asked fuel start_ts rest) history after)
      start_ts end_ts fuel call before (Z.of_nat (length scanned)) acc
    = Some (Ok (acc ++ List.filter (confirmed_within start_ts end_ts)
                         (take (fuel * PAGE) rest))).
Proof.
  induction fuel as [| fuel IH];
    intros scanned rest call before acc after Hfuel Hsplit Hcursor Hscanned.
  - rewrite date_range_loop_capped by (rewrite Hscanned; unfold PAGE; lia).
    change (0 * PAGE)%nat with 0%nat. rewrite take_0.
    cbn [List.filter]. now rewrite app_nil_r.
  - assert (Hbelow : Z.of_nat (length scanned) < 20000)
      by (rewrite Hscanned; unfold PAGE; lia).
    pose proof (history_page_served _ _ _ _ distinct Hsplit Hcursor) as Hpage.
    pose proof (pages_asked_positive fuel start_ts rest) as Hpositive.
    pose proof (served_until_serves
                  (call + pages_asked (S fuel) start_ts rest) history after
                  call before ltac:(lia)) as Hreply.
    rewrite Hpage in Hreply.
    assert (Htimed : Forall (λ s, blockTime s ≠ Some 0) rest).
    { rewrite Hsplit in timed. now apply Forall_app in timed as [_ ?]. }
    replace (S fuel * PAGE)%nat with (PAGE + fuel * PAGE)%nat by lia.
    rewrite take_plus, List.filter_app.
    destruct (last (take PAGE rest)) as [oldest |] eqn:Hlast.
    2:{ apply last_None in Hlast. rewrite Hlast in Hreply.
        rewrite (date_range_loop_empty_at _ _ _ _ _ _ _ _ Hbelow Hreply).
        assert (rest = []) as ->; [destruct rest; [reflexivity | discriminate] |].
        rewrite drop_nil, !take_nil. cbn [List.filter]. now rewrite !app_nil_r. }
    rewrite (date_range_loop_step_at _ _ _ _ _ _ _ _ _ oldest Hbelow Hreply Hlast).
    rewrite (predates_as_tested _ _ (oldest_is_timed _ _ _ Hsplit Hlast)).
    pose proof Hlast as Hinit. apply last_Some in Hinit as [init Hinit].
    assert (Hrest : rest = init ++ oldest :: drop PAGE rest).
    { rewrite <- (take_drop PAGE rest) at 1. rewrite Hinit, <- app_assoc.
      reflexivity. }
    assert (Hpagefilter :
      List.filter (in_date_range start_ts end_ts) (take PAGE rest)
      = List.filter (confirmed_within start_ts end_ts) (take PAGE rest)).
    { apply filter_agree.
      rewrite <- (take_drop PAGE rest) in Htimed.
      apply Forall_app in Htimed as [Htimed _].
      eapply Forall_impl; [exact Htimed |]. cbn beta.
      intros. now apply in_date_range_confirmed. }
    rewrite Hpagefilter.
    destruct (predates start_ts oldest) eqn:Hold.
    { rewrite (older_than_start_excluded _ _ oldest
                 (take (fuel * PAGE) (drop PAGE rest))).
      - now rewrite app_nil_r.
      - rewrite (predates_as_tested _ _ (oldest_is_timed _ _ _ Hsplit Hlast)).
        exact Hold.
      - apply Forall_take. apply (newest_first_split (scanned ++ init)).
        rewrite <- app_assoc, <- Hrest, <- Hsplit. exact sorted. }
    destruct (Nat.ltb_spec (length (take PAGE rest)) PAGE) as [Hshort | Hfull].
    { rewrite length_take in Hshort.
      rewrite (drop_ge rest PAGE) by lia. rewrite take_nil.
      cbn [List.filter]. now rewrite app_nil_r. }
    assert (Hlen : length (take PAGE rest) = PAGE).
    { rewrite length_take in *. lia. }
    assert (Hasked : pages_asked (S fuel) start_ts rest
                     = S (pages_asked fuel start_ts (drop PAGE rest))).
    { cbn [pages_asked]. rewrite Hlast, Hold. cbn [orb].
      now destruct (Nat.ltb_spec (length (take PAGE rest)) PAGE); [lia |]. }
    rewrite Hasked.
    replace (call + S (pages_asked fuel start_ts (drop PAGE rest)))%nat
      with (S call + pages_asked fuel start_ts (drop PAGE rest))%nat by lia.
    replace (Z.of_nat (length scanned) + Z.of_nat (length (take PAGE rest)))
      with (Z.of_nat (length (scanned ++ take PAGE rest)))
      by (rewrite length_app; lia).
    rewrite (IH (scanned ++ take PAGE rest) (drop PAGE rest)).
    + now rewrite app_assoc.
    + lia.
    + rewrite <- app_assoc, take_drop. exact Hsplit.
    + cbn [cursor_at]. exists (scanned ++ init), oldest.
      split; [| reflexivity]. rewrite Hinit. now rewrite app_assoc.
    + rewrite length_app, Hlen, Hscanned. unfold PAGE. lia.
Qed.

(** The loop asks for every one of the [pages_asked] pages: a request
    among them that fails makes the scan fail. *)
Lemma date_range_loop_asks_each fuel :
  ∀ scanned rest call before acc n e,
    (fuel ≤ 20)%nat →
    history = scanned ++ rest →
    cursor_at scanned before →
    length scanned = ((20 - fuel) * PAGE)%nat →
    (call ≤ n)%nat →
    (n < call + pages_asked fuel start_ts rest)%nat →
    date_range_loop (served_until n history (λ _ _ _, Raise e))
      start_ts end_ts fuel call before (Z.of_nat (length scanned)) acc
    = Some (Raise e).
Proof.
  induction fuel as [| fuel IH];
    intros scanned rest call before acc n e Hfuel Hsplit Hcursor Hscanned Hle Hlt.
  - cbn [pages_asked] in Hlt. lia.
  - assert (Hbelow : Z.of_nat (length scanned) < 20000)
      by (rewrite Hscanned; unfold PAGE; lia).
    destruct (decide (call = n)) as [-> | Hne].
    { apply date_range_loop_raises; [exact Hbelow |].
      unfold served_until. now destruct (Nat.ltb_spec n n); [lia |]. }
    pose proof (history_page_served _ _ _ _ distinct Hsplit Hcursor) as Hpage.
    pose proof (served_until_serves n history (λ _ _ _, Raise e)
                  call before ltac:(lia)) as Hreply.
    rewrite Hpage in Hreply.
    cbn [pages_asked] in Hlt.
    destruct (last (take PAGE rest)) as [oldest |] eqn:Hlast; [| lia].
    destruct (predates start_ts oldest) eqn:Hold; cbn [orb] in Hlt; [lia |].
    destruct (Nat.ltb_spec (length (take PAGE rest)) PAGE) as [Hshort | Hfull];
      [lia |].
    rewrite (date_range_loop_step_at _ _ _ _ _ _ _ _ _ oldest Hbelow Hreply Hlast).
    rewrite (predates_as_tested _ _ (oldest_is_timed _ _ _ Hsplit Hlast)), Hold.
    destruct (Nat.ltb_spec (length (take PAGE rest)) PAGE); [lia |].
    assert (Hlen : length (take PAGE rest) = PAGE).
    { rewrite length_take in *. lia. }
    pose proof Hlast as Hinit. apply last_Some in Hinit as [init Hinit].
    replace (Z.of_nat (length scanned) + Z.of_nat (length (take PAGE rest)))
      with (Z.of_nat (length (scanned ++ take PAGE rest)))
      by (rewrite length_app; lia).
    apply (IH (scanned ++ take PAGE rest) (drop PAGE rest)).
    + lia.
    + rewrite <- app_assoc, take_drop. exact Hsplit.
    + cbn [cursor_at]. exists (scanned ++ init), oldest.
      split; [| reflexivity]. rewrite Hinit. now rewrite app_assoc.
    + rewrite length_app, Hlen, Hscanned. unfold PAGE. lia.
    + lia.
    + lia.
Qed.

End Asked.

(** Whatever the provider answers, twenty rounds end the date-range
    loop. *)
Lemma date_range_loop_ends rpc start_ts end_ts fuel :
  ∀ call before fetched acc,
    20000 ≤ fetched + 1000 * Z.of_nat fuel →
    is_Some (date_range_loop rpc start_ts end_ts fuel call before fetched acc).
Proof.
  induction fuel as [| fuel IH]; intros call before fetched acc Hfuel.
  - rewrite date_range_loop_capped by lia. eauto.
  - cbn [date_range_loop].
    destruct (negb (Z.ltb fetched 20000)); [eauto |].
    destruct (rpc call (Some 1000) before) as [response |]; [| eauto].
    destruct (reply_stops response); [eauto |].
    destruct (last (reply_batch response)) as [oldest |]; [| eauto].
    destruct (_ && _); [eauto |].
    destruct (Nat.ltb_spec (length (reply_batch response)) PAGE); [eauto |].
    apply IH. unfold PAGE in *. lia.
Qed.

Lemma no_zero_time_Forall history :
  no_zero_time history = true → Forall (λ s, blockTime s ≠ Some 0) history.
Proof.
  unfold no_zero_time. rewrite forallb_forall. intros Hall.
  apply Forall_forall. intros s Hs Hzero.
  specialize (Hall s ltac:(now apply list_elem_of_In)).
  rewrite Hzero in Hall. discriminate.
Qed.

(** C3, as amended: over a history served newest first, with distinct
    non-empty signatures and no confirmation time equal to 0, date-range
    discovery returns, in the order of the history, exactly the descriptors
    confirmed within [[start_ts, end_ts]] among the newest 20000; a history
    of at most 20000 descriptors is searched whole. The scan asks for the
    pages one after the other and stops asking after the first page that
    is empty, whose oldest descriptor predates [start_ts] or that is
    shorter than 1000, and after the twentieth page at the latest: what
    the provider would answer to a later request does not show in the
    result, and a failure of any request up to there does. *)
Theorem date_range_exact_below_cap history start_ts end_ts :
  distinct_signatures history = true →
  newest_first history = true →
  no_zero_time history = true →
  (∀ limit start_block end_block,
     discover_signatures (history_rpc history) limit start_block end_block
       (Some start_ts) (Some end_ts)
     = Some (Ok (List.filter (confirmed_within start_ts end_ts)
                   (take (20 * PAGE) history))))
  ∧ ((length history ≤ 20 * PAGE)%nat → date_range_exact history start_ts end_ts)
  ∧ (∀ after limit start_block end_block,
       discover_signatures
         (served_until (pages_asked 20 start_ts history) history after)
         limit start_block end_block (Some start_ts) (Some end_ts)
       = Some (Ok (List.filter (confirmed_within start_ts end_ts)
                     (take (20 * PAGE) history))))
  ∧ (∀ n e limit start_block end_block,
       (n < pages_asked 20 start_ts history)%nat →
       discover_signatures (served_until n history (λ _ _ _, Raise e))
         limit start_block end_block (Some start_ts) (Some end_ts)
       = Some (Raise e))
  ∧ (1 ≤ pages_asked 20 start_ts history ≤ 20)%nat.
Proof.
  intros Hdistinct Hsorted Htimed.
  assert (Hrun : ∀ limit start_block end_block,
            discover_signatures (history_rpc history) limit start_block end_block
              (Some start_ts) (Some end_ts)
            = Some (Ok (List.filter (confirmed_within start_ts end_ts)
                          (take (20 * PAGE) history)))).
  { intros limit start_block end_block.
    unfold discover_signatures. cbn [select_mode].
    apply (date_range_loop_served history start_ts end_ts Hdistinct Hsorted
             (no_zero_time_Forall _ Htimed) 20 [] history 0%nat None []);
      [lia | reflexivity | reflexivity | reflexivity]. }
  split; [exact Hrun |]. split.
  { intros Hshort. unfold date_range_exact. rewrite Hrun.
    now rewrite take_ge by lia. }
  split.
  { intros after limit start_block end_block.
    unfold discover_signatures. cbn [select_mode].
    apply (date_range_loop_asked history start_ts end_ts Hdistinct Hsorted
             (no_zero_time_Forall _ Htimed) 20 [] history 0%nat None [] after);
      [lia | reflexivity | reflexivity | reflexivity]. }
  split.
  { intros n e limit start_block end_block Hn.
    unfold discover_signatures. cbn [select_mode].
    apply (date_range_loop_asks_each history start_ts end_ts Hdistinct
             (no_zero_time_Forall _ Htimed) 20 [] history 0%nat None [] n e);
      [lia | reflexivity | reflexivity | reflexivity | lia | exact Hn]. }
  split; [apply pages_asked_positive | apply pages_asked_bounded].
Qed.

Lemma date_range_exact_below_cap_witness :
  distinct_signatures (history_of 1500) = true
  ∧ newest_first (history_of 1500) = true
  ∧ no_zero_time (history_of 1500) = true
  ∧ date_range_exact (history_of 1500) 1700000400 1700000600
  ∧ pages_asked 20 1700000900 (history_of 1500) = 1%nat
  ∧ discover_signatures
      (served_until 1 (history_of 1500) (λ _ _ _, Raise ClientError))
      (Some 100) None None (Some 1700000900) (Some 1700001000)
    = Some (Ok (List.filter (confirmed_within 1700000900 1700001000)
                  (take (20 * PAGE) (history_of 1500)))).
Proof.
  assert (Hd : distinct_signatures (history_of 1500) = true) by (vm_compute; reflexivity).
  assert (Hs : newest_first (history_of 1500) = true) by (vm_compute; reflexivity).
  assert (Ht : no_zero_time (history_of 1500) = true) by (vm_compute; reflexivity).
  assert (Hp : pages_asked 20 1700000900 (history_of 1500) = 1%nat)
    by (vm_compute; reflexivity).
  split; [exact Hd | split; [exact Hs | split; [exact Ht |]]].
  split.
  { apply (proj1 (proj2 (date_range_exact_below_cap (history_of 1500)
                           1700000400 1700000600 Hd Hs Ht))).
    apply Nat.leb_le. vm_compute. reflexivity. }
  split; [exact Hp |].
  rewrite <- Hp at 1.
  apply (proj1 (proj2 (proj2 (date_range_exact_below_cap (history_of 1500)
                                1700000900 1700001000 Hd Hs Ht)))).
Defined.

(** C3, as worded, fails on a history of 20001 descriptors that all lie
    within the range: the scan ends at the cap with 20000 of them. It fails
    as well on a descriptor confirmed at time 0, which the truthiness test
    on the block time leaves out of a range that holds 0. *)
Lemma date_range_not_exact :
  ¬ date_range_exact (history_of 20001) 1700000000 1800000000
  ∧ ¬ date_range_exact epoch_history 0 10.
Proof.
  split; intros Hexact; unfold date_range_exact in Hexact.
  - apply (f_equal (option_map (λ r,
             match r with Ok l => Z.of_nat (length l) | Raise _ => 0 end)))
      in Hexact.
    vm_compute in Hexact. discriminate Hexact.
  - vm_compute in Hexact. discriminate Hexact.
Qed.

End DiscoveryFacts.

(** ** Block-range discovery *)

Module BlockRangeFacts.
Import SolanaHelpers Claims Fixtures.

Lemma block_range_batch_within start_block end_block batch :
  ∀ s, s ∈ (block_range_batch start_block end_block batch).1 →
       within_bounds start_block end_block s.
Proof.
  induction batch as [| x batch IH]; cbn [block_range_batch]; intros s Hs.
  - inversion Hs.
  - destruct (bound_truthy end_block && Z.gtb (slot x) (bound_value end_block))
      eqn:Habove; [now apply IH |].
    destruct (bound_truthy start_block && Z.ltb (slot x) (bound_value start_block))
      eqn:Hbelow; [inversion Hs |].
    destruct (block_range_batch start_block end_block batch) as [kept stop].
    cbn [fst] in *. apply elem_of_cons in Hs as [-> | Hs]; [| now apply IH].
    split; intros Hbound; rewrite Hbound in *; cbn [andb] in *.
    + rewrite Z.gtb_ltb in Habove. apply Z.ltb_ge in Habove. lia.
    + apply Z.ltb_ge in Hbelow. lia.
Qed.

(** The descriptors that a batch adds stop at the first one below a
    counted lower bound that the upper bound has not already left out. *)
Lemma block_range_batch_stops start_block end_block before x after :
  Forall (λ s, bound_truthy start_block && Z.ltb (slot s) (bound_value start_block)
               = false) before →
  bound_truthy end_block && Z.gtb (slot x) (bound_value end_block) = false →
  bound_truthy start_block && Z.ltb (slot x) (bound_value start_block) = true →
  block_range_batch start_block end_block (before ++ x :: after) =
    ((block_range_batch start_block end_block before).1, true).
Proof.
  intros Hbefore Hin Hbelow.
  induction Hbefore as [| y before Hy _ IH]; cbn [app block_range_batch fst].
  - now rewrite Hin, Hbelow.
  - rewrite Hy, IH.
    destruct (bound_truthy end_block && Z.gtb (slot y) (bound_value end_block));
      [reflexivity |].
    now destruct (block_range_batch start_block end_block before).
Qed.

Lemma block_range_loop_within rpc start_block end_block fuel :
  ∀ call before fetched acc r,
    block_range_loop rpc start_block end_block fuel call before fetched acc
      = Some (Ok r) →
    Forall (within_bounds start_block end_block) acc →
    Forall (within_bounds start_block end_block) r.
Proof.
  induction fuel as [| fuel IH]; intros call before fetched acc r;
    cbn [block_range_loop].
  - destruct (negb (Z.ltb fetched 5000)); [| discriminate].
    now intros [= <-].
  - destruct (negb (Z.ltb fetched 5000)); [now intros [= <-] |].
    destruct (rpc call (Some 1000) before) as [response |]; [| discriminate].
    destruct (reply_stops response); [now intros [= <-] |].
    pose proof (block_range_batch_within start_block end_block (reply_batch response))
      as Hkept.
    destruct (block_range_batch start_block end_block (reply_batch response))
      as [kept stop]. cbn [fst] in Hkept.
    intros Hrun Hacc.
    assert (Hacc' : Forall (within_bounds start_block end_block) (acc ++ kept)).
    { apply Forall_app. split; [exact Hacc | now apply Forall_forall]. }
    destruct (stop || Nat.ltb (length (reply_batch response)) PAGE);
      [now injection Hrun as <- |].
    destruct (last (reply_batch response)); [| discriminate].
    eapply IH; eassumption.
Qed.

(** Whatever the provider answers, five rounds end the block-range loop. *)
Lemma block_range_loop_ends rpc start_block end_block fuel :
  ∀ call before fetched acc,
    5000 ≤ fetched + 1000 * Z.of_nat fuel →
    is_Some (block_range_loop rpc start_block end_block fuel call before fetched acc).
Proof.
  induction fuel as [| fuel IH]; intros call before fetched acc Hfuel;
    cbn [block_range_loop].
  - destruct (Z.ltb_spec fetched 5000); [lia | cbn; eauto].
  - destruct (negb (Z.ltb fetched 5000)); [eauto |].
    destruct (rpc call (Some 1000) before) as [response |]; [| eauto].
    destruct (reply_stops response); [eauto |].
    destruct (block_range_batch start_block end_block (reply_batch response))
      as [kept stop].
    destruct stop; cbn [orb]; [eauto |].
    destruct (Nat.ltb_spec (length (reply_batch response)) PAGE); [eauto |].
    destruct (last (reply_batch response)); [| eauto].
    apply IH. unfold PAGE in *. lia.
Qed.

(** With both bounds given and not 0, every descriptor that block-range
    discovery keeps has its slot between them. *)
Lemma block_range_kept_between rpc limit start_block end_block r :
  start_block ≠ 0 → end_block ≠ 0 →
  discover_signatures rpc limit (Some start_block) (Some end_block) None None
    = Some (Ok r) →
  Forall (λ s, start_block ≤ slot s ≤ end_block) r.
Proof.
  intros Hstart Hend Hrun. unfold discover_signatures, select_mode in Hrun.
  cbn [bound_truthy] in Hrun.
  destruct (Z.eqb_spec start_block 0) as [| _]; [contradiction |].
  cbn [negb orb] in Hrun.
  apply block_range_loop_within in Hrun; [| constructor].
  eapply Forall_impl; [exact Hrun |]. cbn beta.
  intros s [Hupper Hlower]. cbn [bound_truthy bound_value] in *.
  destruct (Z.eqb_spec start_block 0), (Z.eqb_spec end_block 0); try contradiction.
  split; [now apply Hlower | now apply Hupper].
Qed.

(** C7, where the code departs from the claim. With both bounds 0 the
    truthiness test [start_block or end_block] fails and the code answers
    in the count-limited mode: the three descriptors of slots 3, 2, 1 all
    come back, none of them within [[0, 0]]. With [start_block = 2] and
    [end_block = 0] the test [end_block and slot > end_block] never
    discards: the descriptors of slots 3 and 2 are kept above the upper
    bound. *)
Theorem block_range_zero_bound_ignored :
  discover_signatures (history_rpc (history_of 3)) None (Some 0) (Some 0) None None
    = Some (Ok (history_of 3))
  ∧ map slot (history_of 3) = [3; 2; 1]
  ∧ select_mode (Some 0) (Some 0) None None = CountLimited
  ∧ discover_signatures (history_rpc (history_of 3)) None (Some 2) (Some 0) None None
    = Some (Ok (take 2 (history_of 3))).
Proof. repeat split; vm_compute; reflexivity. Qed.

End BlockRangeFacts.

(** ** The incremental scan *)

Module SinceMarkerFacts.
Import SolanaHelpers Claims Fixtures.

Lemma since_marker_loop_step rpc last_signature pages call before newest acc :
  since_marker_loop rpc last_signature (S pages) call before newest acc =
    (response ← rpc call (Some 1000) before;
     if reply_stops response then Ok (acc, newest) else
     let batch := reply_batch response in
     first ← match head batch with Some s => Ok s | None => Raise IndexError end;
     let newest' :=
       if negb (marker_truthy newest) then Some (signature first) else newest in
     let '(new, found_last_sig) := until_marker last_signature batch in
     let acc' := acc ++ new in
     if found_last_sig || Nat.ltb (length batch) PAGE
     then Ok (acc', newest')
     else
       oldest ← match last batch with Some s => Ok s | None => Raise IndexError end;
       since_marker_loop rpc last_signature pages (S call)
         (Some (signature oldest)) newest' acc').
Proof. reflexivity. Qed.

(** The scan never loses what it has collected. *)
Lemma since_marker_loop_grows rpc last_signature pages :
  ∀ call before newest acc new newest',
    since_marker_loop rpc last_signature pages call before newest acc
      = Ok (new, newest') →
    ∃ more, new = acc ++ more.
Proof.
  induction pages as [| pages IH]; intros call before newest acc new newest'.
  - cbn. intros [= <- <-]. exists []. now rewrite app_nil_r.
  - rewrite since_marker_loop_step.
    destruct (rpc call (Some 1000) before) as [response |]; [| discriminate].
    cbn [mbind result_bind].
    destruct (reply_stops response).
    { intros [= <- <-]. exists []. now rewrite app_nil_r. }
    destruct (head (reply_batch response)) as [first |]; [| discriminate].
    cbn [mbind result_bind].
    destruct (until_marker last_signature (reply_batch response)) as [more found].
    destruct (found || Nat.ltb (length (reply_batch response)) PAGE).
    { intros [= <- <-]. now exists more. }
    destruct (last (reply_batch response)) as [oldest |]; [| discriminate].
    cbn [mbind result_bind]. intros Hrun.
    apply IH in Hrun as [more' ->]. exists (more ++ more'). now rewrite app_assoc.
Qed.

Section Pipeline.
Context `{Runtime}.

Lemma scan_without_new_signatures rpc tx_rpc last_signature :
  (∃ e, since_marker_scan rpc last_signature = Raise e)
  ∨ (∃ newest, since_marker_scan rpc last_signature = Ok ([], newest)) →
  fetch_and_parse_new_transactions rpc tx_rpc last_signature = ([], last_signature).
Proof.
  unfold fetch_and_parse_new_transactions.
  intros [[e ->] | [newest ->]]; reflexivity.
Qed.

Lemma nothing_new_scan rpc last_signature :
  nothing_new rpc last_signature →
  (∃ e, since_marker_scan rpc last_signature = Raise e)
  ∨ (∃ newest, since_marker_scan rpc last_signature = Ok ([], newest)).
Proof.
  intros [reply s rest Hreply Herr Hresult Hmarker
         | reply Hreply Hempty
         | reply Hreply Herr
         | e Hraise
         | newest Hnone].
  - right. exists (Some (signature s)).
    unfold since_marker_scan. rewrite since_marker_loop_step, Hreply.
    cbn [mbind result_bind]. unfold reply_stops, reply_batch.
    rewrite Herr, Hresult. cbn [orb head mbind result_bind marker_truthy negb].
    cbn [until_marker]. unfold is_marker. rewrite Hmarker, String.eqb_refl.
    reflexivity.
  - right. exists None.
    unfold since_marker_scan. rewrite since_marker_loop_step, Hreply.
    cbn [mbind result_bind]. unfold reply_stops.
    destruct Hempty as [-> | ->]; now rewrite orb_true_r.
  - right. exists None.
    unfold since_marker_scan. rewrite since_marker_loop_step, Hreply.
    cbn [mbind result_bind]. unfold reply_stops. now rewrite Herr.
  - left. eauto.
  - right. eauto.
Qed.

(** C10: when the incremental scan collects no new signature (the first
    page opens with the marker, the history is empty, the first page is an
    error reply, or an exception ends the scan), the function returns no
    row and the marker it was given; and whenever the marker it returns
    differs from the one it was given, the scan has collected at least one
    new signature. *)
Theorem marker_kept_without_new_signatures rpc tx_rpc last_signature :
  (nothing_new rpc last_signature →
   fetch_and_parse_new_transactions rpc tx_rpc last_signature = ([], last_signature))
  ∧ ((fetch_and_parse_new_transactions rpc tx_rpc last_signature).2 ≠ last_signature →
     ∃ s new newest,
       since_marker_scan rpc last_signature = Ok (s :: new, newest)).
Proof.
  split.
  - intros Hnothing. now apply scan_without_new_signatures, nothing_new_scan.
  - unfold fetch_and_parse_new_transactions.
    destruct (since_marker_scan rpc last_signature) as [[[| s new] newest] | e];
      cbn [mbind result_bind snd]; try congruence.
    intros _. eauto.
Qed.

End Pipeline.

Lemma marker_kept_without_new_signatures_witness :
  nothing_new (history_rpc (history_of 3)) (Some "sig0")
  ∧ fetch_and_parse_new_transactions (H := Sample.runtime)
      (history_rpc (history_of 3)) flaky_rpc (Some "sig0")
    = ([], Some "sig0").
Proof.
  assert (Hnothing : nothing_new (history_rpc (history_of 3)) (Some "sig0")).
  { eapply first_is_marker; reflexivity. }
  split; [exact Hnothing |].
  exact (proj1 (marker_kept_without_new_signatures (H := Sample.runtime)
                  (history_rpc (history_of 3)) flaky_rpc (Some "sig0")) Hnothing).
Defined.

(** With an older marker the scan collects what is newer and moves the
    marker to the newest signature. *)
Example marker_moves_with_new_signatures :
  since_marker_scan (history_rpc (history_of 3)) (Some "sig2")
    = Ok (take 2 (history_of 3), Some "sig0")
  ∧ (fetch_and_parse_new_transactions (H := Sample.runtime)
       (history_rpc (history_of 3)) (λ _ s _, Ok (Fixtures.body_of s)) (Some "sig2")).2
    = Some "sig0".
Proof. split; vm_compute; reflexivity. Qed.

End SinceMarkerFacts.

(** ** The notification formatter *)

Module MonitoringFacts.
Import Monitoring Claims Fixtures.

(** A float minus itself is zero or NaN, never above zero in magnitude. *)
Lemma fsub_self_not_positive a : fpositive (fabs (fsub a a)) = false.
Proof.
  destruct a as [q | n |]; cbn [fsub fabs fpositive].
  - destruct q as [n d]. cbn. replace (n * Z.pos d + - n * Z.pos d) with 0 by lia.
    reflexivity.
  - rewrite Bool.eqb_reflx. reflexivity.
  - reflexivity.
Qed.


Section Formatter.
Context `{Runtime}.

(** Balances that read the same for every mint give no token change. *)
Lemma token_changes_same pre post mints :
  (∀ mint, ui_amount post mint = ui_amount pre mint) →
  (∀ mint, mint ∈ mints → ∃ a, ui_amount pre mint = Ok a) →
  token_changes_of pre post mints = Ok [].
Proof.
  intros Hsame. induction mints as [| mint mints IH]; intros Hparse; [reflexivity |].
  cbn [token_changes_of].
  destruct (Hparse mint ltac:(constructor)) as [a Ha].
  rewrite (Hsame mint), Ha. cbn [mbind result_bind].
  rewrite IH by (intros m Hm; apply Hparse; now constructor).
  cbn [mbind result_bind]. now rewrite fsub_self_not_positive.
Qed.

(** *** The native balance of the address *)

(** The place that the search of the formatter finds holds the balance
    of the address. *)
Lemma balance_at_index wallet_address keys :
  ∀ balances,
    balance_of wallet_address keys balances
    = match index_of wallet_address keys with
      | Some addr_idx => nth_error balances addr_idx
      | None => None
      end.
Proof.
  induction keys as [| key keys IH]; intros balances; cbn [balance_of index_of].
  - now destruct balances.
  - destruct balances as [| balance rest].
    + destruct (eq_str key wallet_address); [reflexivity |].
      now destruct (index_of wallet_address keys).
    + destruct (eq_str key wallet_address); [reflexivity |].
      rewrite IH. now destruct (index_of wallet_address keys).
Qed.


(** The native change as the formatter computes it, for a transaction
    whose message lists the account keys and whose meta lists the
    balances. *)
Lemma sol_change_of_lists tx_result meta wallet_address keys pre post :
  field "accountKeys" (field "message" tx_result) = JList keys →
  field "preBalances" meta = JList pre →
  field "postBalances" meta = JList post →
  sol_change_of tx_result meta wallet_address
  = try_except
      (match index_of wallet_address keys with
       | None => Ok 0%Q
       | Some addr_idx =>
           pre_sol ← py_index (JList pre) addr_idx;
           post_sol ← py_index (JList post) addr_idx;
           difference ← py_sub post_sol pre_sol;
           py_truediv difference 1000000000
       end)
      caught_by_balance_handler (λ _, Ok 0%Q).
Proof.
  intros Hkeys Hpre Hpost. unfold sol_change_of.
  destruct tx_result as [| | | | | | txkv]; try discriminate.
  cbn [field] in Hkeys. cbn [py_get mbind result_bind].
  destruct (assoc "message" txkv) as [[| | | | | | msg] |]; try discriminate.
  cbn [field] in Hkeys. cbn [py_get mbind result_bind].
  destruct (assoc "accountKeys" msg) as [account_keys |]; [| discriminate].
  subst account_keys. cbn [py_iter mbind result_bind].
  destruct meta as [| | | | | | mkv]; try discriminate.
  cbn [field] in Hpre, Hpost. cbn [py_getitem].
  destruct (assoc "preBalances" mkv) as [pre_balances |]; [| discriminate].
  destruct (assoc "postBalances" mkv) as [post_balances |]; [| discriminate].
  subst pre_balances post_balances. reflexivity.
Qed.


(** The transaction and the meta of a transaction with account keys and
    balances are not empty, so the formatter goes on unless the
    transaction failed. *)
Lemma failed_or_malformed_lists tx_result meta keys pre :
  field "accountKeys" (field "message" tx_result) = JList keys →
  field "preBalances" meta = JList pre →
  failed_or_malformed tx_result meta = Ok (truthy (field "err" meta)).
Proof.
  intros Hkeys Hpre. unfold failed_or_malformed.
  destruct tx_result as [| | | | | | txkv]; try discriminate.
  destruct txkv as [| e txkv]; [discriminate |].
  destruct meta as [| | | | | | mkv]; try discriminate.
  destruct mkv as [| m mkv]; [discriminate |].
  reflexivity.
Qed.

(** *** The token balances of the address *)

(** Entries of other owners leave no mark on the balances of the
    address. *)
Lemma owned_by_mint_filter wallet_address entries :
  Forall (λ entry, isinstance_dict entry = true) entries →
  ∀ d,
    owned_by_mint wallet_address entries d
    = owned_by_mint wallet_address (List.filter (owned_by wallet_address) entries) d.
Proof.
  induction 1 as [| entry entries Hdict _ IH]; intros d; [reflexivity |].
  destruct entry as [| | | | | | kv]; try discriminate.
  cbn [owned_by_mint List.filter py_get mbind result_bind].
  change (match assoc "owner" kv with Some x => x | None => JNull end)
    with (field "owner" (JDict kv)).
  fold (owned_by wallet_address (JDict kv)).
  destruct (owned_by wallet_address (JDict kv)) eqn:Howned; [| apply IH].
  cbn [owned_by_mint py_get mbind result_bind].
  change (match assoc "owner" kv with Some x => x | None => JNull end)
    with (field "owner" (JDict kv)).
  fold (owned_by wallet_address (JDict kv)). rewrite Howned.
  destruct (py_getitem (JDict kv) "mint") as [mint |]; cbn [mbind result_bind];
    [| reflexivity].
  destruct (hashable mint); [apply IH | reflexivity].
Qed.

Lemma dict_set_same_balances k b b' d d' :
  same_balances d d' →
  amount_string b = amount_string b' →
  same_balances (dict_set k b d) (dict_set k b' d').
Proof.
  intros Hsame Hb. induction Hsame as [| [k1 v1] [k2 v2] d d' [Hk Hv] Htail IH];
    cbn [dict_set].
  - constructor; [split; [reflexivity | exact Hb] | constructor].
  - cbn [fst snd] in Hk, Hv. subst k2.
    destruct (key_eqb k k1); constructor; try (split; [reflexivity | assumption]);
      assumption.
Qed.

Lemma dict_set_readable mint b d :
  readable d →
  (∃ s a, amount_string b = Some s ∧ py_float s = Ok a) →
  readable (dict_set (JStr mint) b d).
Proof.
  intros Hd Hb. induction Hd as [| [k v] d [Hk Hv] Htail IH]; cbn [dict_set].
  - constructor; [split; [eexists; reflexivity | exact Hb] | constructor].
  - destruct (key_eqb (JStr mint) k); constructor;
      try (split; [exact Hk | assumption]); assumption.
Qed.

Lemma owned_by_mint_same wallet_address entries :
  ∀ entries' d d',
    Forall (well_formed_entry wallet_address) entries →
    Forall (well_formed_entry wallet_address) entries' →
    Forall (λ entry, owned_by wallet_address entry = true) entries →
    Forall (λ entry, owned_by wallet_address entry = true) entries' →
    map (λ entry, (field "mint" entry, amount_string entry)) entries
    = map (λ entry, (field "mint" entry, amount_string entry)) entries' →
    same_balances d d' → readable d → readable d' →
    ∃ r r',
      owned_by_mint wallet_address entries d = Ok r
      ∧ owned_by_mint wallet_address entries' d' = Ok r'
      ∧ same_balances r r' ∧ readable r ∧ readable r'.
Proof.
  induction entries as [| b entries IH];
    intros [| b' entries'] d d' Hwf Hwf' Hown Hown' Hsummary Hsame Hd Hd';
    try discriminate.
  - exists d, d'. auto.
  - cbn [map] in Hsummary. injection Hsummary as Hmint Hamount Hsummary.
    apply Forall_cons in Hwf as [[Hdict Hb] Hwf].
    apply Forall_cons in Hwf' as [[Hdict' Hb'] Hwf'].
    apply Forall_cons in Hown as [Howned Hown].
    apply Forall_cons in Hown' as [Howned' Hown'].
    destruct (Hb Howned) as [[mint Hm] Hreads].
    destruct (Hb' Howned') as [_ Hreads'].
    rewrite Hm in Hmint. symmetry in Hmint.
    assert (Hstep : ∀ x dx,
              isinstance_dict x = true → owned_by wallet_address x = true →
              field "mint" x = JStr mint →
              owned_by_mint wallet_address (x :: entries) dx
              = owned_by_mint wallet_address entries (dict_set (JStr mint) x dx)).
    { intros x dx Hx Hox Hmx.
      destruct x as [| | | | | | kv]; try discriminate.
      cbn [owned_by_mint py_get mbind result_bind].
      unfold owned_by in Hox. cbn [field] in Hox, Hmx. rewrite Hox.
      cbn [py_getitem].
      destruct (assoc "mint" kv) as [m |]; [| discriminate]. subst m.
      reflexivity. }
    assert (Hstep' : ∀ x dx,
              isinstance_dict x = true → owned_by wallet_address x = true →
              field "mint" x = JStr mint →
              owned_by_mint wallet_address (x :: entries') dx
              = owned_by_mint wallet_address entries' (dict_set (JStr mint) x dx)).
    { intros x dx Hx Hox Hmx.
      destruct x as [| | | | | | kv]; try discriminate.
      cbn [owned_by_mint py_get mbind result_bind].
      unfold owned_by in Hox. cbn [field] in Hox, Hmx. rewrite Hox.
      cbn [py_getitem].
      destruct (assoc "mint" kv) as [m |]; [| discriminate]. subst m.
      reflexivity. }
    rewrite (Hstep b d Hdict Howned Hm), (Hstep' b' d' Hdict' Howned' Hmint).
    apply IH; auto using dict_set_same_balances, dict_set_readable.
Qed.

Lemma same_balances_keys d d' : same_balances d d' → map fst d = map fst d'.
Proof.
  induction 1 as [| x y d d' [Hk _] _ IH]; [reflexivity |].
  cbn [map]. now rewrite Hk, IH.
Qed.

(** What [ui_amount] reads off an entry that is a dict. *)
Lemma entry_amount entry s :
  amount_string entry = Some s →
  (ui_token_amount ← py_get entry "uiTokenAmount" (JDict []);
   ui_amount_string ← py_get ui_token_amount "uiAmountString" (JStr "0");
   py_float ui_amount_string) = py_float s.
Proof.
  destruct entry as [| | | | | | kv]; try discriminate.
  cbn [amount_string py_get mbind result_bind].
  destruct (assoc "uiTokenAmount" kv) as [[| | | | | | ui] |]; try discriminate;
    cbn [py_get mbind result_bind assoc]; now intros [= <-].
Qed.

Lemma ui_amount_same d d' :
  same_balances d d' → readable d → readable d' →
  ∀ mint, ui_amount d' mint = ui_amount d mint.
Proof.
  intros Hsame Hd Hd' mint. unfold ui_amount.
  induction Hsame as [| [k v] [k' v'] d d' [Hk Hv] _ IH]; [reflexivity |].
  cbn [fst snd] in Hk, Hv. subst k'.
  apply Forall_cons in Hd as [[_ (s & a & Hs & _)] Hd].
  apply Forall_cons in Hd' as [[_ (s' & a' & Hs' & _)] Hd'].
  cbn [fst snd] in Hs, Hs'.
  cbn [dict_lookup]. destruct (key_eqb mint k); [| now apply IH].
  cbn beta iota zeta.
  rewrite (entry_amount _ _ Hs), (entry_amount _ _ Hs').
  rewrite Hv in Hs. rewrite Hs in Hs'. now injection Hs' as <-.
Qed.

Lemma ui_amount_of_key d mint :
  readable d → mint ∈ map fst d → ∃ a, ui_amount d mint = Ok a.
Proof.
  unfold ui_amount. intros Hd Hin.
  induction Hd as [| [k v] d [[m Hk] (s & a & Hs & Ha)] _ IH]; [inversion Hin |].
  cbn [fst snd] in Hk, Hs. subst k. cbn [map fst] in Hin. cbn [dict_lookup].
  destruct (key_eqb mint (JStr m)) eqn:Heq.
  - cbn beta iota zeta. rewrite (entry_amount _ _ Hs). eauto.
  - apply elem_of_cons in Hin as [-> | Hin]; [| now apply IH].
    cbn [key_eqb] in Heq. now rewrite String.eqb_refl in Heq.
Qed.

Lemma add_keys_origin keys :
  ∀ seen k, k ∈ add_keys keys seen → k ∈ keys ∨ k ∈ seen.
Proof.
  induction keys as [| key keys IH]; intros seen k Hk; cbn [add_keys] in Hk.
  - now right.
  - destruct (existsb (key_eqb key) seen).
    + destruct (IH _ _ Hk); [left; now constructor | now right].
    + destruct (IH _ _ Hk) as [Hin | Hin]; [left; now constructor |].
      apply elem_of_app in Hin as [Hin | Hin]; [now right |].
      apply list_elem_of_singleton in Hin as ->. left. constructor.
Qed.

Lemma token_balances_of_entries meta k wallet_address entries :
  token_entries meta k = Some entries →
  token_balances_of meta k wallet_address = owned_by_mint wallet_address entries [].
Proof.
  unfold token_entries, token_balances_of.
  destruct meta as [| | | | | | kv]; try discriminate.
  cbn [py_get mbind result_bind].
  destruct (assoc k kv) as [[| | | | | entries' |] |]; try discriminate;
    now intros [= <-].
Qed.

(** Token balances of the address that are the same before and after,
    mint by mint, give no token change, whatever the entries of other
    owners are. *)
Lemma owned_balances_unchanged meta wallet_address pre_tokens post_tokens :
  token_entries meta "preTokenBalances" = Some pre_tokens →
  token_entries meta "postTokenBalances" = Some post_tokens →
  Forall (well_formed_entry wallet_address) pre_tokens →
  Forall (well_formed_entry wallet_address) post_tokens →
  owned_balances wallet_address pre_tokens = owned_balances wallet_address post_tokens →
  ∃ pre post,
    token_balances_of meta "preTokenBalances" wallet_address = Ok pre
    ∧ token_balances_of meta "postTokenBalances" wallet_address = Ok post
    ∧ token_changes_of pre post (all_mints_of pre post) = Ok [].
Proof.
  intros Hpre Hpost Hwf Hwf' Hsame.
  rewrite (token_balances_of_entries _ _ _ _ Hpre),
    (token_balances_of_entries _ _ _ _ Hpost).
  rewrite (owned_by_mint_filter _ pre_tokens),
    (owned_by_mint_filter _ post_tokens)
    by (eapply Forall_impl; [eassumption |]; now intros entry [? _]).
  destruct (owned_by_mint_same wallet_address
              (List.filter (owned_by wallet_address) pre_tokens)
              (List.filter (owned_by wallet_address) post_tokens) [] [])
    as (pre & post & -> & -> & Hrel & Hreadable & Hreadable').
  - apply Forall_forall. intros entry [Hin _]%list_elem_of_In%filter_In.
    rewrite Forall_forall in Hwf. apply Hwf. now apply list_elem_of_In.
  - apply Forall_forall. intros entry [Hin _]%list_elem_of_In%filter_In.
    rewrite Forall_forall in Hwf'. apply Hwf'. now apply list_elem_of_In.
  - apply Forall_forall. now intros entry [_ Hown]%list_elem_of_In%filter_In.
  - apply Forall_forall. now intros entry [_ Hown]%list_elem_of_In%filter_In.
  - exact Hsame.
  - constructor.
  - constructor.
  - constructor.
  - exists pre, post. split; [reflexivity |]. split; [reflexivity |].
    apply token_changes_same; [now apply ui_amount_same |].
    intros mint Hmint. apply ui_amount_of_key; [exact Hreadable |].
    unfold all_mints_of in Hmint.
    apply add_keys_origin in Hmint as [Hin | Hin].
    + now rewrite (same_balances_keys _ _ Hrel).
    + apply add_keys_origin in Hin as [Hin | Hin]; [exact Hin | inversion Hin].
Qed.


(** C9: for a transaction that did not fail, in which the balance listed
    at the place of the monitored address goes from 10,000,000,000
    lamports to 9,000,000,000 and the token balances the address owns do
    not change, the native change is
    (9,000,000,000 - 10,000,000,000) / 10^9 = -1 and the message carries
    the line with the label of a sending and the amount 1.000000 SOL,
    whatever the other accounts hold. *)
Theorem sol_outflow_notification get_token_prices kv signature tx_result meta
    wallet_address keys pre post pre_tokens post_tokens :
  assoc "signature" kv = Some signature →
  assoc "transaction" kv = Some tx_result →
  assoc "meta" kv = Some meta →
  truthy (field "err" meta) = false →
  field "accountKeys" (field "message" tx_result) = JList keys →
  field "preBalances" meta = JList pre →
  field "postBalances" meta = JList post →
  balance_of wallet_address keys pre = Some (JInt 10000000000) →
  balance_of wallet_address keys post = Some (JInt 9000000000) →
  token_entries meta "preTokenBalances" = Some pre_tokens →
  token_entries meta "postTokenBalances" = Some post_tokens →
  Forall (well_formed_entry wallet_address) pre_tokens →
  Forall (well_formed_entry wallet_address) post_tokens →
  owned_balances wallet_address pre_tokens = owned_balances wallet_address post_tokens →
  sol_change_of tx_result meta wallet_address = Ok (Qmake (-1000000000) 1000000000)
  ∧ (Qmake (-1000000000) 1000000000 == - (1))%Q
  ∧ format_transaction_notification get_token_prices (JDict kv) wallet_address
    = Ok (sol_message wallet_address signature
            (concat_strings [label_sent; " `1.000000` **SOL**"])).
Proof.
  intros Hsig Htx Hmeta Herr Hkeys Hpre Hpost Hbefore Hafter
    Hpre_tokens Hpost_tokens Hwf Hwf' Hsame.
  assert (Hsol : sol_change_of tx_result meta wallet_address
                 = Ok (Qmake (-1000000000) 1000000000)).
  { rewrite (sol_change_of_lists _ _ _ _ _ _ Hkeys Hpre Hpost).
    rewrite balance_at_index in Hbefore, Hafter.
    destruct (index_of wallet_address keys) as [addr_idx |]; [| discriminate].
    cbn [py_index]. rewrite Hbefore, Hafter. vm_compute. reflexivity. }
  split; [exact Hsol | split; [reflexivity |]].
  destruct (owned_balances_unchanged _ _ _ _ Hpre_tokens Hpost_tokens Hwf Hwf' Hsame)
    as (pre_d & post_d & Hpre_d & Hpost_d & Hchanges).
  unfold format_transaction_notification.
  cbn [py_getitem py_get]. rewrite Hsig, Htx, Hmeta. cbn [mbind result_bind].
  rewrite (failed_or_malformed_lists _ _ _ _ Hkeys Hpre), Herr.
  cbn [mbind result_bind].
  rewrite Hsol. cbn [mbind result_bind].
  rewrite Hpre_d, Hpost_d. cbn [mbind result_bind].
  rewrite Hchanges. cbn [mbind result_bind].
  reflexivity.
Qed.

End Formatter.

(** An entry of the fixtures is well formed. *)
Ltac fixture_entry :=
  split;
    [reflexivity
    | let Hown := fresh "Hown" in
      intros Hown; vm_compute in Hown;
      first [discriminate Hown
            | split; [eexists; reflexivity
                     | eexists _, _; split; [reflexivity | vm_compute; reflexivity]]]].

Ltac fixture_entries :=
  repeat (apply Forall_cons; split; [fixture_entry |]); apply Forall_nil; exact I.


Lemma sol_outflow_notification_witness :
  balance_of "my_wallet" [JStr "other_wallet"; JStr "my_wallet"]
    [JInt 5000000000; JInt 10000000000] = Some (JInt 10000000000)
  ∧ format_transaction_notification (H := Sample.runtime) no_prices
      (JDict second_account_outflow) "my_wallet"
    = Ok (sol_message (H := Sample.runtime) "my_wallet" (JStr "sig_789")
            (concat_strings [label_sent; " `1.000000` **SOL**"])).
Proof.
  split; [reflexivity |].
  eapply (proj2 (proj2 (sol_outflow_notification (H := Sample.runtime) no_prices
            second_account_outflow _ _ _ "my_wallet" _ _ _ _ _
            eq_refl eq_refl eq_refl eq_refl eq_refl eq_refl eq_refl eq_refl eq_refl
            eq_refl eq_refl _ _ eq_refl))).
  Unshelve.
  - fixture_entries.
  - fixture_entries.
Defined.

End MonitoringFacts.

(** ** More on the transport *)

Module TransportTraceFacts.
Import SolanaClient TransportTrace Fixtures.

Section Transport.
Context `{Runtime}.

Lemma post_ids_app tr1 tr2 : post_ids (tr1 ++ tr2) = post_ids tr1 ++ post_ids tr2.
Proof.
  induction tr1 as [| e tr1 IH]; [reflexivity |].
  destruct e; cbn [app post_ids]; now rewrite IH.
Qed.

Lemma sleeps_app tr1 tr2 : sleeps (tr1 ++ tr2) = sleeps tr1 ++ sleeps tr2.
Proof.
  induction tr1 as [| e tr1 IH]; [reflexivity |].
  destruct e; cbn [app sleeps]; now rewrite IH.
Qed.

(** One round of the retry loop, case by case on the reply. *)
Lemma attempts_round net method params retry_count remaining attempt c :
  attempts net method params retry_count (S remaining) attempt c =
    let post := Post (request_id c) method params in
    let c1 := set_request_id c (request_id c + 1) in
    let go_on :=
      let '(r, c2, tr) :=
        attempts net method params retry_count remaining (S attempt) c1 in
      (r, c2, post :: Sleep (2 ^ Z.of_nat attempt) :: tr) in
    let except (e : exn) :=
      if Nat.eqb (S attempt) retry_count then (Raise e, c1, [post]) else go_on in
    match net attempt with
    | Status429 => go_on
    | Status403 => except auth_failed
    | Failure => except ClientError
    | Success body =>
        (Ok body,
         if String.eqb method "getTransaction"
         then cache_store c1 (cache_key method params) body else c1,
         [post])
    end.
Proof. reflexivity. Qed.

(** The posts of the retry loop carry consecutive request ids, there are
    no more of them than rounds, the counter ends past the last id used,
    and the loop touches neither the semaphore nor its events. *)
Lemma attempts_accounting net method params retry_count remaining :
  ∀ attempt c,
    let '(r, c', tr) := attempts net method params retry_count remaining attempt c in
    post_ids tr = seqZ (request_id c) (Z.of_nat (length (post_ids tr)))
    ∧ (length (post_ids tr) ≤ remaining)%nat
    ∧ request_id c' = request_id c + Z.of_nat (length (post_ids tr))
    ∧ semaphore c' = semaphore c
    ∧ forallb (λ e, negb (is_slot_event e)) tr = true.
Proof.
  induction remaining as [| remaining IH]; intros attempt c.
  - cbn. repeat split; lia.
  - rewrite attempts_round. cbn zeta.
    specialize (IH (S attempt) (set_request_id c (request_id c + 1))).
    destruct (attempts net method params retry_count remaining (S attempt)
                (set_request_id c (request_id c + 1))) as [[r c2] tr].
    destruct IH as (Hids & Hlen & Hrid & Hsem & Hslots).
    cbn [request_id semaphore set_request_id] in *.
    assert (Hgo :
      post_ids (Post (request_id c) method params
                  :: Sleep (2 ^ Z.of_nat attempt) :: tr)
      = seqZ (request_id c)
          (Z.of_nat (length (post_ids (Post (request_id c) method params
                                         :: Sleep (2 ^ Z.of_nat attempt) :: tr))))).
    { cbn [post_ids length]. rewrite Nat2Z.inj_succ, seqZ_cons by lia.
      f_equal. rewrite Hids at 1. f_equal; lia. }
    destruct (net attempt);
      try destruct (Nat.eqb (S attempt) retry_count);
      try destruct (String.eqb method "getTransaction");
      cbn [post_ids sleeps length request_id semaphore set_request_id cache_store
           forallb is_slot_event negb andb];
      repeat split; try exact Hgo; try assumption; try reflexivity; try lia.
Qed.

(** The cache after the retry loop: as before, or, for a [getTransaction]
    that succeeded, with the body stored under the key of the call. *)
Lemma attempts_cache net method params retry_count remaining :
  ∀ attempt c,
    let '(r, c', tr) := attempts net method params retry_count remaining attempt c in
    transaction_cache c' = transaction_cache c
    ∨ (String.eqb method "getTransaction" = true
       ∧ ∃ body, r = Ok body
                 ∧ transaction_cache c'
                   = <[cache_key method params := body]> (transaction_cache c)).
Proof.
  induction remaining as [| remaining IH]; intros attempt c.
  - cbn. now left.
  - rewrite attempts_round. cbn zeta.
    specialize (IH (S attempt) (set_request_id c (request_id c + 1))).
    destruct (attempts net method params retry_count remaining (S attempt)
                (set_request_id c (request_id c + 1))) as [[r c2] tr].
    cbn [transaction_cache set_request_id] in IH.
    destruct (net attempt);
      try destruct (Nat.eqb (S attempt) retry_count);
      try exact IH; try (now left).
    all: destruct (String.eqb method "getTransaction") eqn:Hmethod; [| now left].
    all: right; split; [reflexivity |]; exists body; split; reflexivity.
Qed.

(** Rounds answered by 429 up to a round that succeeds. *)
Lemma attempts_429_then_success net method params retry_count body k :
  ∀ remaining attempt c,
    (∀ j, (j < k)%nat → net (attempt + j)%nat = Status429) →
    net (attempt + k)%nat = Success body →
    (k < remaining)%nat →
    ∃ tr,
      attempts net method params retry_count remaining attempt c =
        (Ok body,
         (if String.eqb method "getTransaction"
          then cache_store (set_request_id c (request_id c + Z.of_nat k + 1))
                 (cache_key method params) body
          else set_request_id c (request_id c + Z.of_nat k + 1)),
         tr)
      ∧ post_ids tr = seqZ (request_id c) (Z.of_nat k + 1)
      ∧ sleeps tr = backoff attempt k.
Proof.
  induction k as [| k IH]; intros remaining attempt c Hlimited Hok Hk;
    (destruct remaining as [| remaining]; [lia |]); rewrite attempts_round; cbn zeta.
  - rewrite Nat.add_0_r in Hok. rewrite Hok.
    eexists. split.
    { replace (request_id c + Z.of_nat 0 + 1) with (request_id c + 1) by lia.
      reflexivity. }
    split; reflexivity.
  - rewrite <- (Nat.add_0_r attempt), (Hlimited 0%nat) by lia.
    rewrite Nat.add_0_r.
    destruct (IH remaining (S attempt) (set_request_id c (request_id c + 1)))
      as (tr & Hrun & Hids & Hsleeps).
    + intros j Hj. replace (S attempt + j)%nat with (attempt + S j)%nat by lia.
      apply Hlimited. lia.
    + now replace (S attempt + k)%nat with (attempt + S k)%nat by lia.
    + lia.
    + rewrite Hrun. cbn [request_id set_request_id] in *.
      eexists. split; [| split].
      * replace (request_id c + 1 + Z.of_nat k + 1)
          with (request_id c + Z.of_nat (S k) + 1) by lia.
        reflexivity.
      * cbn [post_ids]. rewrite Hids.
        replace (Z.of_nat (S k) + 1) with (Z.succ (Z.of_nat k + 1)) by lia.
        rewrite (seqZ_cons (request_id c)) by lia. f_equal. f_equal; lia.
      * cbn [sleeps backoff]. now rewrite Hsleeps.
Qed.

(** Rounds none of which succeeds, to the end of the loop: the last reply
    decides between the error value and an exception, and only a 429 is
    followed by a sleep in the last round. *)
Lemma attempts_exhausted net method params retry_count remaining :
  ∀ attempt c,
    (attempt + S remaining = retry_count)%nat →
    (∀ j, (j ≤ remaining)%nat → ∀ body, net (attempt + j)%nat ≠ Success body) →
    ∃ tr,
      attempts net method params retry_count (S remaining) attempt c =
        (match net (attempt + remaining)%nat with
         | Status403 => Raise auth_failed
         | Failure => Raise ClientError
         | _ => Ok max_retries_reached
         end,
         set_request_id c (request_id c + Z.of_nat (S remaining)), tr)
      ∧ post_ids tr = seqZ (request_id c) (Z.of_nat (S remaining))
      ∧ sleeps tr =
          backoff attempt
            (match net (attempt + remaining)%nat with
             | Status429 => S remaining
             | _ => remaining
             end).
Proof.
  induction remaining as [| remaining IH]; intros attempt c Hcount Hnone;
    rewrite attempts_round; cbn zeta.
  - rewrite Nat.add_0_r. pose proof (Hnone 0%nat ltac:(lia)) as Hhere.
    rewrite Nat.add_0_r in Hhere.
    replace (Nat.eqb (S attempt) retry_count) with true
      by (symmetry; apply Nat.eqb_eq; lia).
    cbn [attempts].
    destruct (net attempt) as [| | body |]; try (now destruct (Hhere body));
      eexists; (split; [reflexivity | split; reflexivity]).
  - replace (Nat.eqb (S attempt) retry_count) with false
      by (symmetry; apply Nat.eqb_neq; lia).
    destruct (IH (S attempt) (set_request_id c (request_id c + 1)))
      as (tr & Hrun & Hids & Hsleeps).
    + lia.
    + intros j Hj. replace (S attempt + j)%nat with (attempt + S j)%nat by lia.
      apply Hnone. lia.
    + replace (S attempt + remaining)%nat with (attempt + S remaining)%nat in * by lia.
      pose proof (Hnone 0%nat ltac:(lia)) as Hhere. rewrite Nat.add_0_r in Hhere.
      rewrite Hrun. cbn [request_id set_request_id] in *.
      assert (Hgo :
        ∃ tr',
          (match net (attempt + S remaining)%nat with
           | Status403 => Raise auth_failed
           | Failure => Raise ClientError
           | _ => Ok max_retries_reached
           end,
           set_request_id (set_request_id c (request_id c + 1))
             (request_id c + 1 + Z.of_nat (S remaining)),
           Post (request_id c) method params :: Sleep (2 ^ Z.of_nat attempt) :: tr)
          = (match net (attempt + S remaining)%nat with
             | Status403 => Raise auth_failed
             | Failure => Raise ClientError
             | _ => Ok max_retries_reached
             end,
             set_request_id c (request_id c + Z.of_nat (S (S remaining))), tr')
          ∧ post_ids tr' = seqZ (request_id c) (Z.of_nat (S (S remaining)))
          ∧ sleeps tr' =
              backoff attempt
                (match net (attempt + S remaining)%nat with
                 | Status429 => S (S remaining)
                 | _ => S remaining
                 end)).
      { eexists. split; [| split].
        - unfold set_request_id. cbn. do 2 f_equal. f_equal. lia.
        - cbn [post_ids]. rewrite Hids.
          rewrite (Nat2Z.inj_succ (S remaining)), (seqZ_cons (request_id c)) by lia.
          f_equal. f_equal; lia.
        - cbn [sleeps]. rewrite Hsleeps.
          now destruct (net (attempt + S remaining)%nat). }
      destruct (net attempt) as [| | body |]; try (now destruct (Hhere body));
        exact Hgo.
Qed.

(** X2: whatever the replies, and also when the call ends in an exception,
    the slot taken is given back: the semaphore ends as it began, and the
    trace of a call that returned is an [Acquire], events that do not touch
    the semaphore, and a [Release]. *)
Theorem slot_is_given_back net method params retry_count c :
  let result := _make_request net method params retry_count c in
  semaphore result.1.2 = semaphore c
  ∧ ((result.1.1 = Waiting ∧ result.2 = [] ∧ semaphore c = O)
     ∨ (∃ r inner,
          result.1.1 = Done r
          ∧ result.2 = Acquire :: inner ++ [Release]
          ∧ forallb (λ e, negb (is_slot_event e)) inner = true)).
Proof.
  cbn zeta. unfold _make_request.
  destruct (semaphore c) as [| free] eqn:Hsem; [cbn; split; [| left]; auto |].
  destruct (if String.eqb method "getTransaction"
            then transaction_cache c !! cache_key method params else None)
    as [cached |].
  { cbn. split; [reflexivity |]. right. exists (Ok cached), []. auto. }
  pose proof (attempts_accounting net method params retry_count retry_count 0%nat
                (set_semaphore c free)) as Hloop.
  destruct (attempts net method params retry_count retry_count 0
              (set_semaphore c free)) as [[r c'] tr].
  destruct Hloop as (_ & _ & _ & _ & Hslots).
  cbn. split; [reflexivity |]. right. exists r, tr. auto.
Qed.

(** A call whose first success comes after [k] replies of 429. *)
Lemma make_request_429_then_success net method params retry_count c free k body :
  semaphore c = S free →
  cache_miss method params c →
  (∀ j, (j < k)%nat → net j = Status429) →
  net k = Success body →
  (k < retry_count)%nat →
  ∃ c' tr,
    _make_request net method params retry_count c = (Done (Ok body), c', tr)
    ∧ post_ids tr = seqZ (request_id c) (Z.of_nat k + 1)
    ∧ sleeps tr = backoff 0 k
    ∧ semaphore c' = semaphore c
    ∧ transaction_cache c' =
        (if String.eqb method "getTransaction"
         then <[cache_key method params := body]> (transaction_cache c)
         else transaction_cache c).
Proof.
  intros Hsem Hmiss Hlimited Hok Hk. unfold _make_request. rewrite Hsem.
  assert (Hnohit : (if String.eqb method "getTransaction"
                    then transaction_cache c !! cache_key method params
                    else None) = None).
  { destruct Hmiss as [-> | Hnone]; [reflexivity |].
    now destruct (String.eqb method "getTransaction"). }
  rewrite Hnohit.
  destruct (attempts_429_then_success net method params retry_count body k
              retry_count 0%nat (set_semaphore c free) Hlimited Hok Hk)
    as (tr & Hrun & Hids & Hsleeps).
  rewrite Hrun. eexists _, _. split; [reflexivity |].
  cbn [post_ids sleeps]. rewrite post_ids_app, sleeps_app.
  cbn [post_ids sleeps]. rewrite !app_nil_r.
  split; [exact Hids |]. split; [exact Hsleeps |]. split.
  - reflexivity.
  - now destruct (String.eqb method "getTransaction").
Qed.

(** X3: when the first [k] posts are answered by 429 and the next one
    succeeds within the retry budget, a call that misses the cache returns
    the body of the success after [k + 1] posts and sleeps of 1, 2, ...,
    [2^(k-1)] seconds, and a [getTransaction] leaves that body in the cache
    under the key of the call. *)
Theorem rate_limited_then_success net method params retry_count c free k body :
  semaphore c = S free →
  cache_miss method params c →
  (∀ j, (j < k)%nat → net j = Status429) →
  net k = Success body →
  (k < retry_count)%nat →
  ∃ c' tr,
    _make_request net method params retry_count c = (Done (Ok body), c', tr)
    ∧ post_ids tr = seqZ (request_id c) (Z.of_nat k + 1)
    ∧ sleeps tr = backoff 0 k
    ∧ semaphore c' = semaphore c
    ∧ transaction_cache c' =
        (if String.eqb method "getTransaction"
         then <[cache_key method params := body]> (transaction_cache c)
         else transaction_cache c).
Proof. apply make_request_429_then_success. Qed.

(** X4: when none of the [retry_count] replies is a success, a call that
    misses the cache posts [retry_count] times and the last reply decides
    the outcome: after a 429 it returns the value
    [{"error": "Max retries reached"}] without raising, having slept after
    every post, the last one included; after a 403 or a failure it raises
    that exception, having slept only between the posts. The cache is left
    as it was. *)
Theorem retries_exhausted net method params retry_count c free last :
  semaphore c = S free →
  cache_miss method params c →
  retry_count = S last →
  (∀ j, (j ≤ last)%nat → ∀ body, net j ≠ Success body) →
  ∃ c' tr,
    _make_request net method params retry_count c =
      (Done (match net last with
             | Status403 => Raise auth_failed
             | Failure => Raise ClientError
             | _ => Ok max_retries_reached
             end), c', tr)
    ∧ post_ids tr = seqZ (request_id c) (Z.of_nat retry_count)
    ∧ sleeps tr = backoff 0 (match net last with
                             | Status429 => retry_count
                             | _ => last
                             end)
    ∧ transaction_cache c' = transaction_cache c.
Proof.
  intros Hsem Hmiss -> Hnone. unfold _make_request. rewrite Hsem.
  assert (Hnohit : (if String.eqb method "getTransaction"
                    then transaction_cache c !! cache_key method params
                    else None) = None).
  { destruct Hmiss as [-> | Hmiss]; [reflexivity |].
    now destruct (String.eqb method "getTransaction"). }
  rewrite Hnohit.
  destruct (attempts_exhausted net method params (S last) last 0%nat
              (set_semaphore c free) eq_refl Hnone)
    as (tr & Hrun & Hids & Hsleeps).
  cbn [Nat.add] in Hrun, Hsleeps. rewrite Hrun.
  eexists _, _. split; [reflexivity |].
  cbn [post_ids sleeps]. rewrite post_ids_app, sleeps_app.
  cbn [post_ids sleeps]. rewrite !app_nil_r.
  split; [exact Hids |]. split; [exact Hsleeps |]. reflexivity.
Qed.

(** X5: a [getTransaction] that succeeds on its first post is answered
    from the cache ever after: a second call with the same parameters
    returns the same body without a post and without touching the counter,
    whatever the network would answer. *)
Theorem cached_after_success net net' params retry_count retry_count' c free body :
  semaphore c = S free →
  transaction_cache c !! cache_key "getTransaction" params = None →
  net O = Success body →
  (0 < retry_count)%nat →
  ∃ c1 tr,
    _make_request net "getTransaction" params retry_count c = (Done (Ok body), c1, tr)
    ∧ _make_request net' "getTransaction" params retry_count' c1
      = (Done (Ok body), c1, [Acquire; Release]).
Proof.
  intros Hsem Hnone Hok Hcount.
  destruct (make_request_429_then_success net "getTransaction" params retry_count
              c free 0 body Hsem (or_intror Hnone))
    as (c1 & tr & Hrun & _ & _ & Hsem1 & Hcache);
    [intros j Hj; lia | exact Hok | exact Hcount |].
  exists c1, tr. split; [exact Hrun |].
  apply SolanaClientFacts.cache_hit_run with free.
  - now rewrite Hsem1.
  - rewrite Hcache. cbn [String.eqb]. apply lookup_insert_eq.
Qed.

End Transport.

Lemma rate_limited_then_success_witness :
  ∃ c' tr,
    _make_request (H := Sample.runtime) limited_twice "getAccountInfo"
      account_params 3 init = (Done (Ok success_body), c', tr)
    ∧ post_ids tr = seqZ 1 3
    ∧ sleeps tr = [1; 2]
    ∧ semaphore c' = 50%nat
    ∧ transaction_cache c' = ∅.
Proof.
  apply (rate_limited_then_success (H := Sample.runtime) limited_twice
           "getAccountInfo" account_params 3 init 49 2 success_body).
  - reflexivity.
  - left. reflexivity.
  - intros j Hj. destruct j as [| [| j]]; [reflexivity | reflexivity | lia].
  - reflexivity.
  - lia.
Defined.

Lemma retries_exhausted_witness :
  ∃ c' tr,
    _make_request (H := Sample.runtime) never_succeeds "getTransaction"
      cached_params 3 init = (Done (Raise auth_failed), c', tr)
    ∧ post_ids tr = seqZ 1 3
    ∧ sleeps tr = [1; 2]
    ∧ transaction_cache c' = ∅.
Proof.
  apply (retries_exhausted (H := Sample.runtime) never_succeeds "getTransaction"
           cached_params 3 init 49 2).
  - reflexivity.
  - right. reflexivity.
  - reflexivity.
  - intros j Hj body. destruct j as [| [| [| j]]]; [discriminate .. | lia].
Defined.

Lemma cached_after_success_witness :
  ∃ c1 tr,
    _make_request (H := Sample.runtime) (λ _, Success cached_reply) "getTransaction"
      cached_params 3 init = (Done (Ok cached_reply), c1, tr)
    ∧ _make_request (H := Sample.runtime) (λ _, Failure) "getTransaction"
        cached_params 1 c1 = (Done (Ok cached_reply), c1, [Acquire; Release]).
Proof.
  apply (cached_after_success (H := Sample.runtime) (λ _, Success cached_reply)
           (λ _, Failure) cached_params 3 1 init 49 cached_reply).
  - reflexivity.
  - reflexivity.
  - reflexivity.
  - lia.
Defined.

End TransportTraceFacts.

(** ** The constructor of the client *)

Module ClientInitFacts.
Import ClientInit.

Lemma split_not_nil sep s : split sep s ≠ [].
Proof.
  destruct s as [| c rest]; cbn [split]; [discriminate |].
  destruct (Ascii.eqb c sep); [discriminate |].
  destruct (split sep rest); discriminate.
Qed.

(** The last segment of a split is what follows the last separator. *)
Lemma last_segment sep s :
  ∃ before key,
    last (split sep s) = Some key
    ∧ s = String.append before key
    ∧ has_char sep key = false
    ∧ empty_or_ends_in sep before = true
    ∧ ((before = EmptyString ∧ split sep s = [s])
       ∨ (before ≠ EmptyString ∧ ∃ seg seg' segs, split sep s = seg :: seg' :: segs)).
Proof.
  induction s as [| c rest IH].
  - exists EmptyString, EmptyString. cbn. repeat split; auto.
  - destruct IH as (before & key & Hlast & Hrest & Hkey & Hbefore & Hshape).
    cbn [split]. destruct (Ascii.eqb_spec c sep) as [-> | Hc].
    + exists (String sep before), key. split.
      { destruct (split sep rest) as [| seg segs] eqn:Hsplit;
          [now destruct (split_not_nil sep rest) |].
        exact Hlast. }
      split; [cbn; now rewrite Hrest |]. split; [exact Hkey |]. split.
      { cbn [empty_or_ends_in]. destruct before; [apply Ascii.eqb_refl | exact Hbefore]. }
      right. split; [discriminate |].
      destruct (split sep rest) as [| seg segs] eqn:Hsplit;
        [now destruct (split_not_nil sep rest) |].
      eauto.
    + destruct Hshape as [[-> Hone] | (Hne & seg & seg' & segs & Hmany)].
      * exists EmptyString, (String c key). rewrite Hone. cbn in Hrest. subst rest.
        cbn. apply Ascii.eqb_neq in Hc. rewrite Hc, Hkey. repeat split; auto.
      * exists (String c before), key. rewrite Hmany in *. split; [exact Hlast |].
        split; [cbn; now rewrite Hrest |]. split; [exact Hkey |]. split.
        { cbn [empty_or_ends_in]. destruct before; [contradiction | exact Hbefore]. }
        right. split; [discriminate |]. eauto.
Qed.

(** X7: the headers always hold the JSON content type and accept type.
    When [alchemy] occurs in the URL, in any letter case, the
    [Authorization] header is [Bearer] followed by what comes after the
    last slash of the URL, which is empty when the URL ends in a slash;
    otherwise the two JSON headers are all there is. An empty URL stands
    for the public mainnet endpoint. *)
Theorem bearer_is_last_segment rpc_url :
  header "Content-Type" (headers_of rpc_url) = Some "application/json"
  ∧ header "Accept" (headers_of rpc_url) = Some "application/json"
  ∧ (if substring_of "alchemy" (lower (rpc_url_of rpc_url))
     then ∃ before key,
            rpc_url_of rpc_url = String.append before key
            ∧ has_char "/" key = false
            ∧ empty_or_ends_in "/" before = true
            ∧ header "Authorization" (headers_of rpc_url)
              = Some (String.append "Bearer " key)
     else headers_of rpc_url = base_headers)
  ∧ rpc_url_of EmptyString = DEFAULT_RPC.
Proof.
  unfold headers_of.
  destruct (substring_of "alchemy" (lower (rpc_url_of rpc_url))).
  - split; [reflexivity |]. split; [reflexivity |]. split; [| reflexivity].
    destruct (last_segment "/" (rpc_url_of rpc_url))
      as (before & key & Hlast & Hurl & Hkey & Hbefore & _).
    exists before, key. repeat split; try assumption.
    cbn. unfold api_key_of. now rewrite Hlast.
  - repeat split; reflexivity.
Qed.

(** An Alchemy URL in capitals, and one that ends in a slash. *)
Example alchemy_headers :
  header "Authorization" (headers_of "https://solana-mainnet.g.ALCHEMY.com/v2/KEY123")
    = Some "Bearer KEY123"
  ∧ header "Authorization" (headers_of "https://solana-mainnet.g.alchemy.com/v2/")
    = Some "Bearer "
  ∧ header "Authorization" (headers_of "https://example.quiknode.pro/KEY123") = None.
Proof. repeat split; reflexivity. Qed.

End ClientInitFacts.

(** ** The address of the stream *)

Module MonitorUrlFacts.
Import MonitorUrl.

Lemma prefix_shorter a b s :
  String.prefix (String.append a b) s = true → String.prefix a s = true.
Proof.
  revert s. induction a as [| c a IH]; intros s; [now destruct s |].
  destruct s as [| d s]; simpl; [discriminate |].
  destruct (Ascii.ascii_dec c d); [apply IH | discriminate].
Qed.

Lemma occurs_shorter a b s :
  occurs a s = false → occurs (String.append a b) s = false.
Proof.
  induction s as [| c s IH]; cbn [occurs]; intros Habsent;
    apply orb_false_iff in Habsent as [Hhere Hlater];
    apply orb_false_iff; (split; [| auto]);
    destruct (String.prefix (String.append a b) _) eqn:Hp; try reflexivity;
    apply prefix_shorter in Hp; congruence.
Qed.

(** Where [old] does not occur, nothing is replaced. *)
Lemma replace_absent old new s :
  occurs old s = false → replace_from old new 0 s = s.
Proof.
  induction s as [| c s IH]; [reflexivity |].
  cbn [occurs replace_from]. intros Habsent.
  apply orb_false_iff in Habsent as [Hhere Hlater].
  rewrite Hhere. now rewrite IH.
Qed.

(** X8: for a URL whose remainder after the scheme has no [http] in it,
    the stream address is the URL with [https://] turned into [wss://] and
    [http://] into [ws://]. *)
Theorem ws_url_swaps_scheme rest :
  occurs "http" rest = false →
  ws_url_of (String.append "https://" rest) = String.append "wss://" rest
  ∧ ws_url_of (String.append "http://" rest) = String.append "ws://" rest.
Proof.
  intros Habsent.
  pose proof (occurs_shorter "http" "s" rest Habsent) as Habsent'.
  cbn [String.append] in Habsent'.
  unfold ws_url_of, replace. split.
  - change (replace_from "https" "wss" 0 (String.append "https://" rest))
      with (String.append "wss://" (replace_from "https" "wss" 0 rest)).
    rewrite (replace_absent "https" "wss" rest Habsent').
    change (replace_from "http" "ws" 0 (String.append "wss://" rest))
      with (String.append "wss://" (replace_from "http" "ws" 0 rest)).
    now rewrite (replace_absent "http" "ws" rest Habsent).
  - change (replace_from "https" "wss" 0 (String.append "http://" rest))
      with (String.append "http://" (replace_from "https" "wss" 0 rest)).
    rewrite (replace_absent "https" "wss" rest Habsent').
    change (replace_from "http" "ws" 0 (String.append "http://" rest))
      with (String.append "ws://" (replace_from "http" "ws" 0 rest)).
    now rewrite (replace_absent "http" "ws" rest Habsent).
Qed.

Lemma ws_url_swaps_scheme_witness :
  ws_url_of "https://api.mainnet-beta.solana.com" = "wss://api.mainnet-beta.solana.com"
  ∧ ws_url_of "http://api.mainnet-beta.solana.com" = "ws://api.mainnet-beta.solana.com".
Proof.
  apply (ws_url_swaps_scheme "api.mainnet-beta.solana.com"). reflexivity.
Defined.

(** The replacement is not confined to the scheme: an [http] or [https]
    further on in the URL is rewritten as well. *)
Example ws_url_rewrites_path :
  ws_url_of "https://rpc.example.com/http-gateway/https"
    = "wss://rpc.example.com/ws-gateway/wss".
Proof. reflexivity. Qed.

End MonitorUrlFacts.

(** ** The price lookup *)

Module PricesFacts.
Import Prices.

(** A price entry is a dict with the one key ["value"], bound to a value
    that is not null. *)
Lemma price_of_data_entry data p :
  price_of_data data = Ok (Some p) →
  ∃ v, p = JDict [("value", v)] ∧ v ≠ JNull.
Proof.
  unfold price_of_data. intros Hrun.
  destruct (py_get data "success" JNull) as [success |]; [| discriminate].
  cbn [mbind result_bind] in Hrun.
  destruct (truthy success); [| discriminate].
  destruct (py_contains "data" data) as [[|] |]; cbn [mbind result_bind] in Hrun;
    try discriminate.
  destruct (py_get data "data" JNull) as [inner |]; [| discriminate].
  cbn [mbind result_bind] in Hrun.
  destruct (truthy inner); [| discriminate].
  destruct (py_getitem data "data") as [inner' |]; [| discriminate].
  cbn [mbind result_bind] in Hrun.
  destruct (py_get inner' "value" JNull) as [v |]; [| discriminate].
  cbn [mbind result_bind] in Hrun.
  destruct v; try discriminate; injection Hrun as <-; eexists; split;
    try reflexivity; discriminate.
Qed.

Lemma price_attempts_entry reply remaining :
  ∀ attempt delay p,
    (price_attempts reply remaining attempt delay).1.1 = Some p →
    ∃ v, p = JDict [("value", v)] ∧ v ≠ JNull.
Proof.
  induction remaining as [| remaining IH]; intros attempt delay p;
    cbn [price_attempts]; [discriminate |].
  assert (Hretry :
    (if Nat.ltb attempt (PRICE_MAX_RETRIES - 1)
     then
       let '(p0, requests, slept) :=
         price_attempts reply remaining (S attempt) (delay * 2) in
       (p0, S requests, delay :: slept)
     else
       let '(p0, requests, slept) :=
         price_attempts reply remaining (S attempt) delay in
       (p0, S requests, slept)).1.1 = Some p →
    ∃ v, p = JDict [("value", v)] ∧ v ≠ JNull).
  { destruct (Nat.ltb attempt (PRICE_MAX_RETRIES - 1)).
    - specialize (IH (S attempt) (delay * 2) p).
      destruct (price_attempts reply remaining (S attempt) (delay * 2)) as [[? ?] ?].
      exact IH.
    - specialize (IH (S attempt) delay p).
      destruct (price_attempts reply remaining (S attempt) delay) as [[? ?] ?].
      exact IH. }
  destruct (reply attempt) as [data | status_code |]; try exact Hretry.
  - destruct (price_of_data data) as [price_info |] eqn:Hdata; [| exact Hretry].
    cbn. intros ->. now apply price_of_data_entry with data.
  - destruct (Z.eqb status_code 404); [discriminate | exact Hretry].
Qed.

(** The lookup of one token, by the first reply that is not retried. *)
Lemma fetch_one_price_decided reply :
  _fetch_one_price reply =
    match first_final reply with
    | Some k => (final_price (reply k), S k, take k [1; 2])
    | None => (None, 3%nat, [1; 2])
    end.
Proof.
  unfold _fetch_one_price, first_final, retried, PRICE_MAX_RETRIES.
  cbn [price_attempts Nat.ltb Nat.leb Nat.sub].
  destruct (reply 0%nat) as [d0 | s0 |] eqn:H0;
    destruct (reply 1%nat) as [d1 | s1 |] eqn:H1;
    destruct (reply 2%nat) as [d2 | s2 |] eqn:H2;
    repeat match goal with
           | |- context [price_of_data ?d] =>
               let E := fresh "E" in destruct (price_of_data d) eqn:E
           | |- context [Z.eqb ?s 404] =>
               let E := fresh "E" in destruct (Z.eqb s 404) eqn:E
           end;
    cbn [negb]; rewrite ?H0, ?H1, ?H2; unfold final_price;
    repeat match goal with
           | E : price_of_data _ = _ |- _ => rewrite E; clear E
           end;
    reflexivity.
Qed.

(** X9: the first of the three replies that is not retried decides the
    lookup of one token: its price entry or [None] is returned after that
    many requests, with sleeps of 1 and 2 seconds between them. A reply is
    retried unless it is a body that reads without exception or a 404, so
    a 404 ends the lookup at once; three retried replies give [None] after
    three requests. *)
Theorem first_final_reply_decides reply :
  _fetch_one_price reply =
    match first_final reply with
    | Some k => (final_price (reply k), S k, take k [1; 2])
    | None => (None, 3%nat, [1; 2])
    end.
Proof. apply fetch_one_price_decided. Qed.

(** X10: every entry of the dict that [get_token_prices] returns is for
    one of the addresses asked for and is a dict [{"value": v}] with [v]
    not null; no address has two entries; each distinct address is looked
    up once, with at most three requests; and without addresses, or with a
    key that is missing, empty or the placeholder, nothing is requested
    and the dict is empty. *)
Theorem prices_only_for_requested replies token_addresses api_key :
  let result := get_token_prices replies token_addresses api_key in
  (∀ address p, (address, p) ∈ result.1 →
     address ∈ token_addresses ∧ ∃ v, p = JDict [("value", v)] ∧ v ≠ JNull)
  ∧ NoDup (result.1).*1
  ∧ Forall (λ t, (t.1.2 ≤ 3)%nat) result.2
  ∧ (token_addresses = [] ∨ key_missing api_key = true → result = ([], []))
  ∧ (token_addresses ≠ [] → key_missing api_key = false →
     (result.2).*1.*1 = remove_dups token_addresses).
Proof.
  cbn zeta. unfold get_token_prices.
  destruct token_addresses as [| a0 rest]; [cbn; repeat split; try constructor;
    intros; try inversion H; try reflexivity; congruence |].
  destruct (key_missing api_key); [cbn; repeat split; try constructor;
    intros; try inversion H; try reflexivity; congruence |].
  set (addresses := remove_dups (a0 :: rest)).
  assert (Hnodup : NoDup addresses) by apply NoDup_remove_dups.
  assert (Hsub : ∀ a, a ∈ addresses → a ∈ a0 :: rest)
    by (intros a; apply elem_of_remove_dups).
  clearbody addresses. cbn [fst snd].
  split; [| split; [| split; [| split]]].
  - intros address p Hin.
    induction addresses as [| a addresses IH]; [inversion Hin |].
    cbn [map formatted_prices] in Hin.
    destruct (_fetch_one_price (replies a)) as [[price_info requests] slept] eqn:Hfetch.
    assert (Hentry : ∀ q, price_info = Some q → ∃ v, q = JDict [("value", v)] ∧ v ≠ JNull).
    { intros q ->. unfold _fetch_one_price in Hfetch.
      apply (price_attempts_entry (replies a) PRICE_MAX_RETRIES 0%nat 1 q).
      now rewrite Hfetch. }
    destruct price_info as [q |].
    + destruct (truthy q).
      * apply elem_of_cons in Hin as [[= -> ->] | Hin].
        -- split; [apply Hsub; now left | now apply Hentry].
        -- apply IH; [now inversion Hnodup | intros; apply Hsub; now right | exact Hin].
      * apply IH; [now inversion Hnodup | intros; apply Hsub; now right | exact Hin].
    + apply IH; [now inversion Hnodup | intros; apply Hsub; now right | exact Hin].
  - clear Hsub. induction Hnodup as [| a addresses Hnotin Hnodup IH]; [constructor |].
    cbn [map formatted_prices].
    destruct (_fetch_one_price (replies a)) as [[[q |] requests] slept];
      [destruct (truthy q) | ]; try exact IH.
    cbn [fmap list_fmap fst]. constructor; [| exact IH].
    intros Hin. apply Hnotin. clear -Hin.
    induction addresses as [| b addresses IH]; [inversion Hin |].
    cbn [map formatted_prices] in Hin.
    destruct (_fetch_one_price (replies b)) as [[[q' |] requests'] slept'];
      [destruct (truthy q') | ];
      try (right; now apply IH).
    cbn [fmap list_fmap fst] in Hin. apply elem_of_cons in Hin as [-> | Hin];
      [now left | right; now apply IH].
  - clear. induction addresses as [| a addresses IH]; [constructor |].
    cbn [map]. constructor; [| exact IH].
    rewrite fetch_one_price_decided.
    destruct (first_final (replies a)) as [k |] eqn:Hk; cbn; [| lia].
    unfold first_final in Hk.
    repeat match type of Hk with
           | (if ?b then _ else _) = _ => destruct b
           end; try discriminate; injection Hk as <-; lia.
  - intros [Hempty | Hkey]; congruence.
  - intros _ _. clear. induction addresses as [| a addresses IH]; [reflexivity |].
    cbn [map fmap list_fmap]. destruct (_fetch_one_price (replies a)) as [[? ?] ?].
    cbn. f_equal. exact IH.
Qed.

(** The lookup of the fixtures: a price after one retried reply, a token
    that is unknown, a server that is down. *)
Example sample_prices :
  get_token_prices sample_replies ["USDC"; "UNKNOWN"; "USDC"; "DOWN"] (Some "key")
  = ([("USDC", JDict [("value", JFloat (Qmake 1501 10))])],
     [("UNKNOWN", 2%nat, [1]); ("USDC", 2%nat, [1]); ("DOWN", 3%nat, [1; 2])]).
Proof. vm_compute. reflexivity. Qed.

End PricesFacts.

(** ** Token details *)

Module TokenDetailsFacts.
Import TokenDetails Claims.

Lemma supply_entries_shape supply_res details :
  supply_entries supply_res = Ok details →
  details = [] ∨ ∃ supply decimals,
    details = [("supply", supply); ("decimals", decimals)].
Proof.
  unfold supply_entries. intros Hrun.
  destruct (truthy supply_res); [| injection Hrun as <-; now left].
  destruct (py_get supply_res "result" JNull) as [r |];
    cbn [mbind result_bind] in Hrun; [| discriminate].
  destruct (truthy r); [| injection Hrun as <-; now left].
  destruct (py_getitem supply_res "result") as [r' |];
    cbn [mbind result_bind] in Hrun; [| discriminate].
  destruct (py_getitem r' "value") as [supply_value |];
    cbn [mbind result_bind] in Hrun; [| discriminate].
  destruct (py_get supply_value "amount" JNull) as [amount |];
    cbn [mbind result_bind] in Hrun; [| discriminate].
  destruct (py_get supply_value "uiAmountString" amount) as [supply |];
    cbn [mbind result_bind] in Hrun; [| discriminate].
  destruct (py_get supply_value "decimals" JNull) as [decimals |];
    cbn [mbind result_bind] in Hrun; [| discriminate].
  injection Hrun as <-. right. eauto.
Qed.

Lemma authority_entries_shape info_res more :
  authority_entries info_res = Ok more →
  more = []
  ∨ (field "type" (field "parsed" (field "data" (field "value" (field "result" info_res))))
     = JStr "mint"
     ∧ ∃ mint_authority,
         more = [("mint_authority", mint_authority)]
         ∨ ∃ freeze, truthy freeze = true
                     ∧ more = [("mint_authority", mint_authority);
                               ("freeze_authority", freeze)]).
Proof.
  unfold authority_entries. intros Hrun.
  destruct (truthy info_res); [| injection Hrun as <-; now left].
  destruct info_res as [| | | | | | kv]; try discriminate.
  cbn [py_get py_getitem mbind result_bind field] in *.
  destruct (assoc "result" kv) as [r |]; cbn [truthy] in Hrun;
    [| injection Hrun as <-; now left].
  destruct (truthy r); [| injection Hrun as <-; now left].
  cbn [mbind result_bind] in Hrun.
  destruct r as [| | | | | | rkv]; try discriminate.
  cbn [py_get py_getitem mbind result_bind field] in *.
  destruct (assoc "value" rkv) as [value |]; cbn [truthy] in Hrun;
    [| injection Hrun as <-; now left].
  destruct (truthy value); [| injection Hrun as <-; now left].
  cbn [mbind result_bind] in Hrun.
  destruct value as [| | | | | | vkv]; try discriminate.
  cbn [py_get mbind result_bind field] in *.
  destruct (assoc "data" vkv) as [data |].
  2:{ cbn in Hrun. injection Hrun as <-. now left. }
  destruct data as [| | | | | | dkv]; try discriminate.
  cbn [py_get mbind result_bind field] in *.
  destruct (assoc "parsed" dkv) as [parsed_data |].
  2:{ cbn in Hrun. injection Hrun as <-. now left. }
  destruct (truthy parsed_data); [| injection Hrun as <-; now left].
  destruct parsed_data as [| | | | | | pkv]; try discriminate.
  cbn [py_get mbind result_bind field] in *.
  destruct (assoc "type" pkv) as [type |].
  2:{ cbn in Hrun. injection Hrun as <-. now left. }
  destruct (eq_str type "mint") eqn:Htype; [| injection Hrun as <-; now left].
  assert (type = JStr "mint") as ->.
  { destruct type; try discriminate. cbn in Htype.
    apply String.eqb_eq in Htype. now subst. }
  destruct (match assoc "info" pkv with Some x => x | None => JDict [] end)
    as [| | | | | | ikv]; try discriminate.
  cbn [py_get mbind result_bind] in Hrun.
  right. split; [reflexivity |].
  exists (match assoc "mintAuthority" ikv with Some x => x | None => JNull end).
  destruct (truthy (match assoc "freezeAuthority" ikv with
                    | Some x => x | None => JNull end)) eqn:Hfreeze;
    injection Hrun as <-; [right | left; reflexivity].
  eexists. split; [exact Hfreeze | reflexivity].
Qed.

(** X11: what the supply reply gave is kept whatever becomes of the
    account lookup: when the supply step does not raise, its entries open
    the result and anything after them is an authority entry. When the
    supply request or its reading raises, the result is empty and the
    account is not looked at, so no authority is reported even for a
    sound account reply. *)
Theorem details_keep_supply supply_res info_res :
  match supply_res with
  | Raise _ => get_token_details supply_res info_res = []
  | Ok supply =>
      match supply_entries supply with
      | Raise _ => get_token_details supply_res info_res = []
      | Ok details =>
          (details = [] ∨ ∃ s d, details = [("supply", s); ("decimals", d)])
          ∧ ∃ more,
              get_token_details supply_res info_res = details ++ more
              ∧ Forall (λ e, e.1 = "mint_authority" ∨ e.1 = "freeze_authority") more
              ∧ (∀ e, info_res = Raise e → more = [])
      end
  end.
Proof.
  destruct supply_res as [supply | e]; [| reflexivity].
  unfold get_token_details.
  destruct (supply_entries supply) as [details |] eqn:Hsupply; [| reflexivity].
  split; [now apply supply_entries_shape with supply |].
  destruct info_res as [info | e].
  - destruct (authority_entries info) as [more |] eqn:Hinfo.
    + exists more. split; [reflexivity |]. split; [| discriminate].
      destruct (authority_entries_shape _ _ Hinfo)
        as [-> | (_ & m & [-> | (f & _ & ->)])];
        repeat (apply Forall_cons; split; [cbn; auto |]); apply Forall_nil; exact I.
    + exists []. rewrite app_nil_r. repeat split; auto.
  - exists []. rewrite app_nil_r. repeat split; auto.
Qed.

(** X12: a mint authority is reported only for an account whose parsed
    data has type ["mint"], and a freeze authority only together with a
    mint authority and only when it is a truthy value: a mint without
    freeze authority has no ["freeze_authority"] entry at all. *)
Theorem authorities_only_for_mints supply_res info_res :
  let details := get_token_details supply_res info_res in
  (assoc "mint_authority" details ≠ None →
   ∃ info,
     info_res = Ok info
     ∧ field "type" (field "parsed" (field "data" (field "value" (field "result" info))))
       = JStr "mint")
  ∧ (∀ freeze, assoc "freeze_authority" details = Some freeze →
       truthy freeze = true ∧ assoc "mint_authority" details ≠ None).
Proof.
  cbn zeta. unfold get_token_details.
  destruct supply_res as [supply | e]; [| cbn; split; [congruence | discriminate]].
  destruct (supply_entries supply) as [details |] eqn:Hsupply;
    [| cbn; split; [congruence | discriminate]].
  destruct (supply_entries_shape _ _ Hsupply) as [-> | (s & d & ->)];
    (destruct info_res as [info | e];
       [destruct (authority_entries info) as [more |] eqn:Hinfo;
          [destruct (authority_entries_shape _ _ Hinfo)
             as [-> | (Htype & m & [-> | (f & Hf & ->)])] |] |]);
    cbn; (split; [intros Hm; try congruence; eauto | intros freeze Hfreeze;
                    first [discriminate
                          | injection Hfreeze as <-;
                            split; [exact Hf | discriminate]]]).
Qed.

(** The replies of the tests, and a supply reply followed by an account
    whose data is not parsed: reading it raises and the supply is kept. *)
Example details_of_fixtures :
  get_token_details (Ok supply_reply) (Ok mint_reply)
    = [("supply", JStr "1000000"); ("decimals", JInt 6);
       ("mint_authority", JStr "AuthAddress");
       ("freeze_authority", JStr "FreezeAddress")]
  ∧ authority_entries raw_account_reply = Raise AttributeError
  ∧ get_token_details (Ok supply_reply) (Ok raw_account_reply)
    = [("supply", JStr "1000000"); ("decimals", JInt 6)].
Proof. repeat split; reflexivity. Qed.

End TokenDetailsFacts.

(** ** The rows of the normalizer *)

Module RowFacts.
Import SolanaHelpers Claims Fixtures.

Section Rows.
Context `{Runtime}.

Lemma transfer_type_cases tx_type :
  existsb (eq_str tx_type) transfer_types = true →
  tx_type = JStr "transfer" ∨ tx_type = JStr "transferChecked".
Proof.
  unfold transfer_types. cbn [existsb]. rewrite orb_false_r.
  intros [Ht | Ht]%orb_true_iff;
    destruct tx_type; try discriminate; cbn [eq_str] in Ht;
    apply String.eqb_eq in Ht; subst; auto.
Qed.

Lemma step_row_fields timestamp slot signature instruction row :
  instruction_step timestamp slot signature instruction = Ok (Some row) →
  tr_signature row = signature
  ∧ tr_link row = String.append "https://solscan.io/tx/" signature
  ∧ (tr_type row = JStr "transfer" ∨ tr_type row = JStr "transferChecked")
  ∧ tr_block_number row = slot
  ∧ tr_timestamp row = timestamp
  ∧ is_transfer instruction = true.
Proof.
  intros Hrun.
  assert (is_transfer instruction = true) as Htransfer.
  { destruct (is_transfer instruction) eqn:Ht; [reflexivity |].
    rewrite (NormalizerFacts.not_transfer_skipped _ _ _ _ Ht) in Hrun.
    discriminate. }
  revert Hrun. unfold instruction_step. intros Hrun.
  destruct (negb (isinstance_dict instruction)); [discriminate |].
  destruct (py_get instruction "parsed" (JDict [])) as [parsed_info |]; [| discriminate].
  cbn [mbind result_bind] in Hrun.
  destruct (negb (isinstance_dict parsed_info) || negb (truthy parsed_info));
    [discriminate |].
  destruct (py_get parsed_info "type" JNull) as [tx_type |]; [| discriminate].
  cbn [mbind result_bind] in Hrun.
  destruct (existsb (eq_str tx_type) transfer_types) eqn:Htype;
    cbn [negb] in Hrun; [| discriminate].
  destruct (py_get parsed_info "info" (JDict [])) as [info |]; [| discriminate].
  cbn [mbind result_bind] in Hrun.
  destruct (py_get info "source" JNull) as [wallet_1 |]; [| discriminate].
  cbn [mbind result_bind] in Hrun.
  destruct (py_get info "destination" JNull) as [wallet_2 |]; [| discriminate].
  cbn [mbind result_bind] in Hrun.
  destruct (py_get info "authority" JNull) as [authority |]; [| discriminate].
  cbn [mbind result_bind] in Hrun.
  destruct (negb (truthy wallet_1) || negb (truthy wallet_2)); [discriminate |].
  destruct (amount_of info) as [amount |]; [| discriminate].
  cbn [mbind result_bind] in Hrun.
  injection Hrun as <-. cbn.
  repeat split; auto using transfer_type_cases.
Qed.

Lemma loop_row_fields timestamp slot signature items :
  ∀ rows,
    instruction_loop timestamp slot signature items = Ok rows →
    (∀ row, row ∈ rows →
       tr_signature row = signature
       ∧ tr_link row = String.append "https://solscan.io/tx/" signature
       ∧ (tr_type row = JStr "transfer" ∨ tr_type row = JStr "transferChecked")
       ∧ tr_block_number row = slot
       ∧ tr_timestamp row = timestamp)
    ∧ (length rows ≤ length (List.filter is_transfer items))%nat.
Proof.
  induction items as [| x items IH]; intros rows Hrun.
  - injection Hrun as <-. split; [intros row Hrow; inversion Hrow | cbn; lia].
  - cbn [instruction_loop] in Hrun.
    destruct (instruction_step timestamp slot signature x) as [r |] eqn:Hstep;
      [| discriminate].
    cbn [mbind result_bind] in Hrun.
    destruct (instruction_loop timestamp slot signature items) as [rs |];
      [| discriminate].
    cbn [mbind result_bind] in Hrun. injection Hrun as <-.
    destruct (IH rs eq_refl) as [Hrows Hlen].
    destruct r as [r |].
    + destruct (step_row_fields _ _ _ _ _ Hstep) as (? & ? & ? & ? & ? & Ht).
      split.
      * intros row [-> | Hrow]%elem_of_cons; [auto | now apply Hrows].
      * cbn [List.filter]. rewrite Ht. cbn [length]. lia.
    + split; [exact Hrows |].
      cbn [List.filter]. destruct (is_transfer x); cbn [length]; lia.
Qed.

(** The rows of a response come out of its instruction loop, run with the
    time and the slot of the response. *)
Lemma parse_rows_of_response tx_response sig_info rows :
  _parse_transaction_details tx_response sig_info = Ok rows →
  rows = [] ∨ ∃ timestamp slot items,
    timestamp_of (field "blockTime" (field "result" tx_response)) = Ok timestamp
    ∧ py_get (field "result" tx_response) "slot" (JStr EmptyString) = Ok slot
    ∧ instructions_of tx_response = Some items
    ∧ instruction_loop timestamp slot (signature sig_info) items = Ok rows.
Proof.
  unfold _parse_transaction_details. intros Hrun.
  destruct (no_result tx_response) as [[|] |]; cbn [mbind result_bind] in Hrun;
    [injection Hrun as <-; now left | | discriminate].
  destruct tx_response as [| | | | | | kv]; try discriminate.
  unfold instructions_of. cbn [py_getitem field] in *.
  destruct (assoc "result" kv) as [tx_result |]; [| discriminate].
  cbn [mbind result_bind] in Hrun.
  destruct tx_result as [| | | | | | rkv]; try discriminate.
  cbn [py_get mbind result_bind field] in *.
  destruct (timestamp_of _) as [timestamp |] eqn:Htime;
    cbn [mbind result_bind] in Hrun; [| discriminate].
  destruct (assoc "transaction" rkv) as [transaction_field |];
    [| injection Hrun as <-; now left].
  destruct transaction_field as [| | | | | | tkv];
    cbn [isinstance_dict negb] in Hrun;
    try (injection Hrun as <-; now left).
  cbn [py_get mbind result_bind field] in *.
  destruct (assoc "message" tkv) as [message |].
  - destruct message as [| | | | | | mkv];
      cbn [isinstance_dict negb] in Hrun;
      try (injection Hrun as <-; now left).
    cbn [py_get mbind result_bind] in Hrun.
    destruct (assoc "instructions" mkv) as [instructions |].
    + destruct (py_iter instructions) as [items |];
        cbn [mbind result_bind] in Hrun; [| discriminate].
      right. exists timestamp. eexists. exists items. auto.
    + cbn [py_iter mbind result_bind] in Hrun.
      right. exists timestamp. eexists. exists []. auto.
  - cbn [isinstance_dict negb py_get assoc py_iter mbind result_bind] in Hrun.
    cbn in Hrun. injection Hrun as <-. now left.
Qed.

(** X13: every row is stamped with the descriptor it was fetched for and
    with the response it was read from: the signature is the descriptor's
    (not one read from the response), the link is the Solscan address of
    that signature, the type is one of the two transfer types, the block
    number is the ["slot"] of the response (the empty string when it has
    none) and the time is that of its ["blockTime"], the same for all rows.
    There are at most as many rows as the response has transfer
    instructions. *)
Theorem rows_carry_descriptor tx_response sig_info rows :
  _parse_transaction_details tx_response sig_info = Ok rows →
  (∀ row, row ∈ rows →
     tr_signature row = signature sig_info
     ∧ tr_link row = String.append "https://solscan.io/tx/" (signature sig_info)
     ∧ (tr_type row = JStr "transfer" ∨ tr_type row = JStr "transferChecked")
     ∧ py_get (field "result" tx_response) "slot" (JStr EmptyString)
       = Ok (tr_block_number row)
     ∧ timestamp_of (field "blockTime" (field "result" tx_response))
       = Ok (tr_timestamp row))
  ∧ (∀ items, instructions_of tx_response = Some items →
       (length rows ≤ length (List.filter is_transfer items))%nat).
Proof.
  intros Hrun.
  destruct (parse_rows_of_response _ _ _ Hrun)
    as [-> | (timestamp & slot & items & Htime & Hslot & Hitems & Hloop)].
  - split; [intros row Hrow; inversion Hrow | intros; cbn; lia].
  - destruct (loop_row_fields _ _ _ _ _ Hloop) as [Hrows Hlen].
    split.
    + intros row Hrow.
      destruct (Hrows row Hrow) as (? & ? & ? & <- & <-). auto.
    + intros items' Hitems'. rewrite Hitems in Hitems'.
      injection Hitems' as <-. exact Hlen.
Qed.

End Rows.

Lemma rows_carry_descriptor_witness :
  _parse_transaction_details (H := Sample.runtime) SAMPLE_TX_RESPONSE SAMPLE_SIG_INFO
    = Ok [sample_row]
  ∧ tr_signature sample_row = "dummy_sig_123"
  ∧ tr_link sample_row = "https://solscan.io/tx/dummy_sig_123"
  ∧ tr_block_number sample_row = JInt 12345678.
Proof.
  assert (_parse_transaction_details (H := Sample.runtime) SAMPLE_TX_RESPONSE
            SAMPLE_SIG_INFO = Ok [sample_row]) as Hrun by (vm_compute; reflexivity).
  split; [exact Hrun |].
  destruct (rows_carry_descriptor (H := Sample.runtime) _ _ _ Hrun) as [Hrows _].
  destruct (Hrows sample_row ltac:(constructor)) as (Hsig & Hlink & _).
  split; [exact Hsig |]. split; [exact Hlink | reflexivity].
Defined.

End RowFacts.

(** ** The two pipelines *)

Module PipelineFacts.
Import SolanaHelpers Claims Fixtures Scan.

Section Pipeline.
Context `{Runtime}.

Lemma parse_until_error_app before rest rows :
  parse_all before = Ok rows →
  parse_until_error (before ++ rest) = rows ++ parse_until_error rest.
Proof.
  revert rows. induction before as [| [sig_info tx_response] before IH];
    intros rows Hrun.
  - injection Hrun as <-. reflexivity.
  - cbn [parse_all app parse_until_error] in *.
    destruct (_parse_transaction_details tx_response sig_info) as [rs |];
      [| discriminate].
    cbn [mbind result_bind] in Hrun.
    destruct (parse_all before) as [rs' |]; [| discriminate].
    cbn [mbind result_bind] in Hrun. injection Hrun as <-.
    rewrite (IH rs' eq_refl). now rewrite app_assoc.
Qed.

Lemma parse_all_raises pairs sig_info tx_response e :
  (sig_info, tx_response) ∈ pairs →
  _parse_transaction_details tx_response sig_info = Raise e →
  ∃ e', parse_all pairs = Raise e'.
Proof.
  intros Hin Hbad. induction pairs as [| [s r] pairs IH]; [inversion Hin |].
  cbn [parse_all].
  apply elem_of_cons in Hin as [[= <- <-] | Hin].
  - rewrite Hbad. eexists. reflexivity.
  - destruct (_parse_transaction_details r s); [| eexists; reflexivity].
    cbn [mbind result_bind]. destruct (IH Hin) as [e' ->]. eexists. reflexivity.
Qed.

(** Every row of [parse_all] is a row of one of the pairs. *)
Lemma parse_all_row_origin pairs :
  ∀ rows row,
    parse_all pairs = Ok rows → row ∈ rows →
    ∃ j sig_info tx_response rs,
      pairs !! j = Some (sig_info, tx_response)
      ∧ _parse_transaction_details tx_response sig_info = Ok rs
      ∧ row ∈ rs.
Proof.
  induction pairs as [| [s r] pairs IH]; intros rows row Hrun Hrow.
  - injection Hrun as <-. inversion Hrow.
  - cbn [parse_all] in Hrun.
    destruct (_parse_transaction_details r s) as [rs |] eqn:Hparse; [| discriminate].
    cbn [mbind result_bind] in Hrun.
    destruct (parse_all pairs) as [rs' |]; [| discriminate].
    cbn [mbind result_bind] in Hrun. injection Hrun as <-.
    apply elem_of_app in Hrow as [Hrow | Hrow].
    + exists 0%nat, s, r, rs. auto.
    + destruct (IH rs' row eq_refl Hrow) as (j & s' & r' & rs'' & ? & ? & ?).
      exists (S j), s', r', rs''. auto.
Qed.

Lemma fetch_batch_lookup_inv tx_rpc signatures j sig_info tx_response :
  fetch_batch tx_rpc signatures !! j = Some (sig_info, tx_response) →
  signatures !! j = Some sig_info.
Proof.
  unfold fetch_batch, zip. intros Hj.
  apply lookup_zip_with_Some in Hj as (x & y & [= <- <-] & Hx & _). exact Hx.
Qed.

Lemma row_signature tx_response sig_info rows row :
  _parse_transaction_details tx_response sig_info = Ok rows →
  row ∈ rows → tr_signature row = signature sig_info.
Proof.
  intros Hrun Hrow.
  destruct (RowFacts.parse_rows_of_response _ _ _ Hrun)
    as [-> | (timestamp & slot & items & _ & _ & _ & Hloop)]; [inversion Hrow |].
  now destruct (proj1 (RowFacts.loop_row_fields _ _ _ _ _ Hloop) row Hrow).
Qed.

(** X14: a reply that cannot be read ends a scan but does not empty it:
    the rows of the transactions before it, in the order of the
    signatures, are what [fetch_and_parse_transactions] returns; the
    transactions after it are not looked at. *)
Theorem rows_before_error_are_kept rpc tx_rpc limit start_block end_block
    start_date end_date signatures before sig_info tx_response after rows e :
  discover_signatures rpc limit start_block end_block start_date end_date
    = Some (Ok signatures) →
  fetch_batch tx_rpc signatures = before ++ (sig_info, tx_response) :: after →
  parse_all before = Ok rows →
  _parse_transaction_details tx_response sig_info = Raise e →
  fetch_and_parse_transactions rpc tx_rpc limit start_block end_block
    start_date end_date = Some rows.
Proof.
  intros Hsigs Hbatch Hbefore Hbad. unfold fetch_and_parse_transactions.
  rewrite Hsigs, Hbatch, (parse_until_error_app _ _ _ Hbefore).
  cbn [parse_until_error]. rewrite Hbad. now rewrite app_nil_r.
Qed.

(** X15: the incremental scan is all or nothing: one reply that cannot be
    read, wherever it stands among the new transactions, discards every
    row and leaves the marker where it was. *)
Theorem one_unreadable_reply_discards_scan rpc tx_rpc last_signature signatures
    newest sig_info tx_response e :
  since_marker_scan rpc last_signature = Ok (signatures, newest) →
  (sig_info, tx_response) ∈ fetch_batch tx_rpc signatures →
  _parse_transaction_details tx_response sig_info = Raise e →
  fetch_and_parse_new_transactions rpc tx_rpc last_signature = ([], last_signature).
Proof.
  intros Hscan Hin Hbad. unfold fetch_and_parse_new_transactions.
  rewrite Hscan. cbn [mbind result_bind].
  destruct signatures as [| s signatures]; [inversion Hin |].
  destruct (parse_all_raises _ _ _ _ Hin Hbad) as [e' ->]. reflexivity.
Qed.

(** X16: a transaction that could not be fetched is passed over for good.
    When the fetch for one of the new descriptors ends without a result
    (null after five failures, or a reply with no ["result"]), no row
    returned carries its signature, and whenever rows are returned the
    marker returned is the newest signature, which lies at or past that
    descriptor: the next scan will not come back to it. *)
Theorem unfetched_transaction_is_passed_over rpc tx_rpc last_signature signatures
    newest i lost tx_response :
  since_marker_scan rpc last_signature = Ok (signatures, newest) →
  fetch_batch tx_rpc signatures !! i = Some (lost, tx_response) →
  no_result tx_response = Ok true →
  (∀ j other, signatures !! j = Some other → j ≠ i →
     signature other ≠ signature lost) →
  let '(rows, marker) :=
    fetch_and_parse_new_transactions rpc tx_rpc last_signature in
  (∀ row, row ∈ rows → tr_signature row ≠ signature lost)
  ∧ (rows ≠ [] → marker = newest).
Proof.
  intros Hscan Hlost Hnone Hdistinct. unfold fetch_and_parse_new_transactions.
  rewrite Hscan. cbn [mbind result_bind].
  destruct signatures as [| s signatures]; [discriminate |].
  destruct (parse_all (fetch_batch tx_rpc (s :: signatures))) as [rows |] eqn:Hrows;
    cbn [mbind result_bind].
  2:{ split; [intros row Hrow; inversion Hrow | congruence]. }
  split; [| reflexivity].
  intros row Hrow.
  destruct (parse_all_row_origin _ _ _ Hrows Hrow)
    as (j & sig_info & response & rs & Hj & Hparse & Hin).
  rewrite (row_signature _ _ _ _ Hparse Hin).
  destruct (decide (j = i)) as [-> | Hne].
  - rewrite Hlost in Hj. injection Hj as <- <-.
    unfold _parse_transaction_details in Hparse. rewrite Hnone in Hparse.
    cbn [mbind result_bind] in Hparse. injection Hparse as <-. inversion Hin.
  - apply fetch_batch_lookup_inv in Hj. now apply (Hdistinct j).
Qed.

(** X17: a scan always comes to an end, whatever the provider answers:
    the date-range mode stops within 20 pages, the block-range mode within
    5, the count-limited mode asks once. *)
Theorem scan_always_returns rpc tx_rpc limit start_block end_block
    start_date end_date :
  ∃ rows,
    fetch_and_parse_transactions rpc tx_rpc limit start_block end_block
      start_date end_date = Some rows.
Proof.
  unfold fetch_and_parse_transactions, discover_signatures.
  destruct (select_mode start_block end_block start_date end_date)
    as [start_ts end_ts | |].
  - destruct (DiscoveryFacts.date_range_loop_ends rpc start_ts end_ts 20 0 None 0 [])
      as [[signatures | e] ->]; [lia | eauto ..].
  - destruct (BlockRangeFacts.block_range_loop_ends rpc start_block end_block
                5 0 None 0 []) as [[signatures | e] ->]; [lia | eauto ..].
  - destruct (rpc 0%nat limit None) as [response | e]; [| eauto].
    destruct (reply_stops response); eauto.
Qed.

End Pipeline.

Lemma rows_before_error_are_kept_witness :
  fetch_and_parse_transactions (H := Sample.runtime) (history_rpc (history_of 3))
    one_unreadable (Some 100) None None None None
  = Some [row_for "sig0"].
Proof.
  apply (rows_before_error_are_kept (H := Sample.runtime) _ _ _ _ _ _ _
           (history_of 3)
           [({| signature := "sig0"; slot := 3; blockTime := Some 1700000003 |},
             transfer_reply)]
           {| signature := "sig1"; slot := 2; blockTime := Some 1700000002 |}
           unreadable_time_response
           [({| signature := "sig2"; slot := 1; blockTime := Some 1700000001 |},
             transfer_reply)]
           _ TypeError);
    vm_compute; reflexivity.
Defined.

Lemma one_unreadable_reply_discards_scan_witness :
  fetch_and_parse_new_transactions (H := Sample.runtime) (history_rpc (history_of 3))
    one_unreadable (Some "sig9")
  = ([], Some "sig9").
Proof.
  apply (one_unreadable_reply_discards_scan (H := Sample.runtime) _ _ _
           (history_of 3) (Some "sig0")
           {| signature := "sig1"; slot := 2; blockTime := Some 1700000002 |}
           unreadable_time_response TypeError).
  - vm_compute. reflexivity.
  - vm_compute. right. left.
  - vm_compute. reflexivity.
Defined.

Lemma unfetched_transaction_is_passed_over_witness :
  fetch_and_parse_new_transactions (H := Sample.runtime) (history_rpc (history_of 3))
    one_unfetched None
  = ([row_for "sig0"; row_for "sig2"], Some "sig0")
  ∧ ∀ row, row ∈ [row_for "sig0"; row_for "sig2"] → tr_signature row ≠ "sig1".
Proof.
  split; [vm_compute; reflexivity |].
  apply (unfetched_transaction_is_passed_over (H := Sample.runtime)
           (history_rpc (history_of 3)) one_unfetched None (history_of 3)
           (Some "sig0") 1
           {| signature := "sig1"; slot := 2; blockTime := Some 1700000002 |}
           JNull).
  - vm_compute. reflexivity.
  - vm_compute. reflexivity.
  - reflexivity.
  - intros [| [| [| j]]] other Hj Hne; try congruence;
      vm_compute in Hj; try discriminate; injection Hj as <-; discriminate.
Defined.

End PipelineFacts.

(** ** Scans over a served history *)

Module ServedFacts.
Import SolanaHelpers Claims Fixtures Scan.

(** *** The block-range mode *)

Lemma slots_descending_cons a l :
  slots_descending (a :: l) = true →
  Forall (λ b, slot b ≤ slot a) l ∧ slots_descending l = true.
Proof.
  cbn [slots_descending]. intros [Ha Hl]%andb_true_iff. split; [| exact Hl].
  apply Forall_forall. intros b Hb.
  rewrite forallb_forall in Ha. apply Z.leb_le, Ha. now apply list_elem_of_In.
Qed.

Lemma slots_descending_suffix l1 l2 :
  slots_descending (l1 ++ l2) = true → slots_descending l2 = true.
Proof.
  induction l1 as [| a l1 IH]; [auto |].
  cbn [app]. intros [_ Hl]%slots_descending_cons. auto.
Qed.

Lemma out_of_range_below start_block end_block x l :
  bound_truthy start_block && Z.ltb (slot x) (bound_value start_block) = true →
  Forall (λ b, slot b ≤ slot x) l →
  Forall (λ b, in_block_range start_block end_block b = false) l.
Proof.
  intros [Hs Hx]%andb_true_iff Hl. apply Z.ltb_lt in Hx.
  eapply Forall_impl; [exact Hl |]. cbn beta. intros b Hb.
  unfold in_block_range. rewrite Hs. cbn [negb orb].
  destruct (Z.leb_spec (bound_value start_block) (slot b)); [lia |].
  apply andb_false_r.
Qed.

(** Over a batch of a slot-ordered history the loop keeps what lies
    between the bounds, and stops only when nothing further does. *)
Lemma block_range_batch_served start_block end_block batch tail :
  slots_descending (batch ++ tail) = true →
  (block_range_batch start_block end_block batch).1
    = List.filter (in_block_range start_block end_block) batch
  ∧ ((block_range_batch start_block end_block batch).2 = true →
     Forall (λ b, in_block_range start_block end_block b = false) tail).
Proof.
  induction batch as [| x batch IH]; intros Hsorted.
  - cbn. split; [reflexivity | discriminate].
  - cbn [app] in Hsorted.
    apply slots_descending_cons in Hsorted as [Hx Hsorted].
    specialize (IH Hsorted).
    cbn [block_range_batch List.filter].
    destruct (bound_truthy end_block && Z.gtb (slot x) (bound_value end_block))
      eqn:Habove.
    { assert (in_block_range start_block end_block x = false) as ->; [| exact IH].
      apply andb_true_iff in Habove as [He Hgt].
      rewrite Z.gtb_ltb in Hgt. apply Z.ltb_lt in Hgt.
      unfold in_block_range. rewrite He. cbn [negb orb].
      destruct (Z.leb_spec (slot x) (bound_value end_block)); [lia | reflexivity]. }
    destruct (bound_truthy start_block && Z.ltb (slot x) (bound_value start_block))
      eqn:Hbelow.
    { pose proof (out_of_range_below start_block end_block x (x :: batch ++ tail)
                    Hbelow) as Hall.
      specialize (Hall ltac:(constructor; [lia | exact Hx])).
      apply Forall_cons in Hall as [Hxout Hall].
      apply Forall_app in Hall as [Hbatch Htail].
      cbn [fst snd]. rewrite Hxout. split; [| intros _; exact Htail].
      symmetry. now apply DiscoveryFacts.filter_none. }
    assert (in_block_range start_block end_block x = true) as ->.
    { unfold in_block_range.
      apply andb_false_iff in Habove. apply andb_false_iff in Hbelow.
      apply andb_true_iff. split; apply orb_true_iff.
      - destruct Habove as [-> | Hgt]; [now left | right].
        rewrite Z.gtb_ltb in Hgt. apply Z.ltb_ge in Hgt. now apply Z.leb_le.
      - destruct Hbelow as [-> | Hlt]; [now left | right].
        apply Z.ltb_ge in Hlt. now apply Z.leb_le. }
    destruct (block_range_batch start_block end_block batch) as [kept stop].
    cbn [fst snd] in *. destruct IH as [-> IH]. auto.
Qed.

Section ServedBlocks.
Variables (history : list SigInfo) (start_block end_block : option Z).
Hypothesis distinct : distinct_signatures history = true.
Hypothesis sorted : slots_descending history = true.

(** The loop, resumed with [fuel] rounds left before the cap and
    [scanned] served so far, appends the descriptors between the bounds
    among the next [fuel] pages of the rest. *)
Lemma block_range_loop_served fuel :
  ∀ scanned rest call before acc,
    (fuel ≤ 5)%nat →
    history = scanned ++ rest →
    cursor_at scanned before →
    length scanned = ((5 - fuel) * PAGE)%nat →
    block_range_loop (history_rpc history) start_block end_block fuel call before
      (Z.of_nat (length scanned)) acc
    = Some (Ok (acc ++ List.filter (in_block_range start_block end_block)
                         (take (fuel * PAGE) rest))).
Proof.
  induction fuel as [| fuel IH];
    intros scanned rest call before acc Hfuel Hsplit Hcursor Hscanned.
  - cbn [block_range_loop].
    destruct (Z.ltb_spec (Z.of_nat (length scanned)) 5000) as [Hlt | _];
      [rewrite Hscanned in Hlt; unfold PAGE in Hlt; lia |].
    cbn [negb]. change (0 * PAGE)%nat with 0%nat. rewrite take_0.
    cbn [List.filter]. now rewrite app_nil_r.
  - assert (Hbelow : Z.of_nat (length scanned) < 5000)
      by (rewrite Hscanned; unfold PAGE; lia).
    pose proof (DiscoveryFacts.history_page_served _ _ _ _ distinct Hsplit Hcursor)
      as Hpage.
    cbn [block_range_loop].
    destruct (Z.ltb_spec (Z.of_nat (length scanned)) 5000); [| lia]. cbn [negb].
    unfold history_rpc at 1.
    cbn [reply_stops reply_batch has_error sig_result orb].
    rewrite Hpage.
    replace (S fuel * PAGE)%nat with (PAGE + fuel * PAGE)%nat by lia.
    rewrite DiscoveryFacts.take_plus, List.filter_app.
    destruct (take PAGE rest) as [| p page] eqn:Htake.
    { assert (rest = []) as ->; [destruct rest; [reflexivity | discriminate] |].
      rewrite drop_nil, take_nil. cbn [List.filter]. now rewrite !app_nil_r. }
    rewrite <- Htake.
    assert (Hrest : slots_descending (take PAGE rest ++ drop PAGE rest) = true).
    { rewrite take_drop. apply (slots_descending_suffix scanned).
      now rewrite <- Hsplit. }
    destruct (block_range_batch_served start_block end_block _ _ Hrest)
      as [Hkept Hstop].
    destruct (block_range_batch start_block end_block (take PAGE rest))
      as [kept stop].
    cbn [fst snd] in Hkept, Hstop. subst kept.
    destruct stop; cbn [orb].
    { rewrite (DiscoveryFacts.filter_none _ (take (fuel * PAGE) (drop PAGE rest)))
        by (apply Forall_take; auto).
      now rewrite app_nil_r. }
    destruct (Nat.ltb_spec (length (take PAGE rest)) PAGE) as [Hshort | Hfull].
    { rewrite length_take in Hshort.
      rewrite (drop_ge rest PAGE) by lia. rewrite take_nil.
      cbn [List.filter]. now rewrite app_nil_r. }
    assert (Hlen : length (take PAGE rest) = PAGE).
    { rewrite length_take in *. lia. }
    destruct (last (take PAGE rest)) as [oldest |] eqn:Hlast.
    2:{ apply last_None in Hlast. rewrite Hlast in Htake. discriminate. }
    apply last_Some in Hlast as [init Hinit].
    replace (Z.of_nat (length scanned) + Z.of_nat (length (take PAGE rest)))
      with (Z.of_nat (length (scanned ++ take PAGE rest)))
      by (rewrite length_app; lia).
    rewrite (IH (scanned ++ take PAGE rest) (drop PAGE rest)).
    + now rewrite app_assoc.
    + lia.
    + rewrite <- app_assoc, take_drop. exact Hsplit.
    + cbn [cursor_at]. exists (scanned ++ init), oldest.
      split; [| reflexivity]. rewrite Hinit. now rewrite app_assoc.
    + rewrite length_app, Hlen, Hscanned. unfold PAGE. lia.
Qed.

End ServedBlocks.

(** X18: over a provider that serves a history of distinct signatures in
    the order of their slots, the block-range mode gives exactly the
    descriptors between the bounds that count, among the newest 5000 of
    the history, in the order of the history. *)
Theorem block_range_exact history limit start_block end_block :
  distinct_signatures history = true →
  slots_descending history = true →
  bound_truthy start_block || bound_truthy end_block = true →
  discover_signatures (history_rpc history) limit start_block end_block None None
  = Some (Ok (List.filter (in_block_range start_block end_block)
                (take (5 * PAGE) history))).
Proof.
  intros Hdistinct Hsorted Hbound.
  unfold discover_signatures, select_mode. rewrite Hbound.
  apply (block_range_loop_served history start_block end_block Hdistinct Hsorted
           5 [] history 0%nat None []); [lia | reflexivity | reflexivity |].
  reflexivity.
Qed.

Lemma block_range_exact_witness :
  discover_signatures (history_rpc (history_of 1500)) (Some 100)
    (Some 200) (Some 1300) None None
  = Some (Ok (List.filter (in_block_range (Some 200) (Some 1300))
                (take (5 * PAGE) (history_of 1500)))).
Proof.
  apply (block_range_exact (history_of 1500) (Some 100) (Some 200) (Some 1300));
    vm_compute; reflexivity.
Defined.

(** *** The incremental scan *)

Lemma until_marker_app last_signature l1 l2 :
  until_marker last_signature (l1 ++ l2) =
    if (until_marker last_signature l1).2
    then ((until_marker last_signature l1).1, true)
    else ((until_marker last_signature l1).1 ++ (until_marker last_signature l2).1,
          (until_marker last_signature l2).2).
Proof.
  induction l1 as [| x l1 IH]; cbn [app until_marker fst snd].
  - now destruct (until_marker last_signature l2).
  - destruct (is_marker last_signature x); [reflexivity |].
    rewrite IH.
    destruct (until_marker last_signature l1) as [new found].
    cbn [fst snd]. now destruct found.
Qed.

Lemma until_marker_absent last_signature l :
  Forall (λ s, ¬ carries last_signature s) l →
  until_marker last_signature l = (l, false).
Proof.
  induction 1 as [| x l Hx _ IH]; [reflexivity |].
  cbn [until_marker]. rewrite IH.
  destruct (is_marker last_signature x) eqn:Hm; [| reflexivity].
  exfalso. apply Hx. unfold carries, is_marker in *.
  destruct last_signature as [s |]; [| discriminate].
  apply String.eqb_eq in Hm. now subst.
Qed.

Lemma distinct_signatures_before new m older :
  distinct_signatures (new ++ m :: older) = true →
  Forall (λ s, ¬ carries (Some (signature m)) s) new.
Proof.
  induction new as [| a new IH]; [constructor |].
  cbn [app distinct_signatures].
  intros [[_ Ha]%andb_true_iff Hd]%andb_true_iff.
  constructor; [| auto].
  unfold carries. intros [= Heq].
  rewrite forallb_forall in Ha.
  specialize (Ha m ltac:(apply in_or_app; right; left; reflexivity)).
  rewrite Heq, String.eqb_refl in Ha. discriminate.
Qed.

Section ServedMarker.
Variables (history : list SigInfo) (last_signature : option string).
Hypothesis distinct : distinct_signatures history = true.

(** The scan, resumed with [pages] pages left and [scanned] served so
    far, appends what comes before the marker among the next [pages]
    pages; the newest signature is fixed by the first page. *)
Lemma since_marker_loop_served pages :
  ∀ scanned rest call before newest acc,
    history = scanned ++ rest →
    cursor_at scanned before →
    newest = None ∨ marker_truthy newest = true →
    since_marker_loop (history_rpc history) last_signature pages call before
      newest acc
    = Ok (acc ++ (until_marker last_signature (take (pages * PAGE) rest)).1,
          match newest with
          | Some _ => newest
          | None => if Nat.eqb pages 0 then None else newest_of rest
          end).
Proof.
  induction pages as [| pages IH];
    intros scanned rest call before newest acc Hsplit Hcursor Hnewest.
  - cbn [since_marker_loop]. change (0 * PAGE)%nat with 0%nat. rewrite take_0.
    cbn [until_marker fst Nat.eqb]. rewrite app_nil_r. now destruct newest.
  - pose proof (DiscoveryFacts.history_page_served _ _ _ _ distinct Hsplit Hcursor)
      as Hpage.
    rewrite SinceMarkerFacts.since_marker_loop_step.
    change (history_rpc history call (Some 1000) before)
      with (Ok {| has_error := false;
                  sig_result := Some (history_page history (Some 1000) before) |}).
    cbn [mbind result_bind].
    cbn [reply_stops reply_batch has_error sig_result orb].
    rewrite Hpage. cbn [Nat.eqb].
    replace (S pages * PAGE)%nat with (PAGE + pages * PAGE)%nat by lia.
    rewrite DiscoveryFacts.take_plus, until_marker_app.
    destruct (take PAGE rest) as [| first page] eqn:Htake.
    { assert (rest = []) as ->; [destruct rest; [reflexivity | discriminate] |].
      cbn [until_marker fst snd]. rewrite drop_nil, take_nil.
      cbn [until_marker fst app newest_of head option_map].
      rewrite app_nil_r. now destruct newest. }
    rewrite <- Htake.
    assert (Hfirst : head (take PAGE rest) = Some first) by now rewrite Htake.
    rewrite Hfirst. cbn [mbind result_bind].
    assert (Hhead : newest_of rest = Some (signature first)).
    { destruct rest as [| r rest]; [discriminate |].
      unfold PAGE in Htake. cbn in Htake. injection Htake as -> _. reflexivity. }
    assert (Hnonempty : marker_truthy (Some (signature first)) = true).
    { cbn [marker_truthy]. apply negb_true_iff.
      destruct rest as [| r rest]; [discriminate |].
      cbn in Hhead. injection Hhead as <-.
      apply (DiscoveryFacts.distinct_signatures_head r rest).
      apply (DiscoveryFacts.distinct_signatures_suffix scanned).
      now rewrite <- Hsplit. }
    set (newest' := if negb (marker_truthy newest)
                    then Some (signature first) else newest).
    assert (Hnewest' :
      marker_truthy newest' = true
      ∧ newest' = match newest with Some _ => newest | None => newest_of rest end).
    { subst newest'. destruct Hnewest as [-> | Ht].
      - cbn [marker_truthy negb]. now rewrite Hhead.
      - rewrite Ht. cbn [negb]. destruct newest; [auto | discriminate]. }
    destruct Hnewest' as [Htruthy Hvalue].
    destruct (until_marker last_signature (take PAGE rest)) as [new found].
    cbn [fst snd]. destruct found; cbn [orb]; [now rewrite Hvalue |].
    destruct (Nat.ltb_spec (length (take PAGE rest)) PAGE) as [Hshort | Hfull].
    { rewrite length_take in Hshort.
      rewrite (drop_ge rest PAGE) by lia. rewrite take_nil.
      cbn [until_marker fst]. now rewrite Hvalue, app_nil_r. }
    destruct (last (take PAGE rest)) as [oldest |] eqn:Hlast.
    2:{ apply last_None in Hlast. rewrite Hlast in Htake. discriminate. }
    cbn [mbind result_bind fst].
    apply last_Some in Hlast as [init Hinit].
    rewrite (IH (scanned ++ take PAGE rest) (drop PAGE rest)).
    + rewrite app_assoc. f_equal. f_equal.
      destruct newest' as [n |]; [| discriminate]. exact Hvalue.
    + rewrite <- app_assoc, take_drop. exact Hsplit.
    + cbn [cursor_at]. exists (scanned ++ init), oldest.
      split; [| reflexivity]. rewrite Hinit. now rewrite app_assoc.
    + now right.
Qed.

Lemma since_marker_scan_served :
  since_marker_scan (history_rpc history) last_signature
  = Ok ((until_marker last_signature (take (10 * PAGE) history)).1,
        newest_of history).
Proof.
  unfold since_marker_scan.
  rewrite (since_marker_loop_served 10 [] history 0%nat None None []);
    [reflexivity | reflexivity | reflexivity | now left].
Qed.

End ServedMarker.

Section Incremental.
Context `{Runtime}.

(** X19: over a provider that serves a history of distinct signatures,
    the incremental scan collects exactly the descriptors newer than the
    marker, in the order of the history, when fewer than 10000 of them
    are, and names the newest signature of the history; when their
    transactions parse, [fetch_and_parse_new_transactions] returns their
    rows with that signature as the new marker. *)
Theorem scan_collects_what_is_newer history new m older :
  distinct_signatures history = true →
  history = new ++ m :: older →
  (length new < 10 * PAGE)%nat →
  since_marker_scan (history_rpc history) (Some (signature m))
    = Ok (new, newest_of history)
  ∧ ∀ tx_rpc rows,
      new ≠ [] →
      parse_all (fetch_batch tx_rpc new) = Ok rows →
      fetch_and_parse_new_transactions (history_rpc history) tx_rpc
        (Some (signature m))
      = (rows, newest_of history).
Proof.
  intros Hdistinct Hsplit Hnew.
  assert (Hscan : since_marker_scan (history_rpc history) (Some (signature m))
                  = Ok (new, newest_of history)).
  { rewrite (since_marker_scan_served _ _ Hdistinct). f_equal. f_equal.
    rewrite Hsplit, take_app_ge by lia.
    rewrite until_marker_app.
    rewrite (until_marker_absent _ new)
      by (apply (distinct_signatures_before new m older); now rewrite <- Hsplit).
    cbn [fst snd].
    destruct (10 * PAGE - length new)%nat as [| n] eqn:Hn; [lia |].
    cbn [take until_marker is_marker]. rewrite String.eqb_refl.
    cbn [fst]. now rewrite app_nil_r. }
  split; [exact Hscan |].
  intros tx_rpc rows Hne Hrows. unfold fetch_and_parse_new_transactions.
  rewrite Hscan. cbn [mbind result_bind].
  destruct new as [| s new]; [congruence |]. now rewrite Hrows.
Qed.

End Incremental.

(** X20: when the marker is not among the newest 10000 descriptors of the
    history (there is no marker yet, the marker is unknown to the
    provider, or 10000 or more transactions are newer than it), the scan
    collects those 10000, or the whole history when it is shorter, and
    names the newest signature: what lies between the 10000th descriptor
    and the marker is collected by no later scan. *)
Theorem scan_without_marker_in_reach history last_signature :
  distinct_signatures history = true →
  Forall (λ s, ¬ carries last_signature s) (take (10 * PAGE) history) →
  since_marker_scan (history_rpc history) last_signature
  = Ok (take (10 * PAGE) history, newest_of history).
Proof.
  intros Hdistinct Habsent.
  rewrite (since_marker_scan_served _ _ Hdistinct).
  now rewrite (until_marker_absent _ _ Habsent).
Qed.

Lemma scan_collects_what_is_newer_witness :
  since_marker_scan (history_rpc (history_of 1500)) (Some "sig1200")
  = Ok (take 1200 (history_of 1500), Some "sig0").
Proof.
  apply (scan_collects_what_is_newer (H := Sample.runtime) (history_of 1500)
           (take 1200 (history_of 1500))
           {| signature := "sig1200"; slot := 300; blockTime := Some 1700000300 |}
           (drop 1201 (history_of 1500))).
  - vm_compute. reflexivity.
  - vm_compute. reflexivity.
  - vm_compute. lia.
Defined.

Lemma scan_without_marker_in_reach_witness :
  since_marker_scan (history_rpc (history_of 3)) None
  = Ok (history_of 3, Some "sig0").
Proof.
  apply (scan_without_marker_in_reach (history_of 3) None).
  - reflexivity.
  - repeat constructor; discriminate.
Defined.

End ServedFacts.

(** ** The monitoring task *)

Module MonitorTaskFacts.
Import Calls Monitoring MonitorTask Fixtures.

(** A call that leaves out [api_key] does not reach the body of
    [get_token_prices]. *)
Lemma get_token_prices_refused body token_addresses :
  get_token_prices_as_called body token_addresses = Raise TypeError.
Proof. reflexivity. Qed.

(** [get_transaction] has no parameter [max_supported_transaction_version]. *)
Lemma keyword_refused signature :
  bind_arguments get_transaction_parameters [signature]
    [("max_supported_transaction_version", JInt 0)] = Raise TypeError.
Proof. reflexivity. Qed.

Section Task.
Context `{Runtime}.
Variables (cls : client_class) (w : world)
          (prices_body : list (string * json) → result json)
          (chat_id : Z) (address rpc_url : string).

(** X21: a transaction in which a token balance of the wallet changes is
    not formatted by the code as it is wired: the formatter calls
    [get_token_prices] with the mints alone, the function of
    solana_helpers.py requires [api_key] as well, and the [TypeError] of
    the call is the outcome of [format_transaction_notification], whatever
    the native change is. *)
Theorem token_change_is_not_formatted kv signature tx_result meta wallet_address
    sol_change pre post tc rest :
  assoc "signature" kv = Some signature →
  assoc "transaction" kv = Some tx_result →
  assoc "meta" kv = Some meta →
  failed_or_malformed tx_result meta = Ok false →
  sol_change_of tx_result meta wallet_address = Ok sol_change →
  token_balances_of meta "preTokenBalances" wallet_address = Ok pre →
  token_balances_of meta "postTokenBalances" wallet_address = Ok post →
  token_changes_of pre post (all_mints_of pre post) = Ok (tc :: rest) →
  format_transaction_notification (get_token_prices_as_called prices_body)
    (JDict kv) wallet_address = Raise TypeError.
Proof.
  intros Hsig Htx Hmeta Hstop Hsol Hpre Hpost Hchanges.
  unfold format_transaction_notification.
  cbn [py_getitem py_get]. rewrite Hsig, Htx, Hmeta. cbn [mbind result_bind].
  rewrite Hstop. cbn [mbind result_bind].
  rewrite Hsol. cbn [mbind result_bind].
  rewrite Hpre, Hpost. cbn [mbind result_bind].
  rewrite Hchanges. cbn [mbind result_bind].
  now rewrite get_token_prices_refused.
Qed.

(** *** Steps that send nothing *)

Lemma sends_nothing_ret {A} (a : A) : sends_nothing (mret a : task A).
Proof. intros tr Htr. exact Htr. Qed.

Lemma sends_nothing_raise {A} e : sends_nothing (raise e : task A).
Proof. intros tr Htr. exact Htr. Qed.

Lemma sends_nothing_lift {A} (r : result A) : sends_nothing (lift r).
Proof. destruct r; [apply sends_nothing_ret | apply sends_nothing_raise]. Qed.

Lemma sends_nothing_bind {A B} (m : task A) (f : A → task B) :
  sends_nothing m → (∀ a, sends_nothing (f a)) → sends_nothing (m ≫= f).
Proof.
  intros Hm Hf tr Htr. unfold mbind, task_bind.
  specialize (Hm tr Htr). destruct (m tr) as [[h | a] tr']; [exact Hm |].
  now apply Hf.
Qed.

Lemma sends_nothing_call method args : sends_nothing (call cls w method args).
Proof.
  unfold call. destruct (has_attribute cls method); [| apply sends_nothing_raise].
  intros tr Htr. cbn [snd]. apply Forall_app. split; [exact Htr |].
  now repeat constructor.
Qed.

Lemma sends_nothing_sleep seconds : sends_nothing (sleep w seconds).
Proof.
  intros tr Htr. cbn [sleep snd]. apply Forall_app. split; [exact Htr |].
  now repeat constructor.
Qed.

(** A step that always halts where it stands. *)
Lemma sends_nothing_halting {A B} (m : task A) (f : A → task B) :
  (∀ tr, ∃ h, m tr = (inl h, tr)) → sends_nothing (m ≫= f).
Proof.
  intros Hm tr Htr. unfold mbind, task_bind.
  destruct (Hm tr) as [h ->]. exact Htr.
Qed.

Hypothesis same_parameters : transaction_parameters cls = get_transaction_parameters.

Lemma get_transaction_refused signature tr :
  ∃ h, get_transaction cls w signature tr = (inl h, tr).
Proof.
  unfold get_transaction. rewrite same_parameters, keyword_refused.
  destruct (has_attribute cls "get_transaction"); eexists; reflexivity.
Qed.

Lemma sends_nothing_on_message message :
  sends_nothing (on_message cls w prices_body chat_id address message).
Proof.
  unfold on_message.
  apply sends_nothing_bind; [apply sends_nothing_lift |].
  intros [|]; [| apply sends_nothing_ret].
  apply sends_nothing_bind; [apply sends_nothing_lift |]. intros signature.
  apply sends_nothing_bind; [apply sends_nothing_sleep |]. intros _.
  apply sends_nothing_halting. apply get_transaction_refused.
Qed.

Lemma sends_nothing_receive messages :
  sends_nothing (receive cls w prices_body chat_id address messages).
Proof.
  induction messages as [| messages IH]; cbn [receive].
  - intros tr Htr. exact Htr.
  - apply sends_nothing_bind; [apply sends_nothing_call |]. intros message.
    apply sends_nothing_bind; [apply sends_nothing_on_message |]. intros _.
    exact IH.
Qed.

Lemma sends_nothing_connection messages :
  sends_nothing (connection cls w prices_body chat_id address rpc_url messages).
Proof.
  intros tr Htr. unfold connection.
  match goal with
  | |- Forall _ (let '(_, _) := ?b in _).2 =>
      assert (Hbody : Forall (λ e, is_sent e = false) b.2);
        [| destruct b as [r tr'] ]
  end.
  { apply sends_nothing_bind; [apply sends_nothing_call |
                                | apply Forall_app; split;
                                    [exact Htr | now repeat constructor]].
    intros _.
    apply sends_nothing_bind; [apply sends_nothing_call |]. intros _.
    apply sends_nothing_receive. }
  cbn [snd] in Hbody.
  assert (Hexit : Forall (λ e, is_sent e = false) (tr' ++ [Exited]))
    by (apply Forall_app; split; [exact Hbody | now repeat constructor]).
  destruct r as [[r |] | []]; cbn [snd]; auto.
Qed.

Lemma sends_nothing_finally : sends_nothing (finally cls w).
Proof.
  unfold finally.
  apply sends_nothing_bind; [apply sends_nothing_call |]. intros connected.
  destruct (truthy connected); [| apply sends_nothing_ret].
  apply sends_nothing_bind; [apply sends_nothing_call |]. intros _.
  apply sends_nothing_ret.
Qed.

Lemma sends_nothing_reconnect rounds messages :
  sends_nothing (reconnect cls w prices_body chat_id address rpc_url rounds messages).
Proof.
  induction rounds as [| rounds IH]; intros tr Htr; cbn [reconnect];
    [exact Htr |].
  pose proof (sends_nothing_connection messages tr Htr) as H1.
  destruct (connection _ _ _ _ _ _ _ tr) as [r tr1]. cbn [snd] in H1.
  assert (Hsleep : Forall (λ e, is_sent e = false) (sleep w 10 tr1).2)
    by now apply sends_nothing_sleep.
  assert (Hrest : ∀ after tr2,
            Forall (λ e, is_sent e = false) tr2 →
            Forall (λ e, is_sent e = false)
              (match finally cls w tr2 with
               | (inl h, tr3) => (inl h, tr3)
               | (inr _, tr3) =>
                   match after with
                   | Break => (inr (), tr3)
                   | Propagate x => (inl (Raised x), tr3)
                   | Continue =>
                       reconnect cls w prices_body chat_id address rpc_url
                         rounds messages tr3
                   end
               end).2).
  { intros after tr2 Htr2.
    pose proof (sends_nothing_finally tr2 Htr2) as H3.
    destruct (finally cls w tr2) as [[h | u] tr3]; cbn [snd] in *; [exact H3 |].
    destruct after; cbn [snd]; auto. }
  destruct r as [[[| e] |] | []]; cbn [snd].
  - apply (Hrest Break), H1.
  - destruct (sleep w 10 tr1) as [[[x |] | u] tr2]; cbn [snd] in Hsleep.
    + apply (Hrest (Propagate x)), Hsleep.
    + apply (Hrest Continue), Hsleep.
    + apply (Hrest Continue), Hsleep.
  - exact H1.
  - apply (Hrest Continue), H1.
Qed.

(** X23: however the websocket methods are supplied, a client whose
    [get_transaction] is that of solana_client.py makes the task send no
    notification: the call passes [max_supported_transaction_version],
    which the method does not take, and the [TypeError] sends the task
    to its ten-second pause and the next connection. *)
Theorem monitor_never_sends rounds messages :
  Forall (λ e, is_sent e = false)
    (start_monitoring_task cls w prices_body chat_id address rpc_url
       rounds messages).2.
Proof. apply sends_nothing_reconnect. constructor. Qed.

End Task.

(** X22: with the client of solana_client.py, which has none of the
    websocket methods, the task ends in an [AttributeError] whatever
    the world does: the lookup of [ws_connect] fails, the client is left,
    the task pauses ten seconds (unless leaving was cancelled), and the
    lookup of [ws_is_connected] in the [finally] fails in turn and is not
    caught. No method of the client has been called and nothing sent. *)
Theorem monitor_ends_without_subscribing `{Runtime} w prices_body chat_id
    address rpc_url rounds messages :
  start_monitoring_task AsyncCustomSolanaClient w prices_body chat_id address
    rpc_url (S rounds) messages
  = (inl (Raised (Exception AttributeError)),
     match exit_result w 1 with
     | Some CancelledError => [Entered; Exited]
     | _ => [Entered; Exited; Slept 10]
     end).
Proof.
  unfold start_monitoring_task. cbn [reconnect].
  unfold connection, finally, call, sleep, raise, mbind, task_bind, has_attribute.
  cbn [attributes AsyncCustomSolanaClient existsb String.eqb Ascii.eqb Bool.eqb
       orb andb app length].
  destruct (exit_result w 1) as [[| e] |];
    try destruct (sleep_result w 2) as [x |]; reflexivity.
Qed.

Lemma token_change_is_not_formatted_witness :
  format_transaction_notification (H := Sample.runtime)
    (get_token_prices_as_called (λ _, Ok (JDict []))) SAMPLE_TX_INFO_TOKEN "my_wallet"
  = Raise TypeError
  ∧ ∃ message,
      format_transaction_notification (H := Sample.runtime) usdc_prices
        SAMPLE_TX_INFO_TOKEN "my_wallet" = Ok message
      ∧ message ≠ EmptyString.
Proof.
  split.
  - eapply (token_change_is_not_formatted (H := Sample.runtime));
      vm_compute; reflexivity.
  - eexists. split; [vm_compute; reflexivity | discriminate].
Defined.

Lemma monitor_never_sends_witness :
  Forall (λ e, is_sent e = false)
    (start_monitoring_task (H := Sample.runtime) with_websocket delivering
       (λ _, Ok (JDict [])) 7 "my_wallet" "https://rpc" 2 3).2
  ∧ Exists (λ e, is_sent e = true)
      (start_monitoring_task (H := Sample.runtime) with_keyword delivering
         (λ _, Ok (JDict [])) 7 "my_wallet" "https://rpc" 1 1).2.
Proof.
  split.
  - apply (monitor_never_sends (H := Sample.runtime) with_websocket). reflexivity.
  - vm_compute. do 6 apply Exists_cons_tl. apply Exists_cons_hd. reflexivity.
Defined.

End MonitorTaskFacts.

(** ** Long messages *)

Module LongMessageFacts.
Import LongMessage.

Section Text.
Context {char : Type} `{EqDecision char}.
Variable newline : char.

Lemma split_lines_not_nil (text : list char) : split_lines newline text ≠ [].
Proof.
  destruct text as [| c rest]; cbn [split_lines]; [discriminate |].
  destruct (decide (c = newline)); [discriminate |].
  destruct (split_lines newline rest); discriminate.
Qed.

(** The lines, each with its newline back, are the text and one newline. *)
Lemma join_split_lines (text : list char) :
  concat (map (with_newline newline) (split_lines newline text)) = text ++ [newline].
Proof.
  unfold with_newline.
  induction text as [| c rest IH]; [reflexivity |].
  cbn [split_lines]. destruct (decide (c = newline)) as [-> | Hc].
  - cbn [map concat app]. now rewrite IH.
  - destruct (split_lines newline rest) as [| line lines] eqn:Hsplit.
    + now apply split_lines_not_nil in Hsplit.
    + cbn [map concat app] in *. now rewrite <- IH, <- app_assoc.
Qed.

Lemma concat_send_lines lines :
  ∀ message_part,
    concat (send_lines newline lines message_part)
    = message_part ++ concat (map (with_newline newline) lines).
Proof.
  unfold with_newline.
  induction lines as [| line rest IH]; intros message_part; cbn [send_lines].
  - destruct message_part; cbn; [reflexivity | now rewrite !app_nil_r].
  - destruct (Nat.ltb MAX_LENGTH _); cbn [concat map]; rewrite IH.
    + reflexivity.
    + now rewrite <- !app_assoc.
Qed.

(** X24: nothing of a text is lost or reordered by the split: the
    messages sent, read one after the other, are the text itself when it
    has at most 4096 characters, and else the text with one newline
    after it. *)
Theorem messages_make_up_the_text (text : list char) :
  concat (send_long_message newline text)
  = if Nat.leb (length text) MAX_LENGTH then text else text ++ [newline].
Proof.
  unfold send_long_message. destruct (Nat.leb (length text) MAX_LENGTH).
  - cbn. now rewrite app_nil_r.
  - now rewrite concat_send_lines, join_split_lines.
Qed.

Lemma send_lines_fit lines :
  ∀ message_part,
    (length message_part ≤ MAX_LENGTH)%nat →
    Forall (λ line, (length line < MAX_LENGTH)%nat) lines →
    Forall (λ message, (1 ≤ length message ≤ MAX_LENGTH)%nat)
      (send_lines newline lines message_part).
Proof.
  induction lines as [| line rest IH]; intros message_part Hpart Hlines;
    cbn [send_lines].
  - destruct message_part as [| c part]; [constructor |].
    constructor; [| constructor]. cbn [length] in *. lia.
  - apply Forall_cons in Hlines as [Hline Hrest].
    destruct (Nat.ltb_spec MAX_LENGTH (length message_part + length line + 1)).
    + constructor; [lia |]. apply IH; [| exact Hrest].
      rewrite length_app. cbn [length]. lia.
    + apply IH; [| exact Hrest].
      rewrite !length_app. cbn [length]. lia.
Qed.

(** X25: when no line of a long text has more than 4095 characters, every
    message sent has at least one character and at most 4096. *)
Theorem messages_fit (text : list char) :
  (MAX_LENGTH < length text)%nat →
  Forall (λ line, (length line < MAX_LENGTH)%nat) (split_lines newline text) →
  Forall (λ message, (1 ≤ length message ≤ MAX_LENGTH)%nat)
    (send_long_message newline text).
Proof.
  intros Hlong Hlines. unfold send_long_message.
  destruct (Nat.leb_spec (length text) MAX_LENGTH); [lia |].
  apply send_lines_fit; [cbn; lia | exact Hlines].
Qed.

Lemma send_lines_overlong before line after :
  (MAX_LENGTH ≤ length line)%nat →
  ∀ message_part,
    line ++ [newline]
    ∈ send_lines newline (before ++ line :: after) message_part.
Proof.
  intros Hline. induction before as [| l before IH]; intros message_part;
    cbn [app send_lines].
  - destruct (Nat.ltb_spec MAX_LENGTH (length message_part + length line + 1));
      [| lia].
    apply elem_of_cons. right.
    destruct after as [| next after]; cbn [send_lines].
    + destruct (line ++ [newline]) eqn:Hl; [now destruct line |]. now left.
    + destruct (Nat.ltb_spec MAX_LENGTH
                  (length (line ++ [newline]) + length next + 1)) as [_ | Hfit];
        [now left |].
      rewrite length_app in Hfit. cbn [length] in Hfit. lia.
  - destruct (Nat.ltb MAX_LENGTH _); [apply elem_of_cons; right |]; apply IH.
Qed.

(** X26: a line of 4096 characters or more in a long text is sent, with
    its newline, as one message of more than 4096 characters; when it is
    the first line, the message sent before it is empty. *)
Theorem overlong_line_is_sent_whole (text : list char) before line after :
  (MAX_LENGTH < length text)%nat →
  split_lines newline text = before ++ line :: after →
  (MAX_LENGTH ≤ length line)%nat →
  line ++ [newline] ∈ send_long_message newline text
  ∧ (MAX_LENGTH < length (line ++ [newline]))%nat
  ∧ (before = [] → head (send_long_message newline text) = Some []).
Proof.
  intros Hlong Hsplit Hline. unfold send_long_message.
  destruct (Nat.leb_spec (length text) MAX_LENGTH); [lia |].
  rewrite Hsplit. split; [now apply send_lines_overlong |].
  split; [rewrite length_app; cbn [length]; lia |].
  intros ->. cbn [app send_lines length].
  now destruct (Nat.ltb_spec MAX_LENGTH (0 + length line + 1)); [| lia].
Qed.

End Text.

Lemma messages_fit_witness :
  Forall (λ message, (1 ≤ length message ≤ MAX_LENGTH)%nat)
    (send_long_message LF hundred_lines)
  ∧ length (send_long_message LF hundred_lines) = 2%nat.
Proof.
  split; [| vm_compute; reflexivity].
  apply (messages_fit LF hundred_lines).
  - apply Nat.ltb_lt. vm_compute. reflexivity.
  - apply (bool_decide_unpack _). vm_compute. exact I.
Defined.

Lemma overlong_line_is_sent_whole_witness :
  one_long_line ++ [LF] ∈ send_long_message LF one_long_line
  ∧ head (send_long_message LF one_long_line) = Some [].
Proof.
  destruct (overlong_line_is_sent_whole LF one_long_line [] one_long_line [])
    as (Hin & _ & Hhead).
  - apply Nat.ltb_lt. vm_compute. reflexivity.
  - vm_compute. reflexivity.
  - apply Nat.leb_le. vm_compute. reflexivity.
  - split; [exact Hin | now apply Hhead].
Defined.

End LongMessageFacts.

(** ** Calls that share a client *)

Module InterleavingFacts.
Import SolanaClient TransportTrace Interleaving.

Section Steps.
Context `{Runtime}.

(** *** One step *)

Lemma begin_round_counter k attempt c :
  let step := begin_round k attempt c in
  post_ids step.2 = seqZ (request_id c) (Z.of_nat (length (post_ids step.2)))
  ∧ request_id step.1.2 = request_id c + Z.of_nat (length (post_ids step.2)).
Proof.
  cbn zeta. unfold begin_round.
  destruct (Nat.ltb attempt (retry_count k)); cbn.
  - split; [f_equal; lia | reflexivity].
  - split; [reflexivity | lia].
Qed.

(** A step posts at most once, with the counter as id, and moves the
    counter past it; a step that does not post leaves the counter alone. *)
Lemma resume_counter k c :
  let step := resume k c in
  post_ids step.2 = seqZ (request_id c) (Z.of_nat (length (post_ids step.2)))
  ∧ request_id step.1.2 = request_id c + Z.of_nat (length (post_ids step.2)).
Proof.
  cbn zeta. unfold resume. destruct (stage_of k) as [| attempt | attempt | r].
  - destruct (semaphore c) as [| free]; [cbn; split; [reflexivity | lia] |].
    destruct (if String.eqb (method k) "getTransaction" then _ else None);
      [cbn; split; [reflexivity | lia] |].
    pose proof (begin_round_counter k 0 (set_semaphore c free)) as Hround.
    cbn zeta in Hround.
    destruct (begin_round k 0 (set_semaphore c free)) as [[k' c'] tr].
    exact Hround.
  - destruct (net k attempt); try destruct (Nat.eqb (S attempt) (retry_count k));
      try destruct (String.eqb (method k) "getTransaction");
      cbn; (split; [reflexivity | lia]).
  - apply begin_round_counter.
  - cbn. split; [reflexivity | lia].
Qed.






(** *** Any schedule *)

Lemma run_counter schedule :
  ∀ calls c,
    let result := run schedule calls c in
    post_ids result.2
      = seqZ (request_id c) (Z.of_nat (length (post_ids result.2)))
    ∧ request_id result.1.2
      = request_id c + Z.of_nat (length (post_ids result.2)).
Proof.
  cbn zeta. induction schedule as [| i rest IH]; intros calls c; cbn [run].
  - cbn. split; [reflexivity | lia].
  - destruct (calls !! i) as [k |]; [| apply IH].
    pose proof (resume_counter k c) as Hstep. cbn zeta in Hstep.
    destruct (resume k c) as [[k' c'] tr]. cbn [fst snd] in Hstep.
    specialize (IH (<[i := k']> calls) c').
    destruct (run rest (<[i := k']> calls) c') as [[calls' c''] tr'].
    cbn [fst snd] in *. destruct Hstep as [Htr Hc'], IH as [Htr' Hc''].
    rewrite TransportTraceFacts.post_ids_app, length_app, Nat2Z.inj_add.
    rewrite seqZ_app by lia.
    rewrite <- Htr, <- Hc', <- Htr'. split; [reflexivity | lia].
Qed.

(** X1: however the calls on one client take turns, no request id is
    used twice: the posts of all the calls together carry consecutive ids
    starting at the counter, in the order in which they were issued, and
    the counter ends just past the last of them. *)
Theorem request_ids_are_never_reused schedule calls c :
  let result := run schedule calls c in
  let ids := post_ids result.2 in
  ids = seqZ (request_id c) (Z.of_nat (length ids))
  ∧ request_id result.1.2 = request_id c + Z.of_nat (length ids)
  ∧ NoDup ids.
Proof.
  cbn zeta. destruct (run_counter schedule calls c) as [Hids Hcounter].
  split; [exact Hids |]. split; [exact Hcounter |].
  rewrite Hids. apply NoDup_seqZ.
Qed.



(** *** A call that runs alone *)

Lemma attempts_unfold net method params retry_count remaining attempt c :
  attempts net method params retry_count (S remaining) attempt c =
    let go_on :=
      let '(r, c2, tr) :=
        attempts net method params retry_count remaining (S attempt)
          (set_request_id c (request_id c + 1)) in
      (r, c2, Post (request_id c) method params
                :: Sleep (2 ^ Z.of_nat attempt) :: tr) in
    let except (e : exn) :=
      if Nat.eqb (S attempt) retry_count
      then (Raise e, set_request_id c (request_id c + 1),
            [Post (request_id c) method params])
      else go_on in
    match net attempt with
    | Status429 => go_on
    | Status403 => except auth_failed
    | Failure => except ClientError
    | Success body =>
        (Ok body,
         if String.eqb method "getTransaction"
         then cache_store (set_request_id c (request_id c + 1))
                (cache_key method params) body
         else set_request_id c (request_id c + 1),
         [Post (request_id c) method params])
    end.
Proof. reflexivity. Qed.

Lemma alone_returned n k c r :
  stage_of k = Returned r → alone n k c = (k, c, []).
Proof.
  intros Hstage. induction n as [| n IH]; [reflexivity |].
  cbn [alone]. unfold resume. rewrite Hstage. now rewrite IH.
Qed.

Lemma give_back_held c free :
  semaphore c = S free → give_back (set_semaphore c free) = c.
Proof. destruct c as [id sem cache]. cbn. now intros ->. Qed.

(** A call in its sleep goes on at the top of the next round. *)
Lemma alone_sleeping n k attempt c :
  alone (S n) (at_stage k (Sleeping attempt)) c
  = let '(k1, c1, tr1) := begin_round k (S attempt) c in
    let '(k2, c2, tr2) := alone n k1 c1 in
    (k2, c2, tr1 ++ tr2).
Proof. reflexivity. Qed.

(** A call that waits for a reply, case by case on the reply. *)
Lemma alone_posted n k attempt c :
  alone (S n) (at_stage k (Posted attempt)) c
  = let go_on :=
      let '(k2, c2, tr2) := alone n (at_stage k (Sleeping attempt)) c in
      (k2, c2, Sleep (2 ^ Z.of_nat attempt) :: tr2) in
    let except (e : exn) :=
      if Nat.eqb (S attempt) (retry_count k)
      then (at_stage k (Returned (Raise e)), give_back c, [Release])
      else go_on in
    match net k attempt with
    | Status429 => go_on
    | Status403 => except auth_failed
    | Failure => except ClientError
    | Success body =>
        (at_stage k (Returned (Ok body)),
         give_back (if String.eqb (method k) "getTransaction"
                    then cache_store c (cache_key (method k) (params k)) body
                    else c),
         [Release])
    end.
Proof.
  cbn [alone]. unfold resume. cbn [stage_of at_stage net method params retry_count].
  destruct (net k attempt) as [| | body |].
  - now destruct (alone n _ c) as [[k2 c2] tr2].
  - destruct (Nat.eqb (S attempt) (retry_count k)).
    + now rewrite (alone_returned n _ _ (Raise auth_failed)) by reflexivity.
    + now destruct (alone n _ c) as [[k2 c2] tr2].
  - now rewrite (alone_returned n _ _ (Ok body)) by reflexivity.
  - destruct (Nat.eqb (S attempt) (retry_count k)).
    + now rewrite (alone_returned n _ _ (Raise ClientError)) by reflexivity.
    + now destruct (alone n _ c) as [[k2 c2] tr2].
Qed.

(** From the top of a round on, a call that runs alone does what the
    rounds of [attempts] do, and gives the slot back. *)
Lemma alone_attempts k remaining :
  ∀ attempt c n k1 c1 tr1 r c3 tr3,
    (attempt + remaining)%nat = retry_count k →
    (2 * remaining ≤ n)%nat →
    begin_round k attempt c = (k1, c1, tr1) →
    attempts (net k) (method k) (params k) (retry_count k) remaining attempt c
      = (r, c3, tr3) →
    ∃ tr2,
      alone n k1 c1 = (at_stage k (Returned r), give_back c3, tr2)
      ∧ tr1 ++ tr2 = tr3 ++ [Release].
Proof.
  induction remaining as [| remaining IH];
    intros attempt c n k1 c1 tr1 r c3 tr3 Hsum Hn Hfirst Hrounds.
  - unfold begin_round in Hfirst.
    destruct (Nat.ltb_spec attempt (retry_count k)); [lia |].
    injection Hfirst as <- <- <-. cbn [attempts] in Hrounds.
    injection Hrounds as <- <- <-.
    exists []. split; [| reflexivity].
    now apply (alone_returned n _ _ (Ok max_retries_reached)).
  - unfold begin_round in Hfirst.
    destruct (Nat.ltb_spec attempt (retry_count k)); [| lia].
    injection Hfirst as <- <- <-.
    destruct n as [| [| n]]; try lia.
    rewrite attempts_unfold in Hrounds. cbn zeta in Hrounds.
    rewrite alone_posted. cbn zeta.
    set (c1 := set_request_id c (request_id c + 1)) in *.
    assert (Hgo :
      ∀ r c3 tr3,
        (let '(r, c2, tr) :=
           attempts (net k) (method k) (params k) (retry_count k) remaining
             (S attempt) c1 in
         (r, c2, Post (request_id c) (method k) (params k)
                   :: Sleep (2 ^ Z.of_nat attempt) :: tr)) = (r, c3, tr3) →
        ∃ tr2,
          (let '(k2, c2, tr2) := alone (S n) (at_stage k (Sleeping attempt)) c1 in
           (k2, c2, Sleep (2 ^ Z.of_nat attempt) :: tr2))
          = (at_stage k (Returned r), give_back c3, tr2)
          ∧ [Post (request_id c) (method k) (params k)] ++ tr2 = tr3 ++ [Release]).
    { intros r' c3' tr3' Hrest.
      destruct (attempts (net k) (method k) (params k) (retry_count k) remaining
                  (S attempt) c1) as [[r0 c0] tr0] eqn:Hlater.
      injection Hrest as <- <- <-.
      rewrite alone_sleeping.
      destruct (begin_round k (S attempt) c1) as [[k2 c2] tr2] eqn:Hnext.
      destruct (IH (S attempt) c1 n k2 c2 tr2 r0 c0 tr0 ltac:(lia) ltac:(lia)
                  Hnext Hlater) as (tr & -> & Htr).
      eexists. split; [reflexivity |].
      cbn [app]. now rewrite Htr. }
    destruct (net k attempt) as [| | body |].
    + now apply Hgo.
    + destruct (Nat.eqb (S attempt) (retry_count k)); [| now apply Hgo].
      injection Hrounds as <- <- <-. eexists. split; reflexivity.
    + injection Hrounds as <- <- <-. eexists. split; reflexivity.
    + destruct (Nat.eqb (S attempt) (retry_count k)); [| now apply Hgo].
      injection Hrounds as <- <- <-. eexists. split; reflexivity.
Qed.

Lemma run_alone n k c :
  run (replicate n 0%nat) [k] c
  = let '(k', c', tr) := alone n k c in ([k'], c', tr).
Proof.
  revert k c. induction n as [| n IH]; intros k c; [reflexivity |].
  cbn [replicate run alone lookup list_lookup].
  destruct (resume k c) as [[k' c'] tr].
  cbn [insert list_insert]. rewrite IH.
  now destruct (alone n k' c') as [[k'' c''] tr'].
Qed.

(** A call that finds a free slot and runs alone does what
    [_make_request] does: the same value, the same client and the same
    events. *)
Lemma alone_is_make_request net method params retry_count c n :
  semaphore c ≠ O →
  (2 * retry_count + 1 ≤ n)%nat →
  ∃ r c' tr,
    _make_request net method params retry_count c = (Done r, c', tr)
    ∧ alone n (queued method params retry_count net) c
      = (at_stage (queued method params retry_count net) (Returned r), c', tr).
Proof.
  intros Hfree Hn. unfold _make_request.
  destruct (semaphore c) as [| free] eqn:Hsem; [congruence |].
  destruct n as [| n]; [lia |].
  cbn [alone]. unfold resume.
  cbn [stage_of queued Interleaving.method Interleaving.params]. rewrite Hsem.
  destruct (if String.eqb method "getTransaction"
            then transaction_cache c !! cache_key method params
            else None) as [cached |].
  - rewrite (alone_returned n _ _ (Ok cached)) by reflexivity.
    rewrite (give_back_held c free Hsem).
    eexists _, _, _. split; [reflexivity |].
    f_equal. f_equal. destruct c as [id sem cache]. cbn in *. now subst sem.
  - destruct (begin_round (queued method params retry_count net) 0
                (set_semaphore c free)) as [[k1 c1] tr1] eqn:Hfirst.
    destruct (attempts net method params retry_count retry_count 0
                (set_semaphore c free)) as [[r c3] tr3] eqn:Hrounds.
    destruct (alone_attempts (queued method params retry_count net) retry_count
                0 (set_semaphore c free) n k1 c1 tr1 r c3 tr3
                eq_refl ltac:(lia) Hfirst Hrounds) as (tr2 & -> & Htr).
    eexists _, _, _. split; [reflexivity |].
    f_equal; [f_equal |].
    + unfold give_back.
      pose proof (TransportTraceFacts.attempts_accounting net method params
                    retry_count retry_count 0 (set_semaphore c free)) as Hacc.
      rewrite Hrounds in Hacc. destruct Hacc as (_ & _ & _ & Hslot & _).
      rewrite Hslot. reflexivity.
    + cbn [app]. now rewrite <- Htr.
Qed.

End Steps.

(** Two lookups of one signature that both miss the cache: each posts with
    an id of its own, and the second body takes the place of the first. *)
Example two_lookups_rewrite_the_entry :
  let result := run (H := Sample.runtime) [0; 1; 0; 1]%nat two_lookups init in
  post_ids result.2 = [1; 2]
  ∧ transaction_cache result.1.2
    = {[ cache_key (H := Sample.runtime) "getTransaction" Fixtures.cached_params
         := second_body ]}.
Proof. vm_compute. split; reflexivity. Qed.

(** A call that is limited once while another call runs: its posts carry
    the ids 1 and 3, that of the other call 2. *)
Example ids_of_a_retrying_call :
  post_ids (run (H := Sample.runtime) [0; 0; 1; 1; 0; 0]%nat limited_and_plain init).2
  = [1; 2; 3].
Proof. reflexivity. Qed.

End InterleavingFacts.
